(** * gopublic client core: statistics engine, inspector store, replay
      surface, event bus and tunnel worker.

    A shallow embedding of the Go sources in Gallina.  Go's [int64] and
    [time.Duration] are integers in [Z] with two's-complement wrap-around
    written out, slices are lists, pointers are locations in an explicit
    heap, package-level variables are fields of a state record, and the
    outcome of every I/O call is an explicit input of the function that
    makes the call.  Definitions come first, theorems afterwards. *)

From Stdlib Require Import ZArith List Bool Lia String Ascii Sorting.Sorted Sorting.Permutation.
From Stdlib Require Import Floats.SpecFloat.
From stdpp Require Import base option list gmap strings.
Import ListNotations.

(* ===================================================================== *)
(** * Part I.  Definitions                                                *)
(* ===================================================================== *)

(** ** Machine integers *)

Module Int64.
Local Open Scope Z_scope.

Definition modulus : Z := 2 ^ 64.
Definition MaxInt64 : Z := 2 ^ 63 - 1.
Definition MinInt64 : Z := - 2 ^ 63.

(** Two's-complement reduction of a mathematical integer into int64. *)
Definition wrap (z : Z) : Z := (z + 2 ^ 63) mod modulus - 2 ^ 63.

Definition add (a b : Z) : Z := wrap (a + b).
Definition sub (a b : Z) : Z := wrap (a - b).

(** Go's [/] on integers truncates toward zero; the only overflow is
    [MinInt64 / -1], which wraps. *)
Definition div (a b : Z) : Z := wrap (Z.quot a b).

Definition in_range (z : Z) : Prop := MinInt64 <= z <= MaxInt64.

End Int64.

(** ** IEEE-754 binary64, as used by [int(float64(n) * 0.9)] *)

Module Float64.
Local Open Scope Z_scope.

Definition prec : Z := 53.
Definition emax : Z := 1024.

(** [float64(n)] for an integer [n]: round to nearest, ties to even. *)
Definition of_int (n : Z) : spec_float := binary_normalize prec emax n 0 false.

(** The constant [0.9]: the double nearest to nine tenths,
    [0x3FECCCCCCCCCCCCD] = 8106479329266893 * 2^-53. *)
Definition nine_tenths : spec_float := S754_finite false 8106479329266893 (-53).

(** The mantissa of that constant. *)
Definition M9 : Z := 8106479329266893.

Definition mul (x y : spec_float) : spec_float := SFmul prec emax x y.

(** [int(f)]: conversion truncates toward zero.  For values outside the
    range of the integer type Go leaves the result to the implementation;
    amd64 yields [MinInt64]. *)
Definition to_int (f : spec_float) : Z :=
  match f with
  | S754_zero _ => 0
  | S754_finite s m e =>
      let a := match e with
               | Zneg k => Z.shiftr (Zpos m) (Zpos k)
               | _ => Z.shiftl (Zpos m) e
               end in
      if Z.leb a Int64.MaxInt64 then cond_Zopp s a else Int64.MinInt64
  | _ => Int64.MinInt64
  end.

End Float64.

(** ** internal/client/stats *)

Module Stats.
Local Open Scope Z_scope.

(** Durations are int64 nanoseconds. *)
Definition Millisecond : Z := 1000000.
Definition Second : Z := 1000 * Millisecond.

Record Stats := mkStats {
  totalConns : Z;
  openConns : Z;
  totalRequests : Z;
  totalBytes : Z;
  requestTimes : list Z;
  maxSamples : Z;
  serverLatency : Z;
  startTime : Z
}.

Record SnapshotT := mkSnapshot {
  TotalConnections : Z;
  OpenConnections : Z;
  TotalRequests : Z;
  TotalBytes : Z;
  RT1 : Z;
  RT5 : Z;
  P50 : Z;
  P90 : Z;
  ServerLatency : Z;
  Uptime : Z
}.

(** [New()]; the reading of the clock is an argument. *)
Definition New (now : Z) : Stats :=
  {| totalConns := 0; openConns := 0; totalRequests := 0; totalBytes := 0;
     requestTimes := []; maxSamples := 100; serverLatency := 0;
     startTime := now |}.

Definition NewWithOptions (maxSamples : Z) (now : Z) : Stats :=
  let maxSamples := if maxSamples <=? 0 then 100 else maxSamples in
  {| totalConns := 0; openConns := 0; totalRequests := 0; totalBytes := 0;
     requestTimes := []; maxSamples := maxSamples; serverLatency := 0;
     startTime := now |}.

Definition IncrementConnections (s : Stats) : Stats :=
  {| totalConns := Int64.add (totalConns s) 1;
     openConns := Int64.add (openConns s) 1;
     totalRequests := totalRequests s; totalBytes := totalBytes s;
     requestTimes := requestTimes s; maxSamples := maxSamples s;
     serverLatency := serverLatency s; startTime := startTime s |}.

Definition DecrementOpenConnections (s : Stats) : Stats :=
  if 0 <? openConns s then
    {| totalConns := totalConns s;
       openConns := Int64.sub (openConns s) 1;
       totalRequests := totalRequests s; totalBytes := totalBytes s;
       requestTimes := requestTimes s; maxSamples := maxSamples s;
       serverLatency := serverLatency s; startTime := startTime s |}
  else s.

Definition len {A} (l : list A) : Z := Z.of_nat (length l).

(** The ring: when full, [copy(times, times[1:])] shifts left and the
    slice is shortened by one, which drops the oldest sample; then the new
    duration is appended.  ([times[1:]] needs a non-empty slice: the full
    branch is entered with [len >= maxSamples] and both constructors make
    [maxSamples] positive, see [maxSamples_positive].) *)
Definition RecordRequest (s : Stats) (duration bytes : Z) : Stats :=
  let times :=
    if maxSamples s <=? len (requestTimes s)
    then List.tl (requestTimes s)
    else requestTimes s in
  {| totalConns := totalConns s; openConns := openConns s;
     totalRequests := Int64.add (totalRequests s) 1;
     totalBytes := Int64.add (totalBytes s) bytes;
     requestTimes := times ++ [duration];
     maxSamples := maxSamples s;
     serverLatency := serverLatency s; startTime := startTime s |}.

Definition SetServerLatency (s : Stats) (latency : Z) : Stats :=
  {| totalConns := totalConns s; openConns := openConns s;
     totalRequests := totalRequests s; totalBytes := totalBytes s;
     requestTimes := requestTimes s; maxSamples := maxSamples s;
     serverLatency := latency; startTime := startTime s |}.

(** [for i := n - count; i < n; i++ { sum += times[i] }], with [k] the
    number of iterations left. *)
Fixpoint sumLoop (times : list Z) (i : nat) (k : nat) (sum : Z) : Z :=
  match k with
  | O => sum
  | S k' => sumLoop times (S i) k' (Int64.add sum (nth i times 0))
  end.

(** [sort.Slice(sorted, func(i, j) bool { return sorted[i] < sorted[j] })]
    on a copy: the ascending rearrangement of the samples. *)
Fixpoint insertSorted (d : Z) (l : list Z) : list Z :=
  match l with
  | [] => [d]
  | x :: l' => if d <=? x then d :: l else x :: insertSorted d l'
  end.

Fixpoint sortSlice (l : list Z) : list Z :=
  match l with
  | [] => []
  | x :: l' => insertSorted x (sortSlice l')
  end.

(** [p90Index := int(float64(n) * 0.9); if p90Index >= n { p90Index = n - 1 }] *)
Definition p90Index (n : Z) : Z :=
  let p := Float64.to_int (Float64.mul (Float64.of_int n) Float64.nine_tenths) in
  if n <=? p then n - 1 else p.

(** [time.Since(start)] at clock reading [now]; [Time.Sub] saturates. *)
Definition since (now start : Z) : Z :=
  Z.max Int64.MinInt64 (Z.min Int64.MaxInt64 (now - start)).

Definition Snapshot (s : Stats) (now : Z) : SnapshotT :=
  let n := len (requestTimes s) in
  if n =? 0 then
    {| TotalConnections := totalConns s; OpenConnections := openConns s;
       TotalRequests := totalRequests s; TotalBytes := totalBytes s;
       RT1 := 0; RT5 := 0; P50 := 0; P90 := 0;
       ServerLatency := serverLatency s;
       Uptime := since now (startTime s) |}
  else
    let count := if n <? 5 then n else 5 in
    let sum := sumLoop (requestTimes s) (Z.to_nat (n - count)) (Z.to_nat count) 0 in
    let sorted := sortSlice (requestTimes s) in
    {| TotalConnections := totalConns s; OpenConnections := openConns s;
       TotalRequests := totalRequests s; TotalBytes := totalBytes s;
       RT1 := nth (Z.to_nat (n - 1)) (requestTimes s) 0;
       RT5 := Int64.div sum count;
       P50 := nth (Z.to_nat (Z.quot n 2)) sorted 0;
       P90 := nth (Z.to_nat (p90Index n)) sorted 0;
       ServerLatency := serverLatency s;
       Uptime := since now (startTime s) |}.

Definition Reset (s : Stats) (now : Z) : Stats :=
  {| totalConns := 0; openConns := 0; totalRequests := 0; totalBytes := 0;
     requestTimes := []; maxSamples := maxSamples s; serverLatency := 0;
     startTime := now |}.

(** A client of the engine: one call per step. *)
Inductive Op :=
| OpIncrement
| OpDecrement
| OpRecord (duration bytes : Z)
| OpLatency (latency : Z)
| OpReset (now : Z)
| OpSnapshot (now : Z).

Definition step (s : Stats) (o : Op) : Stats :=
  match o with
  | OpIncrement => IncrementConnections s
  | OpDecrement => DecrementOpenConnections s
  | OpRecord d b => RecordRequest s d b
  | OpLatency l => SetServerLatency s l
  | OpReset now => Reset s now
  | OpSnapshot _ => s
  end.

(** The states the engine goes through, one per step, newest last. *)
Fixpoint run (s : Stats) (ops : list Op) : Stats :=
  match ops with
  | [] => s
  | o :: ops' => run (step s o) ops'
  end.

(** The snapshots a client observes along a run, in order. *)
Fixpoint observations (s : Stats) (ops : list Op) : list SnapshotT :=
  match ops with
  | [] => []
  | OpSnapshot now :: ops' => Snapshot s now :: observations s ops'
  | o :: ops' => observations (step s o) ops'
  end.

Definition recordAll (s : Stats) (ds : list Z) : Stats :=
  fold_left (fun s d => RecordRequest s d 0) ds s.

End Stats.

(** ** net/http, strconv and strings: the parts the client calls *)

Module GoStrings.

Definition HasPrefix (s p : string) : bool := String.prefix p s.

Definition TrimPrefix (s p : string) : string :=
  if String.prefix p s
  then String.substring (String.length p) (String.length s - String.length p) s
  else s.

(** [strings.Contains] *)
Fixpoint Contains (s sub : string) : bool :=
  String.prefix sub s ||
  match s with
  | EmptyString => false
  | String _ s' => Contains s' sub
  end.

End GoStrings.

Module Strconv.
Local Open Scope Z_scope.

Definition digitValue (c : ascii) : option Z :=
  let n := Z.of_nat (nat_of_ascii c) in
  if (48 <=? n) && (n <=? 57) then Some (n - 48) else None.

Fixpoint parseDigits (s : string) (acc : Z) : option Z :=
  match s with
  | EmptyString => Some acc
  | String c s' =>
      match digitValue c with
      | Some d => parseDigits s' (10 * acc + d)
      | None => None
      end
  end.

(** [strconv.ParseInt(s, 10, 64)]: an optional sign, at least one decimal
    digit, nothing else, and a value that fits int64; [None] is the error
    result (syntax or range). *)
Definition ParseInt (s : string) : option Z :=
  match s with
  | EmptyString => None
  | String c rest =>
      let neg := Ascii.eqb c "-" in
      let digits := if Ascii.eqb c "+" || Ascii.eqb c "-" then rest else s in
      match digits with
      | EmptyString => None
      | _ =>
          match parseDigits digits 0 with
          | None => None
          | Some un =>
              if neg
              then (if un <=? 2 ^ 63 then Some (- un) else None)
              else (if un <? 2 ^ 63 then Some un else None)
          end
      end
  end.

End Strconv.

Module Http.
Local Open Scope Z_scope.

Definition ptr := positive.
Abbreviation Header := (gmap string (list string)).

Definition StatusOK : Z := 200.
Definition StatusBadRequest : Z := 400.
Definition StatusNotFound : Z := 404.
Definition StatusMethodNotAllowed : Z := 405.
Definition StatusInternalServerError : Z := 500.
Definition StatusBadGateway : Z := 502.

(** [*http.Request] as the tunnel worker sees it after [http.ReadRequest]:
    [URL] is [req.URL.String()], [Header] the address of the header map. *)
Module Request.
Record t := mk { Method : string; URL : string; Proto : string; Header : option ptr }.
End Request.

Module Response.
Record t := mk { StatusCode : Z; Proto : string; Header : option ptr }.
End Response.

(** Why a call into net/http failed. *)
Inductive error :=
| InvalidMethod (method : string)
| URLError (text : string)
| TransportError (text : string).

(** RFC 7230 token characters, as [validMethod] checks them. *)
Definition isTokenChar (c : ascii) : bool :=
  let n := Z.of_nat (nat_of_ascii c) in
  ((48 <=? n) && (n <=? 57)) || ((65 <=? n) && (n <=? 90)) || ((97 <=? n) && (n <=? 122))
  || existsb (Z.eqb n) [33; 35; 36; 37; 38; 39; 42; 43; 45; 46; 94; 95; 96; 124; 126].

Fixpoint allToken (s : string) : bool :=
  match s with
  | EmptyString => true
  | String c s' => isTokenChar c && allToken s'
  end.

Definition validMethod (method : string) : bool :=
  negb (String.eqb method "") && allToken method.

(** An outgoing request built by [http.NewRequest] and filled with headers. *)
Record ClientRequest := mkClientRequest {
  OutMethod : string;
  OutURL : string;
  OutHeader : Header;
  OutBody : string
}.

(** [http.NewRequest(method, url, body)]: an empty method means GET, the
    method must be a token, the URL must parse.  [parseURL] answers whether
    [url.Parse] accepts the string, with the error text when it does not. *)
Definition NewRequest (parseURL : string -> option string)
    (method url body : string) : error + ClientRequest :=
  let method := if String.eqb method "" then "GET"%string else method in
  if negb (validMethod method) then inl (InvalidMethod method)
  else match parseURL url with
       | Some e => inl (URLError e)
       | None => inr {| OutMethod := method; OutURL := url; OutHeader := ∅; OutBody := body |}
       end.

Record Client := mkClient { Timeout : Z }.

(** What came back from [client.Do] followed by [io.ReadAll(resp.Body)]. *)
Record Upstream := mkUpstream {
  UpStatusCode : Z;
  UpHeader : Header;
  UpBody : string
}.

End Http.

(** ** internal/client/inspector *)

Module Inspector.
Local Open Scope Z_scope.

Definition ptr := positive.
Abbreviation Header := (gmap string (list string)).

Definition len {A} (l : list A) : Z := Z.of_nat (length l).
Definition slen (s : string) : Z := Z.of_nat (String.length s).

Module HTTPRequest.
Record t := mk {
  Method : string;
  URL : string;
  Proto : string;
  Headers : option ptr;
  Body : string;
  Size : Z
}.
End HTTPRequest.

Module HTTPResponse.
Record t := mk {
  Status : Z;
  Proto : string;
  Headers : option ptr;
  Body : string;
  Size : Z
}.
End HTTPResponse.

(** [Request] and [Response] are pointers; [None] is nil. *)
Module HTTPExchange.
Record t := mk {
  ID : Z;
  Request : option ptr;
  Response : option ptr;
  Duration : Z;
  Timestamp : Z
}.
Definition withID (id : Z) (ex : t) : t :=
  {| ID := id; Request := Request ex; Response := Response ex;
     Duration := Duration ex; Timestamp := Timestamp ex |}.
End HTTPExchange.

(** The objects that are reached through pointers: captured requests and
    responses, header maps (Go maps are references), and the copies of an
    exchange that [Get] and [GetExchange] hand out by address. *)
Record Heap := mkHeap {
  requests : gmap ptr HTTPRequest.t;
  responses : gmap ptr HTTPResponse.t;
  headerMaps : gmap ptr (gmap string (list string));
  exchangeCells : gmap ptr HTTPExchange.t
}.

Definition emptyHeap : Heap :=
  {| requests := ∅; responses := ∅; headerMaps := ∅; exchangeCells := ∅ |}.

Definition allocRequest (r : HTTPRequest.t) (h : Heap) : ptr * Heap :=
  let p := fresh (dom (requests h)) in
  (p, {| requests := <[p := r]> (requests h); responses := responses h;
         headerMaps := headerMaps h; exchangeCells := exchangeCells h |}).

Definition allocResponse (r : HTTPResponse.t) (h : Heap) : ptr * Heap :=
  let p := fresh (dom (responses h)) in
  (p, {| requests := requests h; responses := <[p := r]> (responses h);
         headerMaps := headerMaps h; exchangeCells := exchangeCells h |}).

Definition allocHeader (m : gmap string (list string)) (h : Heap) : ptr * Heap :=
  let p := fresh (dom (headerMaps h)) in
  (p, {| requests := requests h; responses := responses h;
         headerMaps := <[p := m]> (headerMaps h); exchangeCells := exchangeCells h |}).

Definition allocExchange (ex : HTTPExchange.t) (h : Heap) : ptr * Heap :=
  let p := fresh (dom (exchangeCells h)) in
  (p, {| requests := requests h; responses := responses h;
         headerMaps := headerMaps h; exchangeCells := <[p := ex]> (exchangeCells h) |}).

(** Assignments through a pointer, as a holder of the pointer can make. *)
Definition storeExchange (p : ptr) (ex : HTTPExchange.t) (h : Heap) : Heap :=
  {| requests := requests h; responses := responses h;
     headerMaps := headerMaps h; exchangeCells := <[p := ex]> (exchangeCells h) |}.

Definition storeRequest (p : ptr) (r : HTTPRequest.t) (h : Heap) : Heap :=
  {| requests := <[p := r]> (requests h); responses := responses h;
     headerMaps := headerMaps h; exchangeCells := exchangeCells h |}.

Definition storeResponse (p : ptr) (r : HTTPResponse.t) (h : Heap) : Heap :=
  {| requests := requests h; responses := <[p := r]> (responses h);
     headerMaps := headerMaps h; exchangeCells := exchangeCells h |}.

Definition storeHeader (p : ptr) (m : gmap string (list string)) (h : Heap) : Heap :=
  {| requests := requests h; responses := responses h;
     headerMaps := <[p := m]> (headerMaps h); exchangeCells := exchangeCells h |}.

(** The first element with the given ID: [for i := range ... if ID == id]. *)
Fixpoint lookupID (exs : list HTTPExchange.t) (id : Z) : option HTTPExchange.t :=
  match exs with
  | [] => None
  | ex :: exs' => if HTTPExchange.ID ex =? id then Some ex else lookupID exs' id
  end.

(** *** store.go: InMemoryStore *)

Module InMemoryStore.

(** The slice holds exchange values; its backing array is private to
    the store ([List] copies it, [Get] copies the element). *)
Record t := mk {
  exchanges : list HTTPExchange.t;
  nextID : Z;
  maxSize : Z
}.

Definition New (maxSize : Z) : t :=
  let maxSize := if maxSize <=? 0 then 100 else maxSize in
  {| exchanges := []; nextID := 0; maxSize := maxSize |}.

(** At capacity, [copy(exchanges[1:], exchanges[:len-1])] shifts right over
    the oldest entry and slot 0 takes the new one; below capacity a new
    slice is made with the new exchange in front.  (The shift needs a
    non-empty slice: [maxSize] is positive in every store made by [New].) *)
Definition Add (s : t) (exchange : HTTPExchange.t) : Z * t :=
  let exchange := HTTPExchange.withID (nextID s) exchange in
  let next := Int64.add (nextID s) 1 in
  let exs :=
    if maxSize s <=? len (exchanges s)
    then exchange :: removelast (exchanges s)
    else exchange :: exchanges s in
  (HTTPExchange.ID exchange, {| exchanges := exs; nextID := next; maxSize := maxSize s |}).

(** [ex := s.exchanges[i]; return &ex, true] *)
Definition Get (s : t) (id : Z) (h : Heap) : option ptr * bool * Heap :=
  match lookupID (exchanges s) id with
  | Some ex => let '(p, h') := allocExchange ex h in (Some p, true, h')
  | None => (None, false, h)
  end.

Definition List (s : t) : list HTTPExchange.t := exchanges s.

Definition Clear (s : t) : t :=
  {| exchanges := []; nextID := nextID s; maxSize := maxSize s |}.

Definition Count (s : t) : Z := len (exchanges s).

(** Calls on one store, and what each returns. *)
Inductive Op :=
| OpAdd (exchange : HTTPExchange.t)
| OpGet (id : Z)
| OpList
| OpClear
| OpCount.

Inductive Ret :=
| RetAdd (id : Z)
| RetGet (p : option ptr) (ok : bool)
| RetList (l : list HTTPExchange.t)
| RetClear
| RetCount (n : Z).

Definition step (s : t) (h : Heap) (o : Op) : Ret * t * Heap :=
  match o with
  | OpAdd ex => let '(id, s') := Add s ex in (RetAdd id, s', h)
  | OpGet id => let '(p, ok, h') := Get s id h in (RetGet p ok, s, h')
  | OpList => (RetList (List s), s, h)
  | OpClear => (RetClear, Clear s, h)
  | OpCount => (RetCount (Count s), s, h)
  end.

Fixpoint run (s : t) (h : Heap) (ops : list Op) : list Ret * t * Heap :=
  match ops with
  | [] => ([], s, h)
  | o :: ops' =>
      let '(r, s', h') := step s h o in
      let '(rs, s'', h'') := run s' h' ops' in
      (r :: rs, s'', h'')
  end.

(** The identifiers handed out by the [Add] calls of a run, in order. *)
Fixpoint assignedIDs (rs : list Ret) : list Z :=
  match rs with
  | [] => []
  | RetAdd id :: rs' => id :: assignedIDs rs'
  | _ :: rs' => assignedIDs rs'
  end.

End InMemoryStore.

(** *** inspector.go: the package-level capture list and the replay surface *)

(** The package variables [exchanges], [nextID] and [localPort]. *)
Record Package := mkPackage {
  exchanges : list HTTPExchange.t;
  nextID : Z;
  localPort : string
}.

Definition initial : Package := {| exchanges := []; nextID := 0; localPort := "" |}.

Definition maxBodySize : Z := 1024 * 1024.

Definition truncationMarker : string := String "010"%char "... (truncated)".

Definition SetLocalPort (g : Package) (port : string) : Package :=
  {| exchanges := exchanges g; nextID := nextID g; localPort := port |}.

Definition truncateBody (body : string) : string :=
  if maxBodySize <? slen body
  then String.substring 0 (Z.to_nat maxBodySize) body +:+ truncationMarker
  else body.

(** [duration.Milliseconds()] *)
Definition Milliseconds (d : Z) : Z := Z.quot d 1000000.

(** [exchanges = append([]HTTPExchange{exchange}, exchanges...)], cut to the
    first 100. *)
Definition prepend (ex : HTTPExchange.t) (exs : list HTTPExchange.t) : list HTTPExchange.t :=
  let exs := ex :: exs in
  if 100 <? len exs then firstn 100 exs else exs.

(** [AddExchange(req, reqBody, resp, respBody, duration)]; [resp] is [None]
    for a nil response, [now] is the reading of [time.Now()]. *)
Definition AddExchange (g : Package) (h : Heap)
    (req : Http.Request.t) (reqBody : string)
    (resp : option Http.Response.t) (respBody : string)
    (duration now : Z) : Z * Package * Heap :=
  let id := nextID g in
  let '(rq, h) :=
    allocRequest
      {| HTTPRequest.Method := Http.Request.Method req;
         HTTPRequest.URL := Http.Request.URL req;
         HTTPRequest.Proto := Http.Request.Proto req;
         HTTPRequest.Headers := Http.Request.Header req;
         HTTPRequest.Body := truncateBody reqBody;
         HTTPRequest.Size := slen reqBody |} h in
  let '(rs, h) :=
    match resp with
    | Some resp =>
        let '(p, h) :=
          allocResponse
            {| HTTPResponse.Status := Http.Response.StatusCode resp;
               HTTPResponse.Proto := Http.Response.Proto resp;
               HTTPResponse.Headers := Http.Response.Header resp;
               HTTPResponse.Body := truncateBody respBody;
               HTTPResponse.Size := slen respBody |} h in
        (Some p, h)
    | None => (None, h)
    end in
  let exchange :=
    {| HTTPExchange.ID := id; HTTPExchange.Timestamp := now;
       HTTPExchange.Duration := Milliseconds duration;
       HTTPExchange.Request := Some rq; HTTPExchange.Response := rs |} in
  (id,
   {| exchanges := prepend exchange (exchanges g);
      nextID := Int64.add (nextID g) 1;
      localPort := localPort g |},
   h).

(** [AddRequest(method, host, path, status)], the legacy entry point. *)
Definition AddRequest (g : Package) (h : Heap)
    (method host path : string) (status : Z) (now : Z) : Package * Heap :=
  let id := nextID g in
  let '(hd, h) := allocHeader {[ "Host"%string := [host] ]} h in
  let '(rq, h) :=
    allocRequest
      {| HTTPRequest.Method := method; HTTPRequest.URL := path;
         HTTPRequest.Proto := ""; HTTPRequest.Headers := Some hd;
         HTTPRequest.Body := ""; HTTPRequest.Size := 0 |} h in
  let '(rs, h) :=
    if 0 <? status then
      let '(p, h) :=
        allocResponse
          {| HTTPResponse.Status := status; HTTPResponse.Proto := "";
             HTTPResponse.Headers := None; HTTPResponse.Body := "";
             HTTPResponse.Size := 0 |} h in
      (Some p, h)
    else (None, h) in
  let exchange :=
    {| HTTPExchange.ID := id; HTTPExchange.Timestamp := now;
       HTTPExchange.Duration := 0;
       HTTPExchange.Request := Some rq; HTTPExchange.Response := rs |} in
  ({| exchanges := prepend exchange (exchanges g);
      nextID := Int64.add (nextID g) 1;
      localPort := localPort g |},
   h).

(** [for _, ex := range exchanges { if ex.ID == id { return &ex, true } }] *)
Definition GetExchange (g : Package) (id : Z) (h : Heap) : option ptr * bool * Heap :=
  match lookupID (exchanges g) id with
  | Some ex => let '(p, h') := allocExchange ex h in (Some p, true, h')
  | None => (None, false, h)
  end.

(** What a handler writes back. *)
Inductive Reply :=
| Error (message : string) (cause : option Http.error) (code : Z)
    (** [http.Error(w, message + cause.Error(), code)] *)
| ReplayJSON (status : Z) (headers : Header) (body : string)
    (** 200 with [{"status": .., "headers": .., "body": ..}] *)
| ExchangeJSON (exchange : HTTPExchange.t)
    (** 200 with the exchange encoded *)
| Panic.
    (** a nil pointer was dereferenced *)

Definition replyStatus (r : Reply) : option Z :=
  match r with
  | Error _ _ code => Some code
  | ReplayJSON _ _ _ => Some Http.StatusOK
  | ExchangeJSON _ => Some Http.StatusOK
  | Panic => None
  end.

(** The world outside the process, as the replay path meets it. *)
Record Env := mkEnv {
  parseURL : string -> option string;
  Do : Http.Client -> Http.ClientRequest -> Http.error + Http.Upstream
}.

Definition replayTimeout : Z := 30 * Stats.Second.

(** The request under replay, read through the pointers of the copy:
    [exchange.Request] and its header map.  [None] when a pointer on the
    way is nil. *)
Definition storedRequest (h : Heap) (p : ptr) : option HTTPRequest.t :=
  match exchangeCells h !! p with
  | Some ex =>
      match HTTPExchange.Request ex with
      | Some r => requests h !! r
      | None => None
      end
  | None => None
  end.

(** A nil map ranges over nothing. *)
Definition storedHeaders (h : Heap) (request : HTTPRequest.t) : gmap string (list string) :=
  match HTTPRequest.Headers request with
  | Some m => default ∅ (headerMaps h !! m)
  | None => ∅
  end.

(** [for k, vv := range headers { for _, v := range vv { req.Header.Add(k, v) } }]
    on the empty header of a new request: every stored value is added
    under its key, keys without values add nothing.  ([Header.Add] puts
    the key in canonical form; the keys of a captured request are
    canonical already.) *)
Definition copyHeaders (src : gmap string (list string)) (req : Http.ClientRequest)
    : Http.ClientRequest :=
  {| Http.OutMethod := Http.OutMethod req; Http.OutURL := Http.OutURL req;
     Http.OutHeader := filter (fun kv => kv.2 ≠ []) src;
     Http.OutBody := Http.OutBody req |}.

Definition handleReplay (env : Env) (g : Package) (h : Heap)
    (method : string) (idStr : string) : Reply * Heap :=
  if negb (String.eqb method "POST") then
    (Error "Method not allowed" None Http.StatusMethodNotAllowed, h)
  else
    match Strconv.ParseInt idStr with
    | None => (Error "Invalid ID" None Http.StatusBadRequest, h)
    | Some id =>
        match GetExchange g id h with
        | (Some p, true, h) =>
            if String.eqb (localPort g) "" then
              (Error "Replay not configured (no local port)" None
                 Http.StatusInternalServerError, h)
            else
              match storedRequest h p with
              | None => (Panic, h)
              | Some request =>
                  let reqURL := "http://localhost:" +:+ localPort g +:+ HTTPRequest.URL request in
                  match Http.NewRequest (parseURL env) (HTTPRequest.Method request) reqURL
                          (HTTPRequest.Body request) with
                  | inl err =>
                      (Error "Failed to create request: " (Some err)
                         Http.StatusInternalServerError, h)
                  | inr req =>
                      let req :=
                        copyHeaders (storedHeaders h request) req in
                      let client := {| Http.Timeout := replayTimeout |} in
                      match Do env client req with
                      | inl err => (Error "Replay failed: " (Some err) Http.StatusBadGateway, h)
                      | inr resp =>
                          (ReplayJSON (Http.UpStatusCode resp) (Http.UpHeader resp)
                             (Http.UpBody resp), h)
                      end
                  end
              end
        | (_, _, h) => (Error "Exchange not found" None Http.StatusNotFound, h)
        end
    end.

(** The handler registered on ["/api/replay/"]. *)
Definition replayRoute (env : Env) (g : Package) (h : Heap)
    (method path : string) : Reply * Heap :=
  if negb (String.eqb method "POST") then
    (Error "Method not allowed" None Http.StatusMethodNotAllowed, h)
  else handleReplay env g h method (GoStrings.TrimPrefix path "/api/replay/").

(** The handler registered on ["/api/exchanges/"]. *)
Definition exchangesRoute (env : Env) (g : Package) (h : Heap)
    (method path : string) : Reply * Heap :=
  let idStr := GoStrings.TrimPrefix path "/api/exchanges/" in
  if GoStrings.HasPrefix idStr "replay/" then
    handleReplay env g h method (GoStrings.TrimPrefix idStr "replay/")
  else
    match Strconv.ParseInt idStr with
    | None => (Error "Invalid ID" None Http.StatusBadRequest, h)
    | Some id =>
        match GetExchange g id h with
        | (Some p, true, h) =>
            match exchangeCells h !! p with
            | Some ex => (ExchangeJSON ex, h)
            | None => (Panic, h)
            end
        | (_, _, h) => (Error "Not found" None Http.StatusNotFound, h)
        end
    end.

End Inspector.

(** ** internal/client/events *)

Module Events.
Local Open Scope Z_scope.

Inductive EventType :=
| EventConnecting
| EventConnected
| EventDisconnected
| EventReconnecting
| EventRequestStart
| EventRequestComplete
| EventError
| EventTunnelReady.

(** The payload of an event, by kind. *)
Inductive Payload :=
| NoData
| ConnectedData (ServerAddr : string) (BoundDomains : list string) (Latency : Z)
| RequestData (Method Path : string) (Status Duration Bytes : Z)
| TunnelReadyData (Name LocalPort : string) (BoundDomains : list string) (Scheme : string)
| ErrorData (Error Context : string).

(** [Type_] is the Go field [Type]; [Timestamp] is [None] while unset. *)
Record Event := mkEvent {
  Type_ : EventType;
  Data : Payload;
  Timestamp : option Z
}.

(** Modelled from the spec: the bus itself (events.go: [Bus], [NewBus],
    [NewBusWithBuffer], [Subscribe], [Publish], [PublishType],
    [PublishError], [Unsubscribe], [Close], [SubscriberCount]) is not among
    the sources; only its tests are.  Section 4.B of the specification:
    every subscriber endpoint is a bounded queue of [bufferSize] slots
    (16 by default); publish enqueues onto every endpoint that has room and
    drops the event for a full one; unsubscribe closes and removes an
    endpoint; close closes every endpoint and marks the bus closed, after
    which subscribe returns a closed endpoint and publish drops the event.
    [subscribers] are the open endpoints by handle, [retired] the closed
    ones with what was still queued. *)
Record Bus := mkBus {
  subscribers : gmap nat (list Event);
  retired : gmap nat (list Event);
  bufferSize : nat;
  closed : bool
}.

(** Modelled from the spec: [NewBusWithBuffer(n)]. *)
Definition NewBusWithBuffer (n : nat) : Bus :=
  {| subscribers := ∅; retired := ∅; bufferSize := n; closed := false |}.

(** Modelled from the spec: [NewBus()], 16 slots per endpoint. *)
Definition NewBus : Bus := NewBusWithBuffer 16.

(** Modelled from the spec: [Subscribe()] returns a new endpoint; on a
    closed bus the endpoint is closed from the start. *)
Definition Subscribe (b : Bus) : nat * Bus :=
  let id := fresh (dom (subscribers b) ∪ dom (retired b)) in
  if closed b then
    (id, {| subscribers := subscribers b; retired := <[id := []]> (retired b);
            bufferSize := bufferSize b; closed := closed b |})
  else
    (id, {| subscribers := <[id := []]> (subscribers b); retired := retired b;
            bufferSize := bufferSize b; closed := closed b |}).

(** Modelled from the spec: the timestamp is filled in at publish time if
    unset. *)
Definition stamp (ev : Event) (now : Z) : Event :=
  match Timestamp ev with
  | Some _ => ev
  | None => {| Type_ := Type_ ev; Data := Data ev; Timestamp := Some now |}
  end.

(** Modelled from the spec: one endpoint takes the event if it has room
    and is left as it was if it is full. *)
Definition deliver (capacity : nat) (ev : Event) (queue : list Event) : list Event :=
  if (length queue <? capacity)%nat then queue ++ [ev] else queue.

(** Modelled from the spec: [Publish(event)]; it returns nothing and has
    no error result. *)
Definition Publish (b : Bus) (ev : Event) (now : Z) : Bus :=
  if closed b then b
  else
    {| subscribers := deliver (bufferSize b) (stamp ev now) <$> subscribers b;
       retired := retired b; bufferSize := bufferSize b; closed := closed b |}.

(** Modelled from the spec: [PublishType(t)]. *)
Definition PublishType (b : Bus) (t : EventType) (now : Z) : Bus :=
  Publish b {| Type_ := t; Data := NoData; Timestamp := None |} now.

(** Modelled from the spec: [PublishError(err, context)]. *)
Definition PublishError (b : Bus) (err context : string) (now : Z) : Bus :=
  Publish b {| Type_ := EventError; Data := ErrorData err context; Timestamp := None |} now.

(** Modelled from the spec: [Unsubscribe(endpoint)]. *)
Definition Unsubscribe (b : Bus) (id : nat) : Bus :=
  match subscribers b !! id with
  | Some q =>
      {| subscribers := delete id (subscribers b); retired := <[id := q]> (retired b);
         bufferSize := bufferSize b; closed := closed b |}
  | None => b
  end.

(** Modelled from the spec: [Close()]. *)
Definition Close (b : Bus) : Bus :=
  {| subscribers := ∅; retired := subscribers b ∪ retired b;
     bufferSize := bufferSize b; closed := true |}.

(** Modelled from the spec: [SubscriberCount()]. *)
Definition SubscriberCount (b : Bus) : nat := size (subscribers b).

(** What a consumer gets from its endpoint without waiting. *)
Inductive Received :=
| Got (ev : Event)
| EndpointClosed
| NothingYet.

(** Modelled from the spec: a receive on an endpoint: the oldest queued
    event; on a drained closed endpoint the closed indication. *)
Definition Receive (b : Bus) (id : nat) : Received * Bus :=
  match subscribers b !! id with
  | Some (ev :: q) =>
      (Got ev, {| subscribers := <[id := q]> (subscribers b); retired := retired b;
                  bufferSize := bufferSize b; closed := closed b |})
  | Some [] => (NothingYet, b)
  | None =>
      match retired b !! id with
      | Some (ev :: q) =>
          (Got ev, {| subscribers := subscribers b; retired := <[id := q]> (retired b);
                      bufferSize := bufferSize b; closed := closed b |})
      | _ => (EndpointClosed, b)
      end
  end.

End Events.

(** ** pkg/protocol *)

Module Protocol.
Local Open Scope Z_scope.

Definition ErrorCode := string.
Definition ErrorCodeNone : ErrorCode := "".
Definition ErrorCodeInvalidToken : ErrorCode := "invalid_token".
Definition ErrorCodeAlreadyConnected : ErrorCode := "already_connected".
Definition ErrorCodeNoDomains : ErrorCode := "no_domains".

Record AuthRequest := mkAuthRequest {
  Token : string;
  Force : bool
}.

(** A nil slice is [None]. *)
Record TunnelRequest := mkTunnelRequest {
  RequestedDomains : option (list string)
}.

Record ServerStats := mkServerStats {
  BandwidthToday : Z;
  BandwidthTotal : Z;
  BandwidthLimit : Z
}.

Record InitResponse := mkInitResponse {
  Success : bool;
  Error : string;
  Code : ErrorCode;
  BoundDomains : list string;
  Stats : option ServerStats
}.

(** The JSON the encoder writes for these records: an object whose
    members are scalars or arrays of strings, in field order. *)
Inductive JValue :=
| JNull
| JBool (b : bool)
| JNumber (z : Z)
| JString (s : string)
| JStrings (l : list string).

Definition JSON := list (string * JValue).

(** [json:"token"] and [json:"force,omitempty"]: a false [Force] is left
    out of the object. *)
Definition encodeAuthRequest (a : AuthRequest) : JSON :=
  ("token"%string, JString (Token a))
  :: (if Force a then [("force"%string, JBool true)] else []).

(** [json:"requested_domains"]: a nil slice is written as null. *)
Definition encodeTunnelRequest (r : TunnelRequest) : JSON :=
  [("requested_domains"%string,
    match RequestedDomains r with
    | None => JNull
    | Some ds => JStrings ds
    end)].

End Protocol.

(** ** internal/client/tunnel *)

Module Tunnel.
Local Open Scope Z_scope.

Record Tunnel := mkTunnel {
  ServerAddr : string;
  Token : string;
  LocalPort : string;
  Subdomain : string
}.

Definition NewTunnel (serverAddr token localPort : string) : Tunnel :=
  {| ServerAddr := serverAddr; Token := token; LocalPort := localPort; Subdomain := "" |}.

(** What [http.ReadRequest] and [http.ReadResponse] parse off the wire. *)
Record ParsedRequest := mkParsedRequest {
  ReqMethod : string;
  ReqURL : string;
  ReqProto : string;
  ReqHeader : gmap string (list string)
}.

Record ParsedResponse := mkParsedResponse {
  RespStatusCode : Z;
  RespProto : string;
  RespHeader : gmap string (list string)
}.

(** Everything one inbound stream and the local service do to a worker:
    the result of each call, errors as their text, and the readings of the
    clock.  [None] in an error position means the call succeeded. *)
Record StreamIO := mkStreamIO {
  dial : option string;
  readRequest : string + ParsedRequest;
  requestBody : option string;
  writeRequest : option string;
  readResponse : string + ParsedResponse;
  responseBody : option string;
  writeResponse : option string;
  sinceAtReadFailure : Z;
  sinceAtResponse : Z;
  nowAtRecord : Z
}.

(** What a worker or the session does to the outside, in order. *)
Inductive Effect :=
| ConnClosed
| ControlEncoded (j : Protocol.JSON)
| ControlClosed
| Printed (s : string)
| Logged (s : string)
| LocalDialed (addr : string)
| LocalClosed
| RemoteClosed
| RawCopyStarted
| RawCopied
| RequestBodyClosed
| RequestForwarded (method url : string) (body : string)
| ResponseBodyClosed
| ResponseForwarded (status : Z) (body : string).

(** The state of the process: the inspector's package variables and the
    heap behind them, and the process-wide statistics engine and event bus
    the dashboard reads.  The tunnel package refers to the inspector
    only. *)
Record World := mkWorld {
  inspector : Inspector.Package;
  heap : Inspector.Heap;
  stats : Stats.Stats;
  bus : Events.Bus;
  trace : list Effect
}.

Definition emit (es : list Effect) (w : World) : World :=
  {| inspector := inspector w; heap := heap w; stats := stats w; bus := bus w;
     trace := trace w ++ es |}.

Definition withInspector (g : Inspector.Package) (h : Inspector.Heap) (w : World) : World :=
  {| inspector := g; heap := h; stats := stats w; bus := bus w; trace := trace w |}.

(** The request as [http.ReadRequest] leaves it: the header map is a new
    object. *)
Definition materializeRequest (r : ParsedRequest) (w : World) : Http.Request.t * World :=
  let '(p, h) := Inspector.allocHeader (ReqHeader r) (heap w) in
  ({| Http.Request.Method := ReqMethod r; Http.Request.URL := ReqURL r;
      Http.Request.Proto := ReqProto r; Http.Request.Header := Some p |},
   withInspector (inspector w) h w).

Definition materializeResponse (r : ParsedResponse) (w : World) : Http.Response.t * World :=
  let '(p, h) := Inspector.allocHeader (RespHeader r) (heap w) in
  ({| Http.Response.StatusCode := RespStatusCode r;
      Http.Response.Proto := RespProto r; Http.Response.Header := Some p |},
   withInspector (inspector w) h w).

Definition addExchange (req : Http.Request.t) (reqBody : string)
    (resp : option Http.Response.t) (respBody : string) (duration now : Z)
    (w : World) : World :=
  let '(_, g, h) :=
    Inspector.AddExchange (inspector w) (heap w) req reqBody resp respBody duration now in
  withInspector g h w.

(** [proxyStream(remote)].  The deferred closes run when the function
    returns, last registered first. *)
Definition proxyStream (t : Tunnel) (io : StreamIO) (w : World) : World :=
  let w := emit [LocalDialed ("localhost:" +:+ LocalPort t)] w in
  match dial io with
  | Some err =>
      emit [Logged ("Failed to dial local port " +:+ LocalPort t +:+ ": " +:+ err);
            RemoteClosed] w
  | None =>
      match readRequest io with
      | inl _ =>
          emit [RawCopyStarted; RawCopied; LocalClosed; RemoteClosed] w
      | inr parsed =>
          let '(req, w) := materializeRequest parsed w in
          let reqBody := default ""%string (requestBody io) in
          let w := match requestBody io with
                   | Some _ => emit [RequestBodyClosed] w
                   | None => w
                   end in
          let w := emit [RequestForwarded (Http.Request.Method req)
                           (Http.Request.URL req) reqBody] w in
          match writeRequest io with
          | Some err =>
              emit [Logged ("Failed to write request to local: " +:+ err);
                    LocalClosed; RemoteClosed] w
          | None =>
              match readResponse io with
              | inl err =>
                  let w := emit [Logged ("Failed to read response from local: " +:+ err)] w in
                  let w := addExchange req reqBody None "" (sinceAtReadFailure io)
                             (nowAtRecord io) w in
                  emit [LocalClosed; RemoteClosed] w
              | inr parsedResp =>
                  let '(resp, w) := materializeResponse parsedResp w in
                  let respBody := default ""%string (responseBody io) in
                  let duration := sinceAtResponse io in
                  let w := addExchange req reqBody (Some resp) respBody duration
                             (nowAtRecord io) w in
                  let w := emit [ResponseForwarded (Http.Response.StatusCode resp) respBody] w in
                  match writeResponse io with
                  | Some err =>
                      emit [Logged ("Failed to write response to remote: " +:+ err);
                            ResponseBodyClosed; LocalClosed; RemoteClosed] w
                  | None =>
                      emit [ResponseBodyClosed; LocalClosed; RemoteClosed] w
                  end
              end
          end
      end
  end.

(** [for { stream, err := session.Accept(); if err != nil { return ... };
    go t.proxyStream(stream) }]: [streams] are the streams the session
    yields before [Accept] fails with [err].  Each worker is a goroutine;
    here its steps are taken together at the point where it is started. *)
Fixpoint acceptLoop (t : Tunnel) (streams : list StreamIO) (err : string) (w : World)
    : string * World :=
  match streams with
  | [] => ("session ended: " +:+ err, w)
  | io :: streams' => acceptLoop t streams' err (proxyStream t io w)
  end.

(** The connection to the ingress, as [handleSession] meets it. *)
Record SessionIO := mkSessionIO {
  yamuxClient : option string;
  sessionOpen : option string;
  encodeAuth : option string;
  encodeTunnel : option string;
  decodeResponse : string + Protocol.InitResponse;
  accepted : list StreamIO;
  acceptError : string
}.

Definition scheme (t : Tunnel) : string :=
  if GoStrings.Contains (ServerAddr t) "localhost" || GoStrings.Contains (ServerAddr t) "127.0.0.1"
  then "http" else "https".

Definition newline : string := String "010"%char "".

(** The first message on the control stream. *)
Definition authReq (t : Tunnel) : Protocol.AuthRequest :=
  {| Protocol.Token := Token t; Protocol.Force := false |}.

Definition tunnelReq (t : Tunnel) : Protocol.TunnelRequest :=
  {| Protocol.RequestedDomains :=
       if String.eqb (Subdomain t) "" then None else Some [Subdomain t] |}.

(** [handleSession(conn)]: the error it returns and the world it leaves.
    [conn.Close()] is deferred. *)
Definition handleSession (t : Tunnel) (io : SessionIO) (w : World) : string * World :=
  match yamuxClient io with
  | Some err => ("failed to start yamux: " +:+ err, emit [ConnClosed] w)
  | None =>
      match sessionOpen io with
      | Some err => ("failed to open handshake stream: " +:+ err, emit [ConnClosed] w)
      | None =>
          let w := emit [ControlEncoded (Protocol.encodeAuthRequest (authReq t))] w in
          match encodeAuth io with
          | Some err => (err, emit [ConnClosed] w)
          | None =>
              let w := emit [ControlEncoded (Protocol.encodeTunnelRequest (tunnelReq t))] w in
              match encodeTunnel io with
              | Some err => (err, emit [ConnClosed] w)
              | None =>
                  match decodeResponse io with
                  | inl err => ("handshake read failed: " +:+ err, emit [ConnClosed] w)
                  | inr resp =>
                      if negb (Protocol.Success resp) then
                        ("server error: " +:+ Protocol.Error resp, emit [ConnClosed] w)
                      else
                        let w := emit [Printed ("Tunnel Established! Incoming traffic on:" +:+ newline)] w in
                        let w :=
                          emit (map (fun d => Printed (" - " +:+ scheme t +:+ "://" +:+ d
                                                       +:+ " -> localhost:" +:+ LocalPort t +:+ newline))
                                  (Protocol.BoundDomains resp)) w in
                        let w := emit [ControlClosed] w in
                        let '(err, w) := acceptLoop t (accepted io) (acceptError io) w in
                        (err, emit [ConnClosed] w)
                  end
              end
          end
      end
  end.

End Tunnel.

(** ** internal/client/tui: the dashboard model *)

Module Tui.
Local Open Scope Z_scope.

Record TunnelInfo := mkTunnelInfo {
  Name : string;
  LocalPort : string;
  BoundDomains : list string;
  Scheme : string
}.

(** [Time] of the Go struct is [At] here. *)
Record RequestEntry := mkRequestEntry {
  Method : string;
  Path : string;
  Status : Z;
  Duration : Z;
  At : Z
}.

(** The model.  Of its dependencies only the subscription is kept, as the
    handle of the endpoint ([None] for a nil channel); the pointers to the
    statistics engine and the bus are used by rendering alone. *)
Record Model := mkModel {
  status : string;
  tunnels : list TunnelInfo;
  eventSub : option nat;
  width : Z;
  height : Z;
  startTime : Z;
  serverAddr : string;
  serverLatency : Z;
  requests : list RequestEntry;
  maxRequests : Z;
  lastError : string
}.

(** [NewModel(eventBus, statsTracker)]; [sub] is the endpoint
    [eventBus.Subscribe()] returned when a bus was given. *)
Definition NewModel (sub : option nat) (now : Z) : Model :=
  {| status := "connecting"; tunnels := []; eventSub := sub;
     width := 0; height := 0; startTime := now;
     serverAddr := ""; serverLatency := 0;
     requests := []; maxRequests := 10; lastError := "" |}.

Definition withStatus (s : string) (m : Model) : Model :=
  {| status := s; tunnels := tunnels m; eventSub := eventSub m;
     width := width m; height := height m; startTime := startTime m;
     serverAddr := serverAddr m; serverLatency := serverLatency m;
     requests := requests m; maxRequests := maxRequests m; lastError := lastError m |}.

Definition withServer (addr : string) (latency : Z) (m : Model) : Model :=
  {| status := status m; tunnels := tunnels m; eventSub := eventSub m;
     width := width m; height := height m; startTime := startTime m;
     serverAddr := addr; serverLatency := latency;
     requests := requests m; maxRequests := maxRequests m; lastError := lastError m |}.

Definition withTunnels (ts : list TunnelInfo) (m : Model) : Model :=
  {| status := status m; tunnels := ts; eventSub := eventSub m;
     width := width m; height := height m; startTime := startTime m;
     serverAddr := serverAddr m; serverLatency := serverLatency m;
     requests := requests m; maxRequests := maxRequests m; lastError := lastError m |}.

Definition withRequests (rs : list RequestEntry) (m : Model) : Model :=
  {| status := status m; tunnels := tunnels m; eventSub := eventSub m;
     width := width m; height := height m; startTime := startTime m;
     serverAddr := serverAddr m; serverLatency := serverLatency m;
     requests := rs; maxRequests := maxRequests m; lastError := lastError m |}.

Definition withLastError (e : string) (m : Model) : Model :=
  {| status := status m; tunnels := tunnels m; eventSub := eventSub m;
     width := width m; height := height m; startTime := startTime m;
     serverAddr := serverAddr m; serverLatency := serverLatency m;
     requests := requests m; maxRequests := maxRequests m; lastError := e |}.

Definition withSize (w h : Z) (m : Model) : Model :=
  {| status := status m; tunnels := tunnels m; eventSub := eventSub m;
     width := w; height := h; startTime := startTime m;
     serverAddr := serverAddr m; serverLatency := serverLatency m;
     requests := requests m; maxRequests := maxRequests m; lastError := lastError m |}.

(** [for i, t := range m.tunnels { if t.LocalPort == port { m.tunnels[i].
    BoundDomains = append(.., domains...); found = true; break } }]:
    the list with the first entry for the port extended, or [None] when
    no entry has the port. *)
Fixpoint addDomains (ts : list TunnelInfo) (port : string) (domains : list string)
    : option (list TunnelInfo) :=
  match ts with
  | [] => None
  | t :: ts' =>
      if String.eqb (LocalPort t) port then
        Some ({| Name := Name t; LocalPort := LocalPort t;
                 BoundDomains := BoundDomains t ++ domains; Scheme := Scheme t |} :: ts')
      else
        match addDomains ts' port domains with
        | Some ts'' => Some (t :: ts'')
        | None => None
        end
  end.

(** [handleEvent(event)]; [now] is the reading of [time.Now()].  A payload
    of another kind than the event type calls for fails the type assertion
    and is ignored.  ([m.requests[:m.maxRequests]] needs a bound that is
    not negative; [NewModel] sets it to 10 and nothing changes it.) *)
Definition handleEvent (m : Model) (event : Events.Event) (now : Z) : Model :=
  match Events.Type_ event with
  | Events.EventConnecting => withStatus "connecting" m
  | Events.EventConnected =>
      let m := withStatus "online" m in
      match Events.Data event with
      | Events.ConnectedData addr _ latency => withServer addr latency m
      | _ => m
      end
  | Events.EventDisconnected => withStatus "offline" m
  | Events.EventReconnecting => withStatus "reconnecting" m
  | Events.EventTunnelReady =>
      match Events.Data event with
      | Events.TunnelReadyData name port domains scheme =>
          match addDomains (tunnels m) port domains with
          | Some ts => withTunnels ts m
          | None =>
              withTunnels
                (tunnels m ++ [{| Name := name; LocalPort := port;
                                  BoundDomains := domains; Scheme := scheme |}]) m
          end
      | _ => m
      end
  | Events.EventRequestComplete =>
      match Events.Data event with
      | Events.RequestData method path status duration _ =>
          let entry := {| Method := method; Path := path; Status := status;
                          Duration := duration; At := now |} in
          let rs := entry :: requests m in
          if maxRequests m <? Z.of_nat (length rs)
          then withRequests (firstn (Z.to_nat (maxRequests m)) rs) m
          else withRequests rs m
      | _ => m
      end
  | Events.EventError =>
      match Events.Data event with
      | Events.ErrorData err context => withLastError (context +:+ ": " +:+ err) m
      | _ => m
      end
  | Events.EventRequestStart => m
  end.

Inductive Msg :=
| KeyMsg (key : string)
| WindowSizeMsg (Width Height : Z)
| tickMsg
| eventMsg (event : Events.Event)
| otherMsg.

Inductive Cmd :=
| teaQuit
| tickCmd
| waitForEvent (sub : option nat)
| nilCmd.

(** [Update(msg)] *)
Definition Update (m : Model) (msg : Msg) (now : Z) : Model * Cmd :=
  match msg with
  | KeyMsg key =>
      if String.eqb key "q" || String.eqb key "ctrl+c" then (m, teaQuit) else (m, nilCmd)
  | WindowSizeMsg w h => (withSize w h m, nilCmd)
  | tickMsg => (m, tickCmd)
  | eventMsg event =>
      let m := handleEvent m event now in (m, waitForEvent (eventSub m))
  | otherMsg => (m, nilCmd)
  end.

(** [truncatePath(path, maxLen)]; [None] when [path[:maxLen-3]] is out of
    range. *)
Definition truncatePath (path : string) (maxLen : Z) : option string :=
  if Z.of_nat (String.length path) <=? maxLen then Some path
  else if maxLen - 3 <? 0 then None
  else Some (String.substring 0 (Z.to_nat (maxLen - 3)) path +:+ "...").

End Tui.

(** ** Vocabulary of the specification *)

Module Spec.
Local Open Scope Z_scope.

(** The last [k] elements of a buffer. *)
Definition lastN (k : nat) (l : list Z) : list Z := skipn (length l - k) l.

Definition total (l : list Z) : Z := fold_right Z.add 0 l.

(** The arithmetic mean of durations, in whole nanoseconds (Go's integer
    quotient, which truncates toward zero). *)
Definition mean (l : list Z) : Z := Z.quot (total l) (Z.of_nat (length l)).

(** Strictly ascending / strictly descending sequences of identifiers. *)
Definition ascending (l : list Z) : Prop := StronglySorted Z.lt l.
Definition descending (l : list Z) : Prop := StronglySorted Z.gt l.

(** A duration a request can have taken: within 2^60 ns (36 years) either
    way; five such durations add up without leaving int64. *)
Definition plausible (d : Z) : Prop := - 2 ^ 60 <= d <= 2 ^ 60.

(** The connection counters stay between zero and the number [j] of calls
    made so far. *)
Definition counted (j : Z) (s : Stats.Stats) : Prop :=
  0 <= Stats.openConns s <= Stats.totalConns s /\ Stats.totalConns s <= j.

(** A store in good order after at most [j] calls: positive capacity, no
    more entries than the capacity, identifiers strictly falling from the
    front, all below the counter, and the counter between zero and [j]. *)
Definition wf (j : Z) (s : Inspector.InMemoryStore.t) : Prop :=
  0 < Inspector.InMemoryStore.maxSize s
  /\ Inspector.len (Inspector.InMemoryStore.exchanges s) <= Inspector.InMemoryStore.maxSize s
  /\ 0 <= Inspector.InMemoryStore.nextID s <= j
  /\ descending (map Inspector.HTTPExchange.ID (Inspector.InMemoryStore.exchanges s))
  /\ Forall (fun i => i < Inspector.InMemoryStore.nextID s)
            (map Inspector.HTTPExchange.ID (Inspector.InMemoryStore.exchanges s)).

(** The members of the JSON object with the given name. *)
Definition member (name : string) (j : Protocol.JSON) : option Protocol.JValue :=
  snd <$> List.find (fun kv => String.eqb (fst kv) name) j.

(** How a reader of the control stream decodes an [AuthRequest]: an
    absent ["force"] is false. *)
Definition decodeAuthRequest (j : Protocol.JSON) : option Protocol.AuthRequest :=
  match member "token" j with
  | Some (Protocol.JString tok) =>
      match member "force" j with
      | None => Some {| Protocol.Token := tok; Protocol.Force := false |}
      | Some (Protocol.JBool b) => Some {| Protocol.Token := tok; Protocol.Force := b |}
      | Some _ => None
      end
  | _ => None
  end.

(** The JSON values a session wrote on its control stream, in order. *)
Fixpoint controlMessages (es : list Tunnel.Effect) : list Protocol.JSON :=
  match es with
  | [] => []
  | Tunnel.ControlEncoded j :: es' => j :: controlMessages es'
  | _ :: es' => controlMessages es'
  end.

(** What can be read through a pointer to an exchange: the record and
    the request and response records it points to. *)
Definition view (h : Inspector.Heap) (p : Inspector.ptr)
    : option (Inspector.HTTPExchange.t * option Inspector.HTTPRequest.t
              * option Inspector.HTTPResponse.t) :=
  match Inspector.exchangeCells h !! p with
  | Some ex =>
      Some (ex,
            match Inspector.HTTPExchange.Request ex with
            | Some r => Inspector.requests h !! r
            | None => None
            end,
            match Inspector.HTTPExchange.Response ex with
            | Some r => Inspector.responses h !! r
            | None => None
            end)
  | None => None
  end.

(** The assignment [ex.Request.Method = m] through a pointer [ex] to an
    exchange, as a caller of [Get] can write it. *)
Definition setRequestMethod (p : Inspector.ptr) (m : string) (h : Inspector.Heap)
    : Inspector.Heap :=
  match Inspector.exchangeCells h !! p with
  | Some ex =>
      match Inspector.HTTPExchange.Request ex with
      | Some r =>
          match Inspector.requests h !! r with
          | Some rq =>
              Inspector.storeRequest r
                {| Inspector.HTTPRequest.Method := m;
                   Inspector.HTTPRequest.URL := Inspector.HTTPRequest.URL rq;
                   Inspector.HTTPRequest.Proto := Inspector.HTTPRequest.Proto rq;
                   Inspector.HTTPRequest.Headers := Inspector.HTTPRequest.Headers rq;
                   Inspector.HTTPRequest.Body := Inspector.HTTPRequest.Body rq;
                   Inspector.HTTPRequest.Size := Inspector.HTTPRequest.Size rq |} h
          | None => h
          end
      | None => h
      end
  | None => h
  end.

(** [HTTPExchange{}] *)
Definition blank : Inspector.HTTPExchange.t :=
  {| Inspector.HTTPExchange.ID := 0; Inspector.HTTPExchange.Request := None;
     Inspector.HTTPExchange.Response := None;
     Inspector.HTTPExchange.Duration := 0; Inspector.HTTPExchange.Timestamp := 0 |}.

(** [&HTTPRequest{Method: "GET", URL: "/test"}] *)
Definition getTest : Inspector.HTTPRequest.t :=
  {| Inspector.HTTPRequest.Method := "GET"; Inspector.HTTPRequest.URL := "/test";
     Inspector.HTTPRequest.Proto := ""; Inspector.HTTPRequest.Headers := None;
     Inspector.HTTPRequest.Body := ""; Inspector.HTTPRequest.Size := 0 |}.

(** Every captured exchange of the package list points to a request
    record. *)
Definition requestsPresent (g : Inspector.Package) (h : Inspector.Heap) : Prop :=
  Forall (fun ex => exists r, Inspector.HTTPExchange.Request ex = Some r
                              /\ is_Some (Inspector.requests h !! r))
         (Inspector.exchanges g).

(** An upstream that accepts every URL and answers every request. *)
Definition obligingEnv : Inspector.Env :=
  {| Inspector.parseURL := fun _ => None;
     Inspector.Do := fun _ _ =>
       inr {| Http.UpStatusCode := 200; Http.UpHeader := ∅; Http.UpBody := "ok" |} |}.

(** A stream whose request and response both parse: [GET /hello] answered
    with 200 and five bytes, 42 ms after the worker started. *)
Definition completeStream : Tunnel.StreamIO :=
  {| Tunnel.dial := None;
     Tunnel.readRequest :=
       inr {| Tunnel.ReqMethod := "GET"; Tunnel.ReqURL := "/hello";
              Tunnel.ReqProto := "HTTP/1.1"; Tunnel.ReqHeader := ∅ |};
     Tunnel.requestBody := Some ""%string;
     Tunnel.writeRequest := None;
     Tunnel.readResponse :=
       inr {| Tunnel.RespStatusCode := 200; Tunnel.RespProto := "HTTP/1.1";
              Tunnel.RespHeader := ∅ |};
     Tunnel.responseBody := Some "hello"%string;
     Tunnel.writeResponse := None;
     Tunnel.sinceAtReadFailure := 0;
     Tunnel.sinceAtResponse := 42 * Stats.Millisecond;
     Tunnel.nowAtRecord := 1000 |}.

(** A stream on which the local service cannot be reached. *)
Definition refusedStream : Tunnel.StreamIO :=
  {| Tunnel.dial := Some "connection refused"%string;
     Tunnel.readRequest := inl ""%string;
     Tunnel.requestBody := None;
     Tunnel.writeRequest := None;
     Tunnel.readResponse := inl ""%string;
     Tunnel.responseBody := None;
     Tunnel.writeResponse := None;
     Tunnel.sinceAtReadFailure := 0;
     Tunnel.sinceAtResponse := 0;
     Tunnel.nowAtRecord := 0 |}.

(** A process that has just started: nothing captured, a new statistics
    engine, a bus with one subscriber. *)
Definition startedWorld : Tunnel.World :=
  {| Tunnel.inspector := Inspector.initial;
     Tunnel.heap := Inspector.emptyHeap;
     Tunnel.stats := Stats.New 0;
     Tunnel.bus := (Events.Subscribe Events.NewBus).2;
     Tunnel.trace := [] |}.

Definition localTunnel : Tunnel.Tunnel := Tunnel.NewTunnel "localhost:4443" "secret" "3000".

(** A session that fails at its first step. *)
Definition brokenSession : Tunnel.SessionIO :=
  {| Tunnel.yamuxClient := None;
     Tunnel.sessionOpen := None;
     Tunnel.encodeAuth := None;
     Tunnel.encodeTunnel := None;
     Tunnel.decodeResponse := inl "EOF"%string;
     Tunnel.accepted := [];
     Tunnel.acceptError := "" |}.

(** Effects that are not writes on the control stream. *)
Definition quiet (es : list Tunnel.Effect) : Prop := controlMessages es = [].

(** A step of the tunnel that leaves the statistics engine and the event
    bus alone and only adds effects, none of them on the control stream. *)
Definition extends (w w' : Tunnel.World) : Prop :=
  Tunnel.stats w' = Tunnel.stats w /\ Tunnel.bus w' = Tunnel.bus w
  /\ exists es, Tunnel.trace w' = Tunnel.trace w ++ es /\ quiet es.

(** The durations a run has recorded since the engine was made or last
    reset, oldest first, starting from those in [acc]. *)
Fixpoint samplesFrom (acc : list Z) (ops : list Stats.Op) : list Z :=
  match ops with
  | [] => acc
  | Stats.OpRecord d _ :: ops' => samplesFrom (acc ++ [d]) ops'
  | Stats.OpReset _ :: ops' => samplesFrom [] ops'
  | _ :: ops' => samplesFrom acc ops'
  end.

Definition samples (ops : list Stats.Op) : list Z := samplesFrom [] ops.

(** The capacity a constructor argument stands for. *)
Definition capacity (c : Z) : Z := if c <=? 0 then 100 else c.

(** The exchanges of a list stamped with consecutive identifiers from
    [start] on. *)
Fixpoint stamped (start : Z) (exs : list Inspector.HTTPExchange.t)
    : list Inspector.HTTPExchange.t :=
  match exs with
  | [] => []
  | ex :: exs' => Inspector.HTTPExchange.withID start ex :: stamped (start + 1) exs'
  end.

(** Calls that change the inspector's package variables. *)
Inductive PackageOp :=
| PAddExchange (req : Http.Request.t) (reqBody : string)
    (resp : option Http.Response.t) (respBody : string) (duration now : Z)
| PAddRequest (method host path : string) (status now : Z)
| PSetLocalPort (port : string)
| PGetExchange (id : Z).

Definition packageStep (gh : Inspector.Package * Inspector.Heap) (o : PackageOp)
    : Inspector.Package * Inspector.Heap :=
  match o with
  | PAddExchange req reqBody resp respBody duration now =>
      let '(_, g, h) :=
        Inspector.AddExchange gh.1 gh.2 req reqBody resp respBody duration now in
      (g, h)
  | PAddRequest method host path status now =>
      Inspector.AddRequest gh.1 gh.2 method host path status now
  | PSetLocalPort port => (Inspector.SetLocalPort gh.1 port, gh.2)
  | PGetExchange id => (gh.1, (Inspector.GetExchange gh.1 id gh.2).2)
  end.

Definition packageRun (ops : list PackageOp) : Inspector.Package * Inspector.Heap :=
  fold_left packageStep ops (Inspector.initial, Inspector.emptyHeap).

(** The package list in good order after at most [j] calls. *)
Definition packageOrder (j : Z) (g : Inspector.Package) (h : Inspector.Heap) : Prop :=
  requestsPresent g h
  /\ Inspector.len (Inspector.exchanges g) <= 100
  /\ 0 <= Inspector.nextID g <= j
  /\ descending (map Inspector.HTTPExchange.ID (Inspector.exchanges g))
  /\ Forall (fun i => i < Inspector.nextID g)
            (map Inspector.HTTPExchange.ID (Inspector.exchanges g)).

Definition isRemoteClosed (e : Tunnel.Effect) : bool :=
  match e with Tunnel.RemoteClosed => true | _ => false end.

Definition isLocalClosed (e : Tunnel.Effect) : bool :=
  match e with Tunnel.LocalClosed => true | _ => false end.

Definition isLocalDialed (e : Tunnel.Effect) : bool :=
  match e with Tunnel.LocalDialed _ => true | _ => false end.

Definition isConnClosed (e : Tunnel.Effect) : bool :=
  match e with Tunnel.ConnClosed => true | _ => false end.

(** How often an effect of a kind occurs. *)
Definition occurrences (kind : Tunnel.Effect -> bool) (es : list Tunnel.Effect) : nat :=
  length (List.filter kind es).

(** The request of a stream reached the local service: the dial, the
    parse and the forwarding write all succeeded. *)
Definition forwarded (io : Tunnel.StreamIO) : bool :=
  match Tunnel.dial io, Tunnel.readRequest io, Tunnel.writeRequest io with
  | None, inr _, None => true
  | _, _, _ => false
  end.

(** The handshake of a session went through: multiplexer and control
    stream opened, both requests written, a response read that reports
    success. *)
Definition handshakeOk (io : Tunnel.SessionIO) : bool :=
  match Tunnel.yamuxClient io, Tunnel.sessionOpen io, Tunnel.encodeAuth io,
        Tunnel.encodeTunnel io, Tunnel.decodeResponse io with
  | None, None, None, None, inr resp => Protocol.Success resp
  | _, _, _, _, _ => false
  end.


(** The model after a series of messages, each with the reading of the
    clock at its arrival. *)
Definition updates (m : Tui.Model) (msgs : list (Tui.Msg * Z)) : Tui.Model :=
  fold_left (fun m mt => (Tui.Update m mt.1 mt.2).1) msgs m.

(** The event a completed request is announced with. *)
Definition requestComplete (method path : string) (status duration bytes : Z) : Events.Event :=
  {| Events.Type_ := Events.EventRequestComplete;
     Events.Data := Events.RequestData method path status duration bytes;
     Events.Timestamp := None |}.


End Spec.

(* ===================================================================== *)
(** * Part II.  Properties                                                *)
(* ===================================================================== *)

(** ** Machine integers *)

Section Int64Facts.
Local Open Scope Z_scope.

Lemma wrap_in_range z : Int64.in_range z -> Int64.wrap z = z.
Proof.
  unfold Int64.in_range, Int64.MinInt64, Int64.MaxInt64, Int64.wrap, Int64.modulus.
  intros H. rewrite Z.mod_small by lia. lia.
Qed.

Lemma add_in_range a b : Int64.in_range (a + b) -> Int64.add a b = a + b.
Proof. apply wrap_in_range. Qed.

Lemma sub_in_range a b : Int64.in_range (a - b) -> Int64.sub a b = a - b.
Proof. apply wrap_in_range. Qed.

End Int64Facts.

(** ** binary64: [int(float64(n) * 0.9)] is the floor of nine tenths of [n] *)

Section Float64Facts.
Local Open Scope Z_scope.

Local Abbreviation M9 := Float64.M9.

Lemma digits2_pos_size p : digits2_pos p = Pos.size p.
Proof. induction p; simpl; congruence. Qed.

Lemma digits2_bounds p :
  2 ^ (Zpos (digits2_pos p) - 1) <= Zpos p < 2 ^ Zpos (digits2_pos p).
Proof.
  induction p as [p IH|p IH|]; simpl digits2_pos.
  - rewrite Pos2Z.inj_succ.
    replace (Z.succ (Zpos (digits2_pos p)) - 1) with (Z.succ (Zpos (digits2_pos p) - 1)) by lia.
    rewrite !Z.pow_succ_r by lia. lia.
  - rewrite Pos2Z.inj_succ.
    replace (Z.succ (Zpos (digits2_pos p)) - 1) with (Z.succ (Zpos (digits2_pos p) - 1)) by lia.
    rewrite !Z.pow_succ_r by lia. lia.
  - simpl. lia.
Qed.

Lemma digits2_unique p d :
  2 ^ (d - 1) <= Zpos p < 2 ^ d -> Zpos (digits2_pos p) = d.
Proof.
  intros [Hlo Hhi]. pose proof (digits2_bounds p) as [Blo Bhi].
  assert (Hd : 0 < d).
  { destruct (Z_lt_le_dec 0 d) as [|Hle]; [assumption|].
    exfalso. destruct (Z.eq_dec d 0) as [->|]; [simpl in Hhi; lia|].
    rewrite Z.pow_neg_r in Hhi by lia. lia. }
  destruct (Z_lt_le_dec (Zpos (digits2_pos p)) d) as [Hlt|Hge].
  - assert (2 ^ Zpos (digits2_pos p) <= 2 ^ (d - 1)) by (apply Z.pow_le_mono_r; lia). lia.
  - destruct (Z.eq_dec (Zpos (digits2_pos p)) d) as [|Hne]; [assumption|].
    assert (2 ^ d <= 2 ^ (Zpos (digits2_pos p) - 1)) by (apply Z.pow_le_mono_r; lia). lia.
Qed.

Lemma iter_xO_pow2 p k : Zpos (Pos.iter xO p k) = Zpos p * 2 ^ Zpos k.
Proof.
  induction k as [|k IH] using Pos.peano_ind.
  - simpl Pos.iter. rewrite Pos2Z.inj_xO. change (2 ^ 1) with 2. lia.
  - rewrite Pos.iter_succ, Pos2Z.inj_xO, IH, Pos2Z.inj_succ, Z.pow_succ_r by lia. ring.
Qed.

Lemma iter_pos_nat {A} (f : A -> A) p x :
  SpecFloat.iter_pos f p x = Nat.iter (Pos.to_nat p) f x.
Proof.
  revert x. induction p as [p IH|p IH|]; intros x; simpl SpecFloat.iter_pos.
  - rewrite !IH, Pos2Nat.inj_xI, <- Nat.iter_succ_r, <- Nat.iter_add.
    f_equal. lia.
  - rewrite !IH, Pos2Nat.inj_xO, <- Nat.iter_add. f_equal. lia.
  - reflexivity.
Qed.

Lemma shr_1_nonneg m r s :
  0 <= m ->
  shr_1 (Build_shr_record m r s) = Build_shr_record (m / 2) (Z.odd m) (r || s).
Proof.
  intros Hm. destruct m as [|[p|p|]|p]; try lia; simpl shr_1; f_equal.
  - rewrite Pos2Z.inj_xI. apply Z.div_unique with 1; lia.
  - rewrite Pos2Z.inj_xO. apply Z.div_unique with 0; lia.
Qed.

Lemma shr_iter k m :
  0 <= m ->
  Nat.iter (S k) shr_1 (Build_shr_record m false false) =
  Build_shr_record (m / 2 ^ Z.of_nat (S k)) (Z.odd (m / 2 ^ Z.of_nat k))
    (negb (m mod 2 ^ Z.of_nat k =? 0)).
Proof.
  intros Hm. induction k as [|k IH].
  - change (Nat.iter 1 shr_1 ?x) with (shr_1 x). rewrite shr_1_nonneg by assumption.
    change (2 ^ Z.of_nat 1) with 2. change (2 ^ Z.of_nat 0) with 1.
    rewrite Z.div_1_r, Z.mod_1_r. reflexivity.
  - change (Nat.iter (S (S k)) shr_1 ?x) with (shr_1 (Nat.iter (S k) shr_1 x)).
    rewrite IH. rewrite shr_1_nonneg by (apply Z.div_pos; lia).
    assert (Hp : 0 < 2 ^ Z.of_nat k) by (apply Z.pow_pos_nonneg; lia).
    assert (E1 : 2 ^ Z.of_nat (S k) = 2 ^ Z.of_nat k * 2).
    { rewrite Nat2Z.inj_succ, Z.pow_succ_r by lia. lia. }
    assert (E2 : 2 ^ Z.of_nat (S (S k)) = 2 ^ Z.of_nat (S k) * 2).
    { rewrite (Nat2Z.inj_succ (S k)), Z.pow_succ_r by lia. lia. }
    f_equal.
    + rewrite E2, Z.div_div by lia. reflexivity.
    + rewrite E1.
      rewrite Z.rem_mul_r by lia.
      pose proof (Z.mod_pos_bound m (2 ^ Z.of_nat k) Hp) as B.
      pose proof (Z.mod_pos_bound (m / 2 ^ Z.of_nat k) 2 ltac:(lia)) as B2.
      rewrite (Zodd_mod (m / 2 ^ Z.of_nat k)).
      destruct (Z.eqb_spec (m mod 2 ^ Z.of_nat k) 0) as [e|e];
      destruct (Z.eqb_spec ((m / 2 ^ Z.of_nat k) mod 2) 1) as [e'|e'];
      destruct (Z.eqb_spec (m mod 2 ^ Z.of_nat k + 2 ^ Z.of_nat k * ((m / 2 ^ Z.of_nat k) mod 2)) 0) as [e''|e''];
      simpl; try reflexivity; try nia.
Qed.

Lemma fexp64 e : fexp Float64.prec Float64.emax e = Z.max (e - 53) (-1074).
Proof. reflexivity. Qed.

Lemma shr_zero mrs e : shr mrs e 0 = (mrs, e).
Proof. reflexivity. Qed.

(* a 53-digit mantissa with an exponent in range is already rounded *)
Lemma round_aux_exact a e :
  Zpos (digits2_pos a) = 53 -> -1074 <= e <= 971 ->
  binary_round_aux Float64.prec Float64.emax false (Zpos a) e loc_Exact =
  S754_finite false a e.
Proof.
  intros Hd He. unfold binary_round_aux, shr_fexp.
  cbn [Zdigits2]. rewrite Hd, fexp64.
  replace (Z.max (53 + e - 53) (-1074) - e) with 0 by lia.
  rewrite shr_zero. cbn [shr_record_of_loc shr_m loc_of_shr_record round_nearest_even].
  cbn [Zdigits2]. rewrite Hd, fexp64.
  replace (Z.max (53 + e - 53) (-1074) - e) with 0 by lia.
  rewrite shr_zero. cbn [shr_record_of_loc shr_m].
  replace (e <=? Float64.emax - Float64.prec) with true; [reflexivity|].
  symmetry. apply Z.leb_le. unfold Float64.emax, Float64.prec. lia.
Qed.

Lemma of_int_pos p :
  Zpos (digits2_pos p) <= 53 ->
  exists a, Float64.of_int (Zpos p) = S754_finite false a (Zpos (digits2_pos p) - 53)
            /\ Zpos a = Zpos p * 2 ^ (53 - Zpos (digits2_pos p))
            /\ Zpos (digits2_pos a) = 53.
Proof.
  intros Hd. pose proof (digits2_bounds p) as B.
  set (d := Zpos (digits2_pos p)) in *.
  unfold Float64.of_int, binary_normalize, binary_round.
  rewrite fexp64. fold d.
  replace (Z.max (d + 0 - 53) (-1074)) with (d - 53) by lia.
  unfold shl_align.
  assert (Hd0 : 0 < d) by (unfold d; lia).
  destruct (d - 53 - 0) as [|q|q] eqn:Eq; try lia.
  - assert (d = 53) by lia.
    exists p. rewrite round_aux_exact by (fold d; lia).
    replace (d - 53) with 0 by lia.
    repeat split; try (fold d; lia).
    replace (53 - d) with 0 by lia. lia.
  - exists (Pos.iter xO p q).
    assert (Hq : Zpos q = 53 - d) by lia.
    assert (Ha : Zpos (Pos.iter xO p q) = Zpos p * 2 ^ (53 - d)).
    { rewrite iter_xO_pow2, Hq. reflexivity. }
    assert (Hda : Zpos (digits2_pos (Pos.iter xO p q)) = 53).
    { apply digits2_unique. rewrite Ha.
      assert (2 ^ 53 = 2 ^ d * 2 ^ (53 - d)).
      { rewrite <- Z.pow_add_r by lia. f_equal. lia. }
      assert (2 ^ (53 - 1) = 2 ^ (d - 1) * 2 ^ (53 - d)).
      { rewrite <- Z.pow_add_r by lia. f_equal. lia. }
      assert (0 < 2 ^ (53 - d)) by (apply Z.pow_pos_nonneg; lia).
      nia. }
    rewrite round_aux_exact by (try assumption; lia).
    repeat split; assumption.
Qed.

Lemma round_nearest_even_cases m r s :
  round_nearest_even m (loc_of_shr_record (Build_shr_record m r s)) = m \/
  (r = true /\ round_nearest_even m (loc_of_shr_record (Build_shr_record m r s)) = m + 1).
Proof.
  destruct r, s; cbn [loc_of_shr_record round_nearest_even]; auto.
  destruct (Z.even m); auto.
Qed.

(* the rounding of a mantissa of more than 53 digits *)
Lemma round_aux_long P e :
  let k := Zpos (digits2_pos P) - 53 in
  0 < k -> -1074 <= e + k -> e + k + 1 <= 971 ->
  exists m2 m3 e3,
    binary_round_aux Float64.prec Float64.emax false (Zpos P) e loc_Exact =
      S754_finite false m3 e3
    /\ (m2 = Zpos P / 2 ^ k \/ (m2 = Zpos P / 2 ^ k + 1 /\ 2 ^ k <= 2 * (Zpos P mod 2 ^ k)))
    /\ ((Zpos m3 = m2 /\ e3 = e + k) \/ (2 * Zpos m3 = m2 /\ e3 = e + k + 1))
    /\ Zpos m3 < 2 ^ 53.
Proof.
  intros k Hk Hlo Hhi. pose proof (digits2_bounds P) as B.
  set (dP := Zpos (digits2_pos P)) in *.
  assert (EdP : dP = k + 53) by (unfold k; lia).
  unfold binary_round_aux, shr_fexp at 1.
  cbn [Zdigits2]. fold dP. rewrite fexp64.
  replace (Z.max (dP + e - 53) (-1074) - e) with k by lia.
  destruct k as [|kp|kp] eqn:Ek; try lia.
  cbn [shr shr_record_of_loc]. rewrite iter_pos_nat.
  destruct (Pos2Nat.is_succ kp) as [k' Hk'].
  rewrite Hk', shr_iter by lia.
  assert (Ek' : Z.of_nat (S k') = Zpos kp) by (rewrite <- Hk'; apply positive_nat_Z).
  rewrite Ek'.
  assert (Ek'' : Z.of_nat k' = Zpos kp - 1) by lia.
  rewrite Ek''.
  set (m1 := Zpos P / 2 ^ Zpos kp).
  set (r := Z.odd (Zpos P / 2 ^ (Zpos kp - 1))).
  set (s := negb (Zpos P mod 2 ^ (Zpos kp - 1) =? 0)).
  cbn [shr_m].
  assert (HK : 0 < 2 ^ Zpos kp) by (apply Z.pow_pos_nonneg; lia).
  assert (Hm1 : 2 ^ 52 <= m1 < 2 ^ 53).
  { unfold m1. split.
    - apply Z.div_le_lower_bound; [lia|].
      replace (dP - 1) with (Zpos kp + 52) in B by lia.
      rewrite Z.pow_add_r in B by lia. lia.
    - apply Z.div_lt_upper_bound; [lia|].
      rewrite EdP in B. rewrite Z.pow_add_r in B by lia. lia. }
  assert (Hr : r = true -> 2 ^ Zpos kp <= 2 * (Zpos P mod 2 ^ Zpos kp)).
  { unfold r. intros Hodd.
    assert (HK1 : 0 < 2 ^ (Zpos kp - 1)) by (apply Z.pow_pos_nonneg; lia).
    assert (EK : 2 ^ Zpos kp = 2 ^ (Zpos kp - 1) * 2).
    { replace (Zpos kp) with (Z.succ (Zpos kp - 1)) at 1 by lia.
      rewrite Z.pow_succ_r by lia. lia. }
    rewrite EK, Z.rem_mul_r by lia.
    rewrite Zodd_mod in Hodd. apply Z.eqb_eq in Hodd. rewrite Hodd.
    pose proof (Z.mod_pos_bound (Zpos P) (2 ^ (Zpos kp - 1)) HK1). lia. }
  set (m2 := round_nearest_even m1 (loc_of_shr_record (Build_shr_record m1 r s))).
  assert (Hm2 : m2 = m1 \/ (r = true /\ m2 = m1 + 1)) by apply round_nearest_even_cases.
  assert (Hm2b : 2 ^ 52 <= m2 <= 2 ^ 53) by lia.
  destruct (Z.eq_dec m2 (2 ^ 53)) as [Etop|Ntop].
  - (* the carry: one more shift *)
    rewrite Etop. unfold shr_fexp.
    change (Zdigits2 (2 ^ 53)) with 54. rewrite fexp64.
    replace (Z.max (54 + (e + Zpos kp) - 53) (-1074) - (e + Zpos kp)) with 1 by lia.
    change (2 ^ 53) with (Zpos (2 ^ 53)%positive).
    cbn [shr shr_record_of_loc SpecFloat.iter_pos shr_1 shr_m].
    cbn.
    replace (e + Zpos kp + 1 <=? Float64.emax - Float64.prec) with true
      by (symmetry; apply Z.leb_le; unfold Float64.emax, Float64.prec; lia).
    eexists m2, _, _. split; [reflexivity|].
    split; [destruct Hm2 as [->|[Hrt ->]]; [left; reflexivity|right; split; [reflexivity|auto]]|].
    split; [right; split; [rewrite Etop; reflexivity|reflexivity]|]. reflexivity.
  - destruct m2 as [|pm2|pm2] eqn:Em2; try lia.
    assert (Hd2 : Zpos (digits2_pos pm2) = 53) by (apply digits2_unique; lia).
    unfold shr_fexp. cbn [Zdigits2]. rewrite Hd2, fexp64.
    replace (Z.max (53 + (e + Zpos kp) - 53) (-1074) - (e + Zpos kp)) with 0 by lia.
    rewrite shr_zero. cbn [shr_record_of_loc shr_m].
    replace (e + Zpos kp <=? Float64.emax - Float64.prec) with true
      by (symmetry; apply Z.leb_le; unfold Float64.emax, Float64.prec; lia).
    exists (Zpos pm2), pm2, (e + Zpos kp). split; [reflexivity|].
    split; [destruct Hm2 as [->|[Hrt ->]]; [left; reflexivity|right; split; [reflexivity|auto]]|].
    split; [left; split; reflexivity|lia].
Qed.

Lemma to_int_finite m e :
  e < 0 -> Zpos m < 2 ^ 53 ->
  Float64.to_int (S754_finite false m e) = Zpos m / 2 ^ (- e).
Proof.
  intros He Hm. unfold Float64.to_int.
  destruct e as [|q|q]; try lia.
  rewrite Z.shiftr_div_pow2 by lia.
  change (- Z.neg q) with (Zpos q).
  assert (0 < 2 ^ Zpos q) by (apply Z.pow_pos_nonneg; lia).
  assert (Zpos m / 2 ^ Zpos q <= Zpos m) by (apply Z.div_le_upper_bound; nia).
  replace (Zpos m / 2 ^ Zpos q <=? Int64.MaxInt64) with true; [reflexivity|].
  symmetry. apply Z.leb_le. unfold Int64.MaxInt64. lia.
Qed.

Lemma M9_tenths : 10 * M9 = 9 * 2 ^ 53 + 2.
Proof. reflexivity. Qed.

Lemma mul_nine_tenths n :
  1 <= n < 2 ^ 50 ->
  Float64.to_int (Float64.mul (Float64.of_int n) Float64.nine_tenths) = 9 * n / 10.
Proof.
  intros Hn. destruct n as [|p|p]; try lia.
  pose proof (digits2_bounds p) as Bp.
  set (d := Zpos (digits2_pos p)) in *.
  assert (Hd : 1 <= d <= 50).
  { split; [unfold d; lia|].
    destruct (Z_lt_le_dec 50 d) as [Hgt|]; [|lia].
    assert (2 ^ 50 <= 2 ^ (d - 1)) by (apply Z.pow_le_mono_r; lia). lia. }
  destruct (of_int_pos p) as (a & Ea & Ha & Hda); [fold d; lia|].
  fold d in Ea, Ha. rewrite Ea.
  unfold Float64.mul, Float64.nine_tenths, SFmul. cbn [xorb].
  set (A := 2 ^ (53 - d)) in *.
  assert (HA : 0 < A) by (apply Z.pow_pos_nonneg; lia).
  set (D := 2 ^ d) in *.
  assert (HAD : A * D = 2 ^ 53).
  { unfold A, D. rewrite <- Z.pow_add_r by lia. f_equal. lia. }
  assert (HD : D <= 2 ^ 50) by (apply Z.pow_le_mono_r; lia).
  pose proof (digits2_bounds a) as Ba. rewrite Hda in Ba.
  (* the exact product *)
  set (P := (a * 8106479329266893)%positive).
  assert (EP : Zpos P = Zpos p * A * M9) by (unfold P, M9; rewrite Pos2Z.inj_mul, Ha; ring).
  pose proof (digits2_bounds P) as BP.
  set (dP := Zpos (digits2_pos P)) in *.
  assert (HdP : 105 <= dP <= 106).
  { assert (Plo : 2 ^ 104 <= Zpos P) by (unfold P; rewrite Pos2Z.inj_mul; nia).
    assert (Phi : Zpos P < 2 ^ 106) by (unfold P; rewrite Pos2Z.inj_mul; nia).
    split.
    - destruct (Z_lt_le_dec dP 105); [|lia].
      assert (2 ^ dP <= 2 ^ 104) by (apply Z.pow_le_mono_r; lia). lia.
    - destruct (Z_lt_le_dec 106 dP); [|lia].
      assert (2 ^ 106 <= 2 ^ (dP - 1)) by (apply Z.pow_le_mono_r; lia). lia. }
  destruct (round_aux_long P (d - 53 + -53)) as (m2 & m3 & e3 & Er & Hm2 & Hm3 & Hm3b);
    try (fold dP; lia).
  fold dP in Hm2, Hm3. rewrite Er.
  set (k := dP - 53) in *.
  set (K := 2 ^ k) in *.
  assert (HK : 0 < K) by (apply Z.pow_pos_nonneg; lia).
  set (t := 106 - d - k).
  assert (Ht : 0 < t) by (unfold t, k; lia).
  set (T := 2 ^ t).
  assert (HT : 0 < T) by (apply Z.pow_pos_nonneg; lia).
  assert (HKT : K * T = 2 ^ 53 * A).
  { unfold K, T, A. rewrite <- !Z.pow_add_r by lia. f_equal. unfold t. lia. }
  assert (HKAD : K <= A * D).
  { rewrite HAD. apply Z.pow_le_mono_r; lia. }
  (* the integer the conversion yields is m2 / T *)
  assert (Eint : Float64.to_int (S754_finite false m3 e3) = m2 / T).
  { rewrite to_int_finite by (try assumption; lia).
    destruct Hm3 as [[E1 E2]|[E1 E2]].
    - rewrite E1. f_equal. unfold T. f_equal. unfold t. lia.
    - rewrite <- E1.
      replace T with (2 * 2 ^ (- e3)).
      + rewrite Z.div_mul_cancel_l; [reflexivity| |lia].
        apply Z.pow_nonzero; lia.
      + unfold T. replace t with (Z.succ (- e3)) by (unfold t; lia).
        rewrite Z.pow_succ_r by lia. reflexivity. }
  rewrite Eint.
  (* bounds on the quotient *)
  set (n := Zpos p) in *.
  set (q := 9 * n / 10).
  assert (Hq : 10 * q <= 9 * n <= 10 * q + 9).
  { pose proof (Z.div_mod (9 * n) 10 ltac:(lia)).
    pose proof (Z.mod_pos_bound (9 * n) 10 ltac:(lia)). unfold q. lia. }
  pose proof M9_tenths as HM9.
  assert (Hlow : q * 2 ^ 53 <= n * M9) by lia.
  assert (Hupp : n * M9 < (q + 1) * 2 ^ 53) by lia.
  assert (Hmod : 0 <= Zpos P mod K < K) by (apply Z.mod_pos_bound; lia).
  pose proof (Z.div_mod (Zpos P) K ltac:(lia)) as HPdiv.
  set (m1 := Zpos P / K) in *.
  symmetry. apply Z.div_unique with (m2 - q * T).
  2: lia.
  left. split.
  - (* q * T <= m2 *)
    assert (q * T <= m1).
    { unfold m1. apply Z.div_le_lower_bound; [lia|].
      replace (K * (q * T)) with (q * (K * T)) by ring.
      rewrite HKT, EP. nia. }
    lia.
  - (* m2 < (q + 1) * T *)
    assert (Hm1 : m1 < (q + 1) * T).
    { unfold m1. apply Z.div_lt_upper_bound; [lia|].
      replace (K * ((q + 1) * T)) with ((q + 1) * (K * T)) by ring.
      rewrite HKT, EP. nia. }
    destruct Hm2 as [->|[-> Hhalf]]; [lia|].
    destruct (Z_lt_le_dec (m1 + 1) ((q + 1) * T)) as [|Hge]; [lia|exfalso].
    (* 2 P + K >= 2 (q+1) K T *)
    assert (H1 : 2 * (q + 1) * (K * T) <= 2 * Zpos P + K) by nia.
    rewrite HKT, EP in H1.
    assert (H2 : 2 * (q + 1) * 2 ^ 53 * A <= (2 * n * M9 + D) * A) by nia.
    assert (H3 : 2 * (q + 1) * 2 ^ 53 <= 2 * n * M9 + D) by nia.
    lia.
Qed.

End Float64Facts.

(** ** Statistics engine *)

Section StatsFacts.
Import Stats.
Local Open Scope Z_scope.

Lemma New_is_default now : New now = NewWithOptions 0 now.
Proof. reflexivity. Qed.

(** Both constructors make the capacity positive and no operation changes
    it, so the full branch of [RecordRequest] always has a sample to drop. *)
Lemma maxSamples_step s o : maxSamples (step s o) = maxSamples s.
Proof.
  destruct o; cbn [step]; try reflexivity.
  unfold DecrementOpenConnections. destruct (0 <? openConns s); reflexivity.
Qed.

Lemma maxSamples_run ops : forall s, maxSamples (run s ops) = maxSamples s.
Proof.
  induction ops as [|o ops IH]; intros s; cbn [run]; [reflexivity|].
  rewrite IH. apply maxSamples_step.
Qed.

Lemma maxSamples_positive c now ops : 0 < maxSamples (run (NewWithOptions c now) ops).
Proof.
  rewrite maxSamples_run. cbn. destruct (Z.leb_spec c 0); lia.
Qed.

Lemma counted_step j s o :
  Spec.counted j s -> j + 1 <= Int64.MaxInt64 -> Spec.counted (j + 1) (step s o).
Proof.
  unfold Spec.counted, Int64.MaxInt64. intros [Ho Ht] Hj.
  destruct o; cbn [step].
  - unfold IncrementConnections; cbn.
    rewrite !add_in_range by (unfold Int64.in_range, Int64.MinInt64, Int64.MaxInt64; lia). lia.
  - unfold DecrementOpenConnections.
    destruct (Z.ltb_spec 0 (openConns s)); cbn; [|lia].
    rewrite sub_in_range by (unfold Int64.in_range, Int64.MinInt64, Int64.MaxInt64; lia). lia.
  - cbn. lia.
  - cbn. lia.
  - cbn. lia.
  - lia.
Qed.

Lemma counted_snapshot j s now :
  Spec.counted j s ->
  0 <= OpenConnections (Snapshot s now) <= TotalConnections (Snapshot s now).
Proof.
  unfold Spec.counted, Snapshot. intros [Ho _].
  destruct (len (requestTimes s) =? 0); cbn; lia.
Qed.

Lemma counted_run ops : forall j s,
  Spec.counted j s -> j + len ops <= Int64.MaxInt64 ->
  Spec.counted (j + len ops) (run s ops)
  /\ Forall (fun snap => 0 <= OpenConnections snap <= TotalConnections snap)
            (observations s ops).
Proof.
  unfold len.
  induction ops as [|o ops IH]; intros j s Hc Hj.
  - cbn. rewrite Z.add_0_r. split; [assumption|constructor].
  - cbn [length] in *. rewrite Nat2Z.inj_succ in *.
    assert (Hs : Spec.counted (j + 1) (step s o)) by (apply counted_step; [assumption|lia]).
    destruct (IH (j + 1) (step s o) Hs ltac:(lia)) as [Hr Ho].
    replace (j + Z.succ (Z.of_nat (length ops))) with (j + 1 + Z.of_nat (length ops)) by lia.
    split; [exact Hr|].
    destruct o; cbn [run observations]; try exact Ho.
    constructor; [eapply counted_snapshot; eassumption|exact Ho].
Qed.

End StatsFacts.

Section SnapshotFacts.
Import Stats.
Local Open Scope Z_scope.

Lemma insertSorted_perm d l : Permutation (insertSorted d l) (d :: l).
Proof.
  induction l as [|x l IH]; cbn [insertSorted]; [reflexivity|].
  destruct (d <=? x); [reflexivity|].
  rewrite IH. apply perm_swap.
Qed.

Lemma sortSlice_perm l : Permutation (sortSlice l) l.
Proof.
  induction l as [|x l IH]; cbn [sortSlice]; [reflexivity|].
  rewrite insertSorted_perm. constructor. exact IH.
Qed.

Lemma insertSorted_sorted d l : Sorted Z.le l -> Sorted Z.le (insertSorted d l).
Proof.
  induction l as [|x l IH]; intros Hs; cbn [insertSorted].
  - repeat constructor.
  - destruct (Z.leb_spec d x) as [Hle|Hgt].
    + constructor; [assumption|]. constructor. assumption.
    + inversion Hs as [|? ? Hs' Hhd]; subst.
      constructor; [apply IH; assumption|].
      destruct l as [|y l]; cbn [insertSorted].
      * constructor. lia.
      * inversion Hhd; subst. destruct (d <=? y); constructor; lia.
Qed.

Lemma sortSlice_sorted l : Sorted Z.le (sortSlice l).
Proof.
  induction l as [|x l IH]; cbn [sortSlice]; [constructor|].
  apply insertSorted_sorted. exact IH.
Qed.

Lemma skipn_nth_cons (l : list Z) i :
  (i < length l)%nat -> skipn i l = nth i l 0 :: skipn (S i) l.
Proof.
  revert i. induction l as [|x l IH]; intros i Hi; cbn [length] in Hi; [lia|].
  destruct i as [|i]; [reflexivity|].
  cbn [skipn nth]. apply IH. lia.
Qed.

Lemma plausible_nth (l : list Z) i :
  Forall Spec.plausible l -> Spec.plausible (nth i l 0).
Proof.
  intros Hall. destruct (Nat.lt_ge_cases i (length l)) as [Hi|Hi].
  - eapply Forall_forall in Hall; [exact Hall|]. apply list_elem_of_In, nth_In, Hi.
  - rewrite nth_overflow by assumption. unfold Spec.plausible. lia.
Qed.

(** The loop adds up the [k] samples from index [i] on, and no partial
    sum leaves int64. *)
Lemma sumLoop_total ts : Forall Spec.plausible ts ->
  forall k i acc,
  (i + k <= length ts)%nat -> (k <= 5)%nat ->
  - ((5 - Z.of_nat k) * 2 ^ 60) <= acc <= (5 - Z.of_nat k) * 2 ^ 60 ->
  sumLoop ts i k acc = acc + Spec.total (firstn k (skipn i ts))
  /\ - (5 * 2 ^ 60) <= sumLoop ts i k acc <= 5 * 2 ^ 60.
Proof.
  intros Hall. induction k as [|k IH]; intros i acc Hik Hk Hacc.
  - change (Z.of_nat 0) with 0 in Hacc. rewrite firstn_O. cbn [sumLoop Spec.total fold_right]. split; lia.
  - cbn [sumLoop].
    pose proof (plausible_nth ts i Hall) as Hx. unfold Spec.plausible in Hx.
    rewrite Nat2Z.inj_succ in Hacc.
    rewrite add_in_range
      by (unfold Int64.in_range, Int64.MinInt64, Int64.MaxInt64; lia).
    destruct (IH (S i) (acc + nth i ts 0)) as [E B]; try lia.
    split; [|exact B].
    rewrite E, (skipn_nth_cons ts i) by lia.
    cbn [firstn Spec.total fold_right]. fold (Spec.total (firstn k (skipn (S i) ts))). lia.
Qed.

Lemma nth_last_Z (l : list Z) : nth (length l - 1) l 0 = List.last l 0.
Proof.
  induction l as [|x l IH]; [reflexivity|].
  destruct l as [|y l]; [reflexivity|].
  replace (length (x :: y :: l) - 1)%nat with (S (length (y :: l) - 1))
    by (cbn [length]; lia).
  change (nth (S ?k) (x :: ?t) 0) with (nth k t 0). rewrite IH. reflexivity.
Qed.

Lemma p90Index_floor n : 1 <= n < 2 ^ 50 -> p90Index n = 9 * n / 10.
Proof.
  intros Hn. unfold p90Index. rewrite mul_nine_tenths by assumption.
  assert (9 * n / 10 < n) by (apply Z.div_lt_upper_bound; lia).
  destruct (Z.leb_spec n (9 * n / 10)); [lia|reflexivity].
Qed.

Lemma RecordRequest_last s d b :
  List.last (requestTimes (RecordRequest s d b)) 0 = d.
Proof. cbn. apply last_last. Qed.

End SnapshotFacts.

Section StatsClaims.
Import Stats.
Local Open Scope Z_scope.

(** C2.  For a statistics state whose ring holds [n] samples (fewer than
    2^50 of them, each a plausible duration), the snapshot has: RT1 the
    last sample of the ring, which is the duration recorded most recently;
    RT5 the mean of the last min(n,5) samples; P50 and P90 the samples at
    indices n/2 and min(9n/10, n-1) of the ascending rearrangement of the
    ring; all four zero when the ring is empty.  Recording 10, 20, ..,
    100 ms into an engine of capacity 100 gives RT1 = 100 ms, RT5 = 80 ms,
    P50 = 60 ms and P90 = 100 ms. *)
Theorem C2_snapshot_timings (s : Stats) (now : Z) :
  let ts := requestTimes s in
  let n := len ts in
  let snap := Snapshot s now in
  n < 2 ^ 50 -> Forall Spec.plausible ts ->
  (n = 0 -> RT1 snap = 0 /\ RT5 snap = 0 /\ P50 snap = 0 /\ P90 snap = 0)
  /\ (0 < n ->
      RT1 snap = List.last ts 0
      /\ RT5 snap = Spec.mean (Spec.lastN (Nat.min (length ts) 5) ts)
      /\ exists sorted,
           Permutation sorted ts /\ Sorted Z.le sorted
           /\ P50 snap = nth (Z.to_nat (n / 2)) sorted 0
           /\ P90 snap = nth (Z.to_nat (Z.min (9 * n / 10) (n - 1))) sorted 0)
  /\ (forall d b, RT1 (Snapshot (RecordRequest s d b) now) = d)
  /\ (let snap10 :=
        Snapshot (recordAll (NewWithOptions 100 now)
                    (map (fun i => i * 10 * Millisecond) [1; 2; 3; 4; 5; 6; 7; 8; 9; 10]))
                 now in
      RT1 snap10 = 100 * Millisecond /\ RT5 snap10 = 80 * Millisecond
      /\ P50 snap10 = 60 * Millisecond /\ P90 snap10 = 100 * Millisecond).
Proof.
  intros ts n snap Hn Hall.
  assert (RT1_last : forall s', 0 < len (requestTimes s') ->
            RT1 (Snapshot s' now) = List.last (requestTimes s') 0).
  { intros s' Hpos. unfold Snapshot.
    destruct (Z.eqb_spec (len (requestTimes s')) 0) as [E|_]; [lia|].
    cbn [RT1]. unfold len. rewrite <- nth_last_Z. f_equal. lia. }
  split; [|split; [|split]].
  - intros E. unfold snap, Snapshot. fold ts. fold n. rewrite E. cbn. auto.
  - intros Hpos. split; [apply RT1_last; exact Hpos|].
    unfold snap, Snapshot. fold ts. fold n.
    destruct (Z.eqb_spec n 0) as [E|_]; [lia|].
    cbn [RT5 P50 P90].
    set (count := if n <? 5 then n else 5).
    assert (Hcount : Z.to_nat count = Nat.min (length ts) 5).
    { unfold count, n, len. destruct (Z.ltb_spec (Z.of_nat (length ts)) 5); lia. }
    assert (Hstart : Z.to_nat (n - count) = (length ts - Nat.min (length ts) 5)%nat).
    { unfold count, n, len. destruct (Z.ltb_spec (Z.of_nat (length ts)) 5); lia. }
    split.
    + rewrite Hcount, Hstart.
      destruct (sumLoop_total ts Hall (Nat.min (length ts) 5)
                  (length ts - Nat.min (length ts) 5) 0) as [E B]; try lia.
      rewrite firstn_all2 in E by (rewrite length_skipn; lia).
      unfold Spec.mean, Spec.lastN. rewrite length_skipn.
      replace (Z.of_nat (length ts - (length ts - Nat.min (length ts) 5))) with count by lia.
      rewrite E in B. rewrite E, Z.add_0_l. rewrite Z.add_0_l in B.
      unfold Int64.div. apply wrap_in_range.
      set (S5 := Spec.total (skipn (length ts - Nat.min (length ts) 5) ts)) in *.
      assert (Hc : 1 <= count <= 5)
        by (unfold count, n, len in *; destruct (Z.ltb_spec (Z.of_nat (length ts)) 5); lia).
      assert (Hq : Z.abs (Z.quot S5 count) <= Z.abs S5).
      { rewrite <- Z.quot_abs by lia.
        rewrite (Z.quot_div_nonneg (Z.abs S5) (Z.abs count)) by lia.
        apply Z.div_le_upper_bound; [lia|]. nia. }
      unfold Int64.in_range, Int64.MinInt64, Int64.MaxInt64. lia.
    + exists (sortSlice ts).
      split; [apply sortSlice_perm|]. split; [apply sortSlice_sorted|].
      split.
      * rewrite Z.quot_div_nonneg by lia. reflexivity.
      * rewrite p90Index_floor by lia.
        assert (9 * n / 10 < n) by (apply Z.div_lt_upper_bound; lia).
        rewrite Z.min_l by lia. reflexivity.
  - intros d b. rewrite RT1_last; [apply RecordRequest_last|].
    cbn [RecordRequest requestTimes]. unfold len. rewrite length_app. cbn [length]. lia.
  - vm_compute. repeat split; reflexivity.
Qed.

(** The hypotheses of C2 hold for the ring after the ten recordings of
    the example, and its conclusion there. *)
Lemma C2_snapshot_timings_witness :
  let s := recordAll (NewWithOptions 100 0)
             (map (fun i => i * 10 * Millisecond) [1; 2; 3; 4; 5; 6; 7; 8; 9; 10]) in
  len (requestTimes s) < 2 ^ 50 /\ Forall Spec.plausible (requestTimes s)
  /\ RT5 (Snapshot s 0) = Spec.mean (Spec.lastN (Nat.min (length (requestTimes s)) 5) (requestTimes s)).
Proof.
  intros s.
  assert (H1 : len (requestTimes s) < 2 ^ 50) by reflexivity.
  assert (H2 : Forall Spec.plausible (requestTimes s)).
  { replace (requestTimes s)
      with [10000000; 20000000; 30000000; 40000000; 50000000;
            60000000; 70000000; 80000000; 90000000; 100000000]
      by (vm_compute; reflexivity).
    repeat (apply List.Forall_cons; [unfold Spec.plausible; lia|]). apply List.Forall_nil. }
  split; [exact H1|]. split; [exact H2|].
  destruct (C2_snapshot_timings s 0 H1 H2) as (_ & Hpos & _).
  destruct Hpos as (_ & Hmean & _); [reflexivity|exact Hmean].
Defined.

(** C8.  Along every sequence of fewer than 2^63 calls on a new engine,
    the open-connection counter is at least zero and at most the total
    counter, in the state reached and in every snapshot taken on the way;
    a decrement at zero open connections leaves the engine as it is. *)
Theorem C8_open_connections_bounded (c now : Z) (ops : list Op) :
  len ops < 2 ^ 63 ->
  let s := run (NewWithOptions c now) ops in
  0 <= openConns s <= totalConns s
  /\ Forall (fun snap => 0 <= OpenConnections snap <= TotalConnections snap)
            (observations (NewWithOptions c now) ops)
  /\ (openConns s = 0 -> DecrementOpenConnections s = s).
Proof.
  intros Hlen s.
  destruct (counted_run ops 0 (NewWithOptions c now)) as [[Hc _] Hobs].
  - unfold Spec.counted. cbn. lia.
  - unfold Int64.MaxInt64. lia.
  - split; [exact Hc|]. split; [exact Hobs|].
    intros E. unfold DecrementOpenConnections. rewrite E. reflexivity.
Qed.

Lemma C8_open_connections_bounded_witness :
  let ops := [OpIncrement; OpDecrement; OpDecrement; OpSnapshot 5;
              OpRecord (3 * Millisecond) 10; OpIncrement; OpLatency 7;
              OpReset 9; OpDecrement; OpSnapshot 11] in
  len ops < 2 ^ 63
  /\ 0 <= openConns (run (NewWithOptions 5 0) ops) <= totalConns (run (NewWithOptions 5 0) ops).
Proof.
  intros ops.
  assert (H : len ops < 2 ^ 63) by reflexivity.
  split; [exact H|].
  destruct (C8_open_connections_bounded 5 0 ops H) as (Hbound & _).
  exact Hbound.
Defined.

End StatsClaims.

(** ** Inspector store *)

Section StoreFacts.
Import Inspector.
Import InMemoryStore.
Local Open Scope Z_scope.

Lemma removelast_firstn_len {A} (l : list A) :
  removelast l = firstn (length l - 1) l.
Proof.
  induction l as [|x l IH]; [reflexivity|].
  destruct l as [|y l]; [reflexivity|].
  change (removelast (x :: y :: l)) with (x :: removelast (y :: l)).
  rewrite IH. cbn [length]. replace (S (S (length l)) - 1)%nat with (S (S (length l) - 1)) by lia.
  reflexivity.
Qed.

Lemma removelast_length {A} (l : list A) :
  length (removelast l) = (length l - 1)%nat.
Proof. rewrite removelast_firstn_len, List.length_firstn. lia. Qed.

Lemma removelast_map {A B} (f : A -> B) (l : list A) :
  map f (removelast l) = removelast (map f l).
Proof.
  rewrite !removelast_firstn_len, List.length_map. symmetry. apply List.firstn_map.
Qed.

Lemma maxSize_step s h o : maxSize (step s h o).1.2 = maxSize s.
Proof.
  destruct o; cbn [step]; try reflexivity.
  unfold Get. destruct (lookupID (exchanges s) id); reflexivity.
Qed.

Lemma descending_cons_below id l :
  Spec.descending l -> Forall (fun i => i < id) l -> Spec.descending (id :: l).
Proof.
  intros Hd Hall. constructor; [exact Hd|].
  eapply List.Forall_impl; [|exact Hall]. cbn. intros. lia.
Qed.

Lemma Forall_removelast {A} (P : A -> Prop) (l : list A) :
  Forall P l -> Forall P (removelast l).
Proof.
  rewrite removelast_firstn_len. apply Forall_take.
Qed.

Lemma descending_removelast l : Spec.descending l -> Spec.descending (removelast l).
Proof.
  unfold Spec.descending. induction 1 as [|x l Hs IH Hall]; [constructor|].
  destruct l as [|y l]; [constructor|].
  change (removelast (x :: y :: l)) with (x :: removelast (y :: l)).
  constructor; [exact IH|]. apply Forall_removelast. exact Hall.
Qed.

Lemma wf_new c : Spec.wf 0 (New c).
Proof.
  unfold Spec.wf, Spec.descending, New, len. cbn.
  destruct (Z.leb_spec c 0); repeat split; try lia; constructor.
Qed.

Lemma wf_add j s ex :
  Spec.wf j s -> j + 1 <= Int64.MaxInt64 ->
  (Add s ex).1 = nextID s
  /\ Spec.wf (j + 1) (Add s ex).2
  /\ nextID (Add s ex).2 = nextID s + 1
  /\ List (Add s ex).2
     = firstn (Z.to_nat (maxSize s)) (HTTPExchange.withID (nextID s) ex :: List s).
Proof.
  unfold Spec.wf, Int64.MaxInt64. intros (Hm & Hlen & Hn & Hdesc & Hbelow) Hj.
  unfold Add, List, len in *. cbn [fst snd exchanges nextID maxSize HTTPExchange.withID HTTPExchange.ID].
  rewrite add_in_range by (unfold Int64.in_range, Int64.MinInt64, Int64.MaxInt64; lia).
  split; [reflexivity|].
  destruct (Z.leb_spec (maxSize s) (Z.of_nat (length (exchanges s)))) as [Hfull|Hroom].
  - assert (Elen : Z.to_nat (maxSize s) = length (exchanges s)) by lia.
    assert (Hne : exchanges s <> []) by (intros E; rewrite E in Elen; cbn in Elen; lia).
    split; [|split; [reflexivity|]].
    + repeat split; try lia.
      * cbn [length]. rewrite removelast_length. lia.
      * cbn [map]. apply descending_cons_below.
        -- rewrite removelast_map. apply descending_removelast. exact Hdesc.
        -- rewrite removelast_map. apply Forall_removelast. exact Hbelow.
      * cbn [map]. constructor; [cbn; lia|].
        rewrite removelast_map. apply Forall_removelast.
        eapply List.Forall_impl; [|exact Hbelow]. cbn. intros. lia.
    + rewrite Elen. destruct (exchanges s) as [|e0 l] eqn:El; [congruence|].
      cbn [length firstn]. f_equal. rewrite removelast_firstn_len. cbn [length].
      f_equal. lia.
  - split; [|split; [reflexivity|]].
    + repeat split; try lia.
      * cbn [length]. lia.
      * cbn [map]. apply descending_cons_below; assumption.
      * cbn [map]. constructor; [cbn; lia|].
        eapply List.Forall_impl; [|exact Hbelow]. cbn. intros. lia.
    + rewrite firstn_all2; [reflexivity|]. cbn [length]. lia.
Qed.

Lemma wf_clear j s : Spec.wf j s -> Spec.wf j (Clear s).
Proof.
  unfold Spec.wf, Spec.descending, Clear, len. cbn. intros (Hm & Hlen & Hn & Hdesc & Hbelow).
  repeat split; try lia; constructor.
Qed.

Lemma wf_weaken j s : Spec.wf j s -> Spec.wf (j + 1) s.
Proof.
  unfold Spec.wf. intros (Hm & Hlen & Hn & Hdesc & Hbelow). repeat split; try lia; assumption.
Qed.

Lemma wf_step j s h o :
  Spec.wf j s -> j + 1 <= Int64.MaxInt64 -> Spec.wf (j + 1) (step s h o).1.2.
Proof.
  intros Hwf Hj. destruct o; cbn [step].
  - destruct (wf_add j s exchange Hwf Hj) as (_ & H & _).
    destruct (Add s exchange). exact H.
  - unfold Get. destruct (lookupID (exchanges s) id); cbn; apply wf_weaken, Hwf.
  - apply wf_weaken, Hwf.
  - apply wf_weaken, wf_clear, Hwf.
  - apply wf_weaken, Hwf.
Qed.


Lemma ascending_NoDup l : Spec.ascending l -> NoDup l.
Proof.
  unfold Spec.ascending. induction 1 as [|x l Hs IH Hall]; constructor; [|exact IH].
  intros Hin. apply list_elem_of_In in Hin.
  rewrite List.Forall_forall in Hall. specialize (Hall x Hin). lia.
Qed.

(** Along a run the identifiers handed out rise strictly, starting at the
    counter the run began with and staying below the counter it ends with. *)
Lemma run_ids ops : forall j s h,
  Spec.wf j s -> j + len ops <= Int64.MaxInt64 ->
  Spec.wf (j + len ops) (run s h ops).1.2
  /\ maxSize (run s h ops).1.2 = maxSize s
  /\ nextID s <= nextID (run s h ops).1.2
  /\ Spec.ascending (assignedIDs (run s h ops).1.1)
  /\ Forall (fun i => nextID s <= i < nextID (run s h ops).1.2)
            (assignedIDs (run s h ops).1.1).
Proof.
  unfold len.
  induction ops as [|o ops IH]; intros j s h Hwf Hj.
  - cbn. rewrite Z.add_0_r.
    split; [exact Hwf|]. split; [reflexivity|]. split; [lia|]. split; constructor.
  - cbn [length] in *. rewrite Nat2Z.inj_succ in *.
    assert (Hs : Spec.wf (j + 1) (step s h o).1.2) by (apply wf_step; [assumption|lia]).
    pose proof (maxSize_step s h o) as Hms.
    assert (Hid : match (step s h o).1.1 with
                  | RetAdd id => id = nextID s /\ nextID (step s h o).1.2 = nextID s + 1
                  | _ => nextID (step s h o).1.2 = nextID s
                  end).
    { destruct o; cbn [step].
      - destruct (wf_add j s exchange Hwf ltac:(lia)) as (E1 & _ & E2 & _).
        destruct (Add s exchange). cbn in *. auto.
      - unfold Get. destruct (lookupID (exchanges s) id); reflexivity.
      - reflexivity.
      - reflexivity.
      - reflexivity. }
    cbn [run].
    destruct (step s h o) as [[r s1] h1]. cbn [fst snd] in *.
    specialize (IH (j + 1) s1 h1 Hs ltac:(lia)).
    destruct (run s1 h1 ops) as [[rs s2] h2]. cbn [fst snd] in *.
    destruct IH as (Hwf2 & Hm2 & Hn2 & Hasc & Hrange).
    replace (j + Z.succ (Z.of_nat (length ops))) with (j + 1 + Z.of_nat (length ops)) by lia.
    split; [exact Hwf2|]. split; [congruence|].
    destruct r; cbn [assignedIDs];
      try (split; [lia|split; [exact Hasc|];
           eapply List.Forall_impl; [|exact Hrange]; cbn; intros; lia]).
    destruct Hid as [-> Hn1].
    split; [lia|]. split.
    + constructor; [exact Hasc|].
      eapply List.Forall_impl; [|exact Hrange]. cbn. intros. lia.
    + constructor; [lia|].
      eapply List.Forall_impl; [|exact Hrange]. cbn. intros. lia.
Qed.

End StoreFacts.

Section StoreClaims.
Import Inspector.
Import InMemoryStore.
Local Open Scope Z_scope.

(** C3.  Along every sequence of fewer than 2^63 calls on a new store the
    identifiers returned by the successive adds rise strictly, so none is
    handed out twice; clear leaves the identifier counter as it is; after
    five adds and a clear the next add is given 5. *)
Theorem C3_ids_strictly_increasing (c : Z) (h : Heap) (ops : list Op) :
  len ops < 2 ^ 63 ->
  let ids := assignedIDs (run (New c) h ops).1.1 in
  Spec.ascending ids
  /\ NoDup ids
  /\ (forall s, nextID (Clear s) = nextID s)
  /\ assignedIDs
       (run (New 100) emptyHeap
          [OpAdd Spec.blank; OpAdd Spec.blank; OpAdd Spec.blank; OpAdd Spec.blank; OpAdd Spec.blank;
           OpClear; OpAdd Spec.blank]).1.1
     = [0; 1; 2; 3; 4; 5].
Proof.
  intros Hlen ids.
  destruct (run_ids ops 0 (New c) h (wf_new c)) as (_ & _ & _ & Hasc & _).
  { unfold Int64.MaxInt64. lia. }
  split; [exact Hasc|]. split; [apply ascending_NoDup; exact Hasc|].
  split; [reflexivity|]. vm_compute. reflexivity.
Qed.

Lemma C3_ids_strictly_increasing_witness :
  let ops := [OpAdd Spec.blank; OpGet 0; OpAdd Spec.blank; OpClear; OpList; OpAdd Spec.blank; OpCount] in
  len ops < 2 ^ 63
  /\ Spec.ascending (assignedIDs (run (New 2) emptyHeap ops).1.1).
Proof.
  intros ops.
  assert (H : len ops < 2 ^ 63) by reflexivity.
  split; [exact H|].
  destruct (C3_ids_strictly_increasing 2 emptyHeap ops H) as (Hasc & _).
  exact Hasc.
Defined.

(** C4.  In every state a new store of capacity C (100 when the argument
    is not positive) reaches within 2^63 calls: the count is at most C; the
    list is newest first, its identifiers falling strictly; an add puts the
    new exchange, stamped with the next identifier, in front and keeps the
    first C entries, so at capacity the oldest entry is dropped.  With
    capacity 3, five adds leave three entries with identifiers 4, 3, 2. *)
Theorem C4_store_bounded_newest_first (c : Z) (h : Heap) (ops : list Op)
    (ex : HTTPExchange.t) :
  len ops < 2 ^ 63 - 1 ->
  let s := (run (New c) h ops).1.2 in
  let C := if c <=? 0 then 100 else c in
  let added := HTTPExchange.withID (nextID s) ex in
  maxSize s = C
  /\ Count s <= C
  /\ Spec.descending (map HTTPExchange.ID (List s))
  /\ (Add s ex).1 = HTTPExchange.ID added
  /\ List (Add s ex).2 = firstn (Z.to_nat C) (added :: List s)
  /\ (Count s < C -> List (Add s ex).2 = added :: List s)
  /\ (Count s = C -> List (Add s ex).2 = added :: removelast (List s))
  /\ Count (Add s ex).2 <= C
  /\ (let s5 := (run (New 3) emptyHeap
                   [OpAdd Spec.blank; OpAdd Spec.blank; OpAdd Spec.blank; OpAdd Spec.blank; OpAdd Spec.blank]).1.2 in
      Count s5 = 3 /\ map HTTPExchange.ID (List s5) = [4; 3; 2]).
Proof.
  intros Hlen s C added.
  destruct (run_ids ops 0 (New c) h (wf_new c)) as (Hwf & Hm & _).
  { unfold Int64.MaxInt64. lia. }
  fold s in Hwf, Hm. change (maxSize (New c)) with C in Hm.
  destruct (wf_add _ s ex Hwf) as (Hid & Hwf' & _ & Hlist).
  { unfold Int64.MaxInt64. lia. }
  rewrite Hm in Hlist.
  pose proof Hwf as (_ & Hcount & _ & Hdesc & _).
  pose proof Hwf' as (_ & Hcount' & _).
  rewrite Hm in Hcount.
  assert (Hm' : maxSize (Add s ex).2 = C) by (unfold Add; cbn; exact Hm).
  rewrite Hm' in Hcount'.
  repeat split; try assumption.
  - intros Hroom. unfold Add, List, Count in *. cbn [snd exchanges].
    rewrite Hm. destruct (Z.leb_spec C (len (exchanges s))); [lia|reflexivity].
  - intros Hfull. unfold Add, List, Count in *. cbn [snd exchanges].
    rewrite Hm. destruct (Z.leb_spec C (len (exchanges s))); [reflexivity|lia].
Qed.

Lemma C4_store_bounded_newest_first_witness :
  let ops := [OpAdd Spec.blank; OpAdd Spec.blank; OpAdd Spec.blank; OpClear; OpAdd Spec.blank; OpAdd Spec.blank] in
  len ops < 2 ^ 63 - 1
  /\ Count (run (New 2) emptyHeap ops).1.2 <= 2.
Proof.
  intros ops.
  assert (H : len ops < 2 ^ 63 - 1) by reflexivity.
  split; [exact H|].
  destruct (C4_store_bounded_newest_first 2 emptyHeap ops Spec.blank H) as (_ & Hcount & _).
  exact Hcount.
Defined.

End StoreClaims.

Section GetCopyClaims.
Import Inspector.
Import InMemoryStore.
Local Open Scope Z_scope.

Lemma allocExchange_fresh ex h :
  exchangeCells h !! (allocExchange ex h).1 = None.
Proof. cbn. apply not_elem_of_dom, is_fresh. Qed.

Lemma allocExchange_lookup ex h :
  exchangeCells (allocExchange ex h).2 !! (allocExchange ex h).1 = Some ex.
Proof. cbn. apply lookup_insert_eq. Qed.

Lemma Get_found s id h p h1 :
  Get s id h = (Some p, true, h1) ->
  exists ex, lookupID (exchanges s) id = Some ex
             /\ p = (allocExchange ex h).1 /\ h1 = (allocExchange ex h).2.
Proof.
  unfold Get. destruct (lookupID (exchanges s) id) as [ex|]; [|discriminate].
  intros E. exists ex. split; [reflexivity|].
  destruct (allocExchange ex h) as [q h'] eqn:Ea. cbn. split; congruence.
Qed.

(** C5, as the code has it.  [Get] returns the address of a new copy of
    the stored exchange record.  Whatever is assigned to that record (its
    identifier, duration, timestamp, or its request and response
    references) the store is as before: a later [Get] of the same
    identifier returns another new copy, equal to the stored exchange, and
    what is read through it is what was read through the first copy. *)
Theorem C5_get_returns_record_copy (s : t) (h : Heap) (id : Z) (p : ptr) (h1 : Heap)
    (v : HTTPExchange.t) :
  Get s id h = (Some p, true, h1) ->
  exists ex p' h3,
    lookupID (exchanges s) id = Some ex
    /\ exchangeCells h !! p = None
    /\ exchangeCells h1 !! p = Some ex
    /\ Get s id (storeExchange p v h1) = (Some p', true, h3)
    /\ p' <> p
    /\ exchangeCells h3 !! p' = Some ex
    /\ exchangeCells h3 !! p = Some v
    /\ Spec.view h3 p' = Spec.view h1 p.
Proof.
  intros Hget. destruct (Get_found _ _ _ _ _ Hget) as (ex & Hl & -> & ->).
  set (p := (allocExchange ex h).1).
  set (h1 := (allocExchange ex h).2).
  set (h2 := storeExchange p v h1).
  exists ex, (allocExchange ex h2).1, (allocExchange ex h2).2.
  assert (Hp2 : exchangeCells h2 !! p = Some v) by (cbn; apply lookup_insert_eq).
  assert (Hne : (allocExchange ex h2).1 <> p).
  { intros E. pose proof (allocExchange_fresh ex h2) as F. rewrite E, Hp2 in F. discriminate. }
  split; [exact Hl|]. split; [apply allocExchange_fresh|].
  split; [apply allocExchange_lookup|].
  split; [unfold Get; rewrite Hl; reflexivity|].
  split; [exact Hne|].
  split; [apply allocExchange_lookup|].
  split.
  - cbn [allocExchange snd exchangeCells]. rewrite lookup_insert_ne by exact Hne. exact Hp2.
  - unfold Spec.view. rewrite (allocExchange_lookup ex h2).
    unfold h1 at 1, p at 1. rewrite (allocExchange_lookup ex h). reflexivity.
Qed.

Lemma C5_get_returns_record_copy_witness :
  let s := (Add (New 100) Spec.blank).2 in
  let p := (Get s 0 emptyHeap).1.1 in
  let h1 := (Get s 0 emptyHeap).2 in
  exists q, p = Some q /\ Get s 0 emptyHeap = (Some q, true, h1)
    /\ exists ex p' h3, Get s 0 (storeExchange q ex h1) = (Some p', true, h3)
                        /\ exchangeCells h3 !! p' = Some Spec.blank.
Proof.
  intros s p h1.
  exists (allocExchange Spec.blank emptyHeap).1.
  assert (Hget : Get s 0 emptyHeap = (Some (allocExchange Spec.blank emptyHeap).1, true, h1))
    by reflexivity.
  split; [reflexivity|]. split; [exact Hget|].
  destruct (C5_get_returns_record_copy s emptyHeap 0 _ h1 Spec.blank Hget)
    as (ex & p' & h3 & Hl & _ & _ & Hget2 & _ & Hcell & _).
  exists Spec.blank, p', h3. split; [exact Hget2|].
  assert (E : Some ex = Some Spec.blank) by (rewrite <- Hl; reflexivity).
  injection E as E. rewrite <- E. exact Hcell.
Defined.

(** C5 as written fails: the copy shares the request record with the
    store.  After [id := store.Add(HTTPExchange{Request: &HTTPRequest{Method:
    "GET", URL: "/test"}})], [ex1, _ := store.Get(id)] and
    [ex1.Request.Method = "MODIFIED"], the request read through the result
    of a second [store.Get(id)] has method MODIFIED. *)
Lemma C5_counterexample :
  let r := (allocRequest Spec.getTest emptyHeap).1 in
  let h0 := (allocRequest Spec.getTest emptyHeap).2 in
  let s := (Add (New 100)
              {| HTTPExchange.ID := 0; HTTPExchange.Request := Some r;
                 HTTPExchange.Response := None; HTTPExchange.Duration := 0;
                 HTTPExchange.Timestamp := 0 |}).2 in
  exists ex1 h1 ex2 h3 stored,
    Get s 0 h0 = (Some ex1, true, h1)
    /\ Spec.view h1 ex1 = Some (stored, Some Spec.getTest, None)
    /\ Get s 0 (Spec.setRequestMethod ex1 "MODIFIED" h1) = (Some ex2, true, h3)
    /\ (exists request, Spec.view h3 ex2 = Some (stored, Some request, None)
                        /\ HTTPRequest.Method request = "MODIFIED"%string)
    /\ Spec.view h3 ex2 <> Spec.view h1 ex1.
Proof.
  intros r h0 s.
  set (stored := {| HTTPExchange.ID := 0; HTTPExchange.Request := Some r;
                    HTTPExchange.Response := None; HTTPExchange.Duration := 0;
                    HTTPExchange.Timestamp := 0 |}).
  set (ex1 := (allocExchange stored h0).1).
  set (h1 := (allocExchange stored h0).2).
  set (h2 := Spec.setRequestMethod ex1 "MODIFIED" h1).
  exists ex1, h1, (allocExchange stored h2).1, (allocExchange stored h2).2, stored.
  assert (Hr : requests h0 !! r = Some Spec.getTest) by (cbn; apply lookup_insert_eq).
  assert (Hv1 : Spec.view h1 ex1 = Some (stored, Some Spec.getTest, None)).
  { unfold Spec.view. unfold h1 at 1, ex1. rewrite allocExchange_lookup.
    cbn [stored HTTPExchange.Request HTTPExchange.Response]. fold stored.
    change (requests h1) with (requests h0). rewrite Hr. reflexivity. }
  assert (Hh2 : h2 = storeRequest r
                       {| HTTPRequest.Method := "MODIFIED"; HTTPRequest.URL := "/test";
                          HTTPRequest.Proto := ""; HTTPRequest.Headers := None;
                          HTTPRequest.Body := ""; HTTPRequest.Size := 0 |} h1).
  { unfold h2, Spec.setRequestMethod. unfold h1 at 1, ex1 at 1.
    rewrite allocExchange_lookup. cbn [stored HTTPExchange.Request].
    change (requests h1) with (requests h0). rewrite Hr. reflexivity. }
  assert (Hv2 : Spec.view (allocExchange stored h2).2 (allocExchange stored h2).1
                = Some (stored,
                        Some {| HTTPRequest.Method := "MODIFIED"; HTTPRequest.URL := "/test";
                                HTTPRequest.Proto := ""; HTTPRequest.Headers := None;
                                HTTPRequest.Body := ""; HTTPRequest.Size := 0 |}, None)).
  { unfold Spec.view. rewrite allocExchange_lookup.
    cbn [stored HTTPExchange.Request HTTPExchange.Response]. fold stored.
    change (requests (allocExchange stored h2).2) with (requests h2).
    rewrite Hh2. cbn [storeRequest requests]. rewrite lookup_insert_eq. reflexivity. }
  split; [reflexivity|]. split; [exact Hv1|]. split; [reflexivity|].
  split; [eexists; split; [exact Hv2|reflexivity]|].
  rewrite Hv1, Hv2. discriminate.
Qed.

End GetCopyClaims.

Section ReplayClaims.
Import Inspector.
Local Open Scope Z_scope.

Lemma lookupID_In exs id ex : lookupID exs id = Some ex -> In ex exs.
Proof.
  induction exs as [|e exs IH]; cbn [lookupID]; [discriminate|].
  destruct (HTTPExchange.ID e =? id); [intros [= ->]; left; reflexivity|].
  intros H. right. apply IH, H.
Qed.

Lemma GetExchange_found g id h ex :
  lookupID (exchanges g) id = Some ex ->
  GetExchange g id h = (Some (allocExchange ex h).1, true, (allocExchange ex h).2).
Proof. intros E. unfold GetExchange. rewrite E. reflexivity. Qed.

Lemma GetExchange_missing g id h :
  lookupID (exchanges g) id = None -> GetExchange g id h = (None, false, h).
Proof. intros E. unfold GetExchange. rewrite E. reflexivity. Qed.

Lemma storedRequest_copy g h id ex :
  Spec.requestsPresent g h -> lookupID (exchanges g) id = Some ex ->
  exists r request,
    HTTPExchange.Request ex = Some r /\ requests h !! r = Some request
    /\ storedRequest (allocExchange ex h).2 (allocExchange ex h).1 = Some request.
Proof.
  intros Hall Hl. apply lookupID_In in Hl.
  unfold Spec.requestsPresent in Hall. rewrite List.Forall_forall in Hall.
  destruct (Hall ex Hl) as (r & Hr & [request Hq]).
  exists r, request. split; [exact Hr|]. split; [exact Hq|].
  unfold storedRequest. cbn [allocExchange fst snd exchangeCells requests].
  rewrite lookup_insert_eq, Hr. exact Hq.
Qed.

Lemma replayRoute_is_handleReplay env g h method path :
  replayRoute env g h method path
  = handleReplay env g h method (GoStrings.TrimPrefix path "/api/replay/").
Proof.
  unfold replayRoute, handleReplay.
  destruct (negb (String.eqb method "POST")); reflexivity.
Qed.

(** C6, as the code has it.  A replay request is answered with 405 when
    the method is not POST; else 400 when the id does not parse as a
    decimal int64; else 404 when no captured exchange has the id; else 500
    when no local port is configured; else 500 when no request can be made
    from the captured method and the URL http://localhost:<port><url>;
    else 502 when the upstream call, made with a 30 s timeout, fails; else
    200 with the upstream status, headers and body as JSON.  Both replay
    routes answer as [handleReplay] does. *)
Theorem C6_replay_statuses (env : Env) (g : Package) (h : Heap) (method idStr : string) :
  Spec.requestsPresent g h ->
  let reply := (handleReplay env g h method idStr).1 in
  (method <> "POST"%string -> replyStatus reply = Some 405)
  /\ (method = "POST"%string -> Strconv.ParseInt idStr = None -> replyStatus reply = Some 400)
  /\ (forall id, method = "POST"%string -> Strconv.ParseInt idStr = Some id ->
        (lookupID (exchanges g) id = None -> replyStatus reply = Some 404)
        /\ (forall ex, lookupID (exchanges g) id = Some ex ->
              (localPort g = ""%string -> replyStatus reply = Some 500)
              /\ (localPort g <> ""%string ->
                  exists r request,
                    HTTPExchange.Request ex = Some r /\ requests h !! r = Some request
                    /\ match Http.NewRequest (parseURL env) (HTTPRequest.Method request)
                               ("http://localhost:" +:+ localPort g +:+ HTTPRequest.URL request)
                               (HTTPRequest.Body request) with
                       | inl err => replyStatus reply = Some 500
                       | inr req =>
                           match Do env {| Http.Timeout := 30 * Stats.Second |}
                                   (copyHeaders (storedHeaders h request) req) with
                           | inl err => replyStatus reply = Some 502
                           | inr up =>
                               reply = ReplayJSON (Http.UpStatusCode up) (Http.UpHeader up)
                                         (Http.UpBody up)
                               /\ replyStatus reply = Some 200
                           end
                       end)))
  /\ (forall path, replayRoute env g h method path
                   = handleReplay env g h method (GoStrings.TrimPrefix path "/api/replay/"))
  /\ (forall path,
        GoStrings.HasPrefix (GoStrings.TrimPrefix path "/api/exchanges/") "replay/" = true ->
        exchangesRoute env g h method path
        = handleReplay env g h method
            (GoStrings.TrimPrefix (GoStrings.TrimPrefix path "/api/exchanges/") "replay/")).
Proof.
  intros Hall reply.
  split; [|split; [|split; [|split]]].
  - intros Hm. unfold reply, handleReplay.
    destruct (String.eqb_spec method "POST"); [contradiction|reflexivity].
  - intros -> Hp. unfold reply, handleReplay. cbn [String.eqb Ascii.eqb Bool.eqb negb].
    rewrite Hp. reflexivity.
  - intros id -> Hp. split.
    + intros Hl. unfold reply, handleReplay. cbn [String.eqb Ascii.eqb Bool.eqb negb].
      rewrite Hp, (GetExchange_missing _ _ _ Hl). reflexivity.
    + intros ex Hl.
      destruct (storedRequest_copy g h id ex Hall Hl) as (r & request & Hr & Hq & Hs).
      split.
      * intros Hport. unfold reply, handleReplay. cbn [String.eqb Ascii.eqb Bool.eqb negb].
        rewrite Hp, (GetExchange_found _ _ h _ Hl), Hport. reflexivity.
      * intros Hport. exists r, request. split; [exact Hr|]. split; [exact Hq|].
        unfold reply, handleReplay. cbn [String.eqb Ascii.eqb Bool.eqb negb].
        rewrite Hp, (GetExchange_found _ _ h _ Hl).
        destruct (String.eqb_spec (localPort g) ""); [contradiction|].
        rewrite Hs.
        change (storedHeaders (allocExchange ex h).2 request) with (storedHeaders h request).
        destruct (Http.NewRequest _ _ _ _) as [err|req]; [reflexivity|].
        unfold replayTimeout.
        destruct (Do env _ _) as [err|up]; [reflexivity|]. split; reflexivity.
  - intros path. apply replayRoute_is_handleReplay.
  - intros path Hpre. unfold exchangesRoute. rewrite Hpre. reflexivity.
Qed.

(** The package list after [AddRequest("GET", "example.com", "/x", 200)]
    with the local port set: the hypothesis of C6 holds, and a replay of
    id 0 is answered with the upstream's reply. *)
Lemma C6_replay_statuses_witness :
  let added := AddRequest initial emptyHeap "GET" "example.com" "/x" 200 0 in
  let g := SetLocalPort added.1 "3000" in
  Spec.requestsPresent g added.2
  /\ replyStatus (handleReplay Spec.obligingEnv g added.2 "PUT" "0").1 = Some 405.
Proof.
  intros added g.
  assert (Hall : Spec.requestsPresent g added.2).
  { unfold Spec.requestsPresent. apply List.Forall_cons; [|apply List.Forall_nil].
    eexists. split; [reflexivity|]. cbn. rewrite lookup_insert_eq. eexists. reflexivity. }
  split; [exact Hall|].
  destruct (C6_replay_statuses Spec.obligingEnv g added.2 "PUT" "0" Hall) as (H405 & _).
  apply H405. discriminate.
Defined.

(** C6 as written fails: a POST for a stored id with a port configured and
    an upstream that answers is given 500, not the upstream's reply, when
    the captured method is not a valid token.  The exchange is the one
    [AddRequest("BAD METHOD", "example.com", "/x", 200)] stores. *)
Lemma C6_counterexample :
  let added := AddRequest initial emptyHeap "BAD METHOD" "example.com" "/x" 200 0 in
  let g := SetLocalPort added.1 "3000" in
  Strconv.ParseInt "0" = Some 0
  /\ (exists ex, lookupID (exchanges g) 0 = Some ex)
  /\ localPort g <> ""%string
  /\ (forall c r, exists up, Do Spec.obligingEnv c r = inr up)
  /\ (handleReplay Spec.obligingEnv g added.2 "POST" "0").1
     = Error "Failed to create request: " (Some (Http.InvalidMethod "BAD METHOD"))
         Http.StatusInternalServerError
  /\ replyStatus (handleReplay Spec.obligingEnv g added.2 "POST" "0").1 = Some 500.
Proof.
  intros added g.
  assert (Hreply : (handleReplay Spec.obligingEnv g added.2 "POST" "0").1
     = Error "Failed to create request: " (Some (Http.InvalidMethod "BAD METHOD"))
         Http.StatusInternalServerError).
  { unfold handleReplay. cbn [String.eqb Ascii.eqb Bool.eqb negb].
    change (Strconv.ParseInt "0") with (Some 0). cbv beta iota.
    erewrite GetExchange_found by reflexivity.
    change (localPort g) with "3000"%string. cbn [String.eqb Ascii.eqb Bool.eqb].
    unfold storedRequest. cbn [allocExchange fst snd exchangeCells requests].
    rewrite lookup_insert_eq.
    cbn [HTTPExchange.Request].
    cbn [added AddRequest allocHeader allocRequest allocResponse requests responses
         headerMaps exchangeCells fst snd Z.ltb Z.compare].
    rewrite lookup_insert_eq. reflexivity. }
  split; [reflexivity|]. split; [eexists; reflexivity|]. split; [discriminate|].
  split; [intros c r; eexists; reflexivity|]. split; [exact Hreply|].
  rewrite Hreply. reflexivity.
Qed.

End ReplayClaims.

(** ** Tunnel worker and session *)

Section TunnelFacts.
Import Tunnel.
Local Open Scope Z_scope.

Lemma controlMessages_app es1 es2 :
  Spec.controlMessages (es1 ++ es2) = Spec.controlMessages es1 ++ Spec.controlMessages es2.
Proof.
  induction es1 as [|e es1 IH]; [reflexivity|].
  destruct e; cbn [app Spec.controlMessages]; rewrite IH; reflexivity.
Qed.

Lemma quiet_app es1 es2 : Spec.quiet es1 -> Spec.quiet es2 -> Spec.quiet (es1 ++ es2).
Proof. unfold Spec.quiet. intros H1 H2. rewrite controlMessages_app, H1, H2. reflexivity. Qed.

Lemma extends_refl w : Spec.extends w w.
Proof. repeat split. exists []. split; [symmetry; apply app_nil_r|reflexivity]. Qed.

Lemma extends_trans w1 w2 w3 : Spec.extends w1 w2 -> Spec.extends w2 w3 -> Spec.extends w1 w3.
Proof.
  intros (S1 & B1 & es1 & T1 & Q1) (S2 & B2 & es2 & T2 & Q2).
  split; [congruence|]. split; [congruence|].
  exists (es1 ++ es2). split; [rewrite T2, T1, app_assoc; reflexivity|].
  apply quiet_app; assumption.
Qed.

Lemma extends_emit es w : Spec.quiet es -> Spec.extends w (emit es w).
Proof. intros Q. repeat split. exists es. split; [reflexivity|exact Q]. Qed.

Lemma extends_withInspector g h w : Spec.extends w (withInspector g h w).
Proof. repeat split. exists []. split; [symmetry; apply app_nil_r|reflexivity]. Qed.

Lemma extends_addExchange req reqBody resp respBody d now w :
  Spec.extends w (addExchange req reqBody resp respBody d now w).
Proof.
  unfold addExchange.
  destruct (Inspector.AddExchange _ _ _ _ _ _ _ _) as [[id g] h].
  apply extends_withInspector.
Qed.

Lemma extends_materializeRequest r w : Spec.extends w (materializeRequest r w).2.
Proof. unfold materializeRequest. cbn. apply extends_withInspector. Qed.

Lemma extends_materializeResponse r w : Spec.extends w (materializeResponse r w).2.
Proof. unfold materializeResponse. cbn. apply extends_withInspector. Qed.

Ltac step_extends :=
  first
    [ apply extends_refl
    | eapply extends_trans; [|apply extends_emit; reflexivity]
    | eapply extends_trans; [|apply extends_addExchange]
    | eapply extends_trans; [|apply extends_materializeRequest]
    | eapply extends_trans; [|apply extends_materializeResponse] ].

(** A worker leaves the statistics engine and the event bus as they are
    and writes nothing on the control stream. *)
Lemma proxyStream_extends t io w : Spec.extends w (proxyStream t io w).
Proof.
  unfold proxyStream.
  destruct (dial io); [repeat step_extends|].
  destruct (readRequest io) as [e|parsed]; [repeat step_extends|].
  change (materializeRequest parsed (emit [LocalDialed ("localhost:" +:+ LocalPort t)] w))
    with ((materializeRequest parsed (emit [LocalDialed ("localhost:" +:+ LocalPort t)] w)).1,
          (materializeRequest parsed (emit [LocalDialed ("localhost:" +:+ LocalPort t)] w)).2).
  cbv beta iota.
  set (w1 := (materializeRequest parsed _).2).
  assert (E1 : Spec.extends w w1) by (unfold w1; repeat step_extends).
  set (req := (materializeRequest parsed _).1).
  set (w2 := match requestBody io with Some _ => emit [RequestBodyClosed] w1 | None => w1 end).
  assert (E2 : Spec.extends w w2).
  { unfold w2. destruct (requestBody io); [|exact E1].
    eapply extends_trans; [exact E1|apply extends_emit; reflexivity]. }
  destruct (writeRequest io).
  { eapply extends_trans; [exact E2|]. repeat step_extends. }
  destruct (readResponse io) as [e|parsedResp].
  { eapply extends_trans; [exact E2|]. repeat step_extends. }
  set (w3 := emit _ w2).
  change (materializeResponse parsedResp w3)
    with ((materializeResponse parsedResp w3).1, (materializeResponse parsedResp w3).2).
  cbv beta iota.
  eapply extends_trans; [exact E2|].
  destruct (writeResponse io); repeat step_extends.
Qed.

Lemma acceptLoop_fold t streams : forall err w,
  acceptLoop t streams err w
  = ("session ended: " +:+ err, fold_left (fun w io => proxyStream t io w) streams w).
Proof.
  induction streams as [|io streams IH]; intros err w; [reflexivity|].
  cbn [acceptLoop fold_left]. apply IH.
Qed.

Lemma acceptLoop_extends t streams : forall err w,
  Spec.extends w (acceptLoop t streams err w).2.
Proof.
  induction streams as [|io streams IH]; intros err w; cbn [acceptLoop].
  - apply extends_refl.
  - eapply extends_trans; [apply proxyStream_extends|apply IH].
Qed.

End TunnelFacts.

Section TunnelClaims.
Import Tunnel.
Local Open Scope Z_scope.

Lemma last_snoc {A} (l : list A) x : list.last (l ++ [x]) = Some x.
Proof. apply last_snoc. Qed.

(** C1, as the code has it.  When the local dial succeeds, the request
    parses, is forwarded, and the response parses, the worker records one
    exchange in the inspector's package list: it takes the next identifier,
    carries the elapsed time in milliseconds and the time of recording, and
    points to a request record and a response record with the parsed
    fields and the (truncated) bodies.  The statistics engine and the event
    bus are left exactly as they were, and the stream is closed last. *)
Theorem C1_complete_exchange_recorded (t : Tunnel) (io : StreamIO) (w : World)
    (req : ParsedRequest) (resp : ParsedResponse) :
  dial io = None -> readRequest io = inr req ->
  writeRequest io = None -> readResponse io = inr resp ->
  let w' := proxyStream t io w in
  let reqBody := default ""%string (requestBody io) in
  let respBody := default ""%string (responseBody io) in
  (exists ex rq rs hq hs,
      Inspector.exchanges (inspector w') = Inspector.prepend ex (Inspector.exchanges (inspector w))
      /\ Inspector.HTTPExchange.ID ex = Inspector.nextID (inspector w)
      /\ Inspector.HTTPExchange.Duration ex = Inspector.Milliseconds (sinceAtResponse io)
      /\ Inspector.HTTPExchange.Timestamp ex = nowAtRecord io
      /\ Inspector.HTTPExchange.Request ex = Some rq
      /\ Inspector.HTTPExchange.Response ex = Some rs
      /\ Inspector.requests (heap w') !! rq
         = Some {| Inspector.HTTPRequest.Method := ReqMethod req;
                   Inspector.HTTPRequest.URL := ReqURL req;
                   Inspector.HTTPRequest.Proto := ReqProto req;
                   Inspector.HTTPRequest.Headers := Some hq;
                   Inspector.HTTPRequest.Body := Inspector.truncateBody reqBody;
                   Inspector.HTTPRequest.Size := Inspector.slen reqBody |}
      /\ Inspector.responses (heap w') !! rs
         = Some {| Inspector.HTTPResponse.Status := RespStatusCode resp;
                   Inspector.HTTPResponse.Proto := RespProto resp;
                   Inspector.HTTPResponse.Headers := Some hs;
                   Inspector.HTTPResponse.Body := Inspector.truncateBody respBody;
                   Inspector.HTTPResponse.Size := Inspector.slen respBody |}
      /\ Inspector.headerMaps (heap w') !! hq = Some (ReqHeader req)
      /\ Inspector.headerMaps (heap w') !! hs = Some (RespHeader resp))
  /\ Inspector.nextID (inspector w') = Int64.add (Inspector.nextID (inspector w)) 1
  /\ Inspector.localPort (inspector w') = Inspector.localPort (inspector w)
  /\ stats w' = stats w
  /\ bus w' = bus w
  /\ list.last (trace w') = Some RemoteClosed.
Proof.
  intros Hd Hq Hw Hr w' reqBody respBody.
  pose proof (proxyStream_extends t io w) as (Hs & Hb & _).
  split; [|split; [|split; [|split; [exact Hs|split; [exact Hb|]]]]].
  - unfold w', proxyStream. rewrite Hd, Hq, Hw, Hr.
    unfold materializeRequest, materializeResponse, addExchange, Inspector.AddExchange,
      Inspector.allocHeader, Inspector.allocRequest, Inspector.allocResponse.
    cbn [emit withInspector heap inspector Inspector.headerMaps Inspector.requests
         Inspector.responses Inspector.exchangeCells fst snd
         Http.Request.Method Http.Request.URL Http.Request.Proto Http.Request.Header
         Http.Response.StatusCode Http.Response.Proto Http.Response.Header].
    fold reqBody. fold respBody.
    destruct (requestBody io) as [rb|];
      cbn [emit withInspector heap inspector Inspector.headerMaps Inspector.requests
           Inspector.responses Inspector.exchangeCells];
      destruct (writeResponse io);
      cbn [emit withInspector heap inspector Inspector.headerMaps Inspector.requests
           Inspector.responses Inspector.exchangeCells Inspector.exchanges];
      (eexists _, _, _, (fresh (dom (Inspector.headerMaps (heap w)))), _;
       repeat (split; [reflexivity|]);
       split; [apply lookup_insert_eq|];
       split; [apply lookup_insert_eq|];
       split; [|apply lookup_insert_eq];
       rewrite lookup_insert_ne; [apply lookup_insert_eq|];
       intros E;
       pose proof (is_fresh (dom (<[fresh (dom (Inspector.headerMaps (heap w))) := ReqHeader req]>
                                     (Inspector.headerMaps (heap w))))) as F;
       rewrite E in F; apply F; rewrite dom_insert; set_solver).
  - unfold w', proxyStream. rewrite Hd, Hq, Hw, Hr.
    unfold materializeRequest, materializeResponse, addExchange, Inspector.AddExchange,
      Inspector.allocHeader, Inspector.allocRequest, Inspector.allocResponse.
    cbn [emit withInspector heap inspector Inspector.headerMaps Inspector.requests
         Inspector.responses Inspector.exchangeCells fst snd].
    destruct (requestBody io), (writeResponse io);
      cbn [emit withInspector heap inspector Inspector.nextID Inspector.localPort];
      reflexivity.
  - unfold w', proxyStream. rewrite Hd, Hq, Hw, Hr.
    unfold materializeRequest, materializeResponse, addExchange, Inspector.AddExchange,
      Inspector.allocHeader, Inspector.allocRequest, Inspector.allocResponse.
    cbn [emit withInspector heap inspector Inspector.headerMaps Inspector.requests
         Inspector.responses Inspector.exchangeCells fst snd].
    destruct (requestBody io), (writeResponse io);
      cbn [emit withInspector heap inspector Inspector.nextID Inspector.localPort];
      reflexivity.
  - unfold w', proxyStream. rewrite Hd, Hq, Hw, Hr.
    unfold materializeRequest, materializeResponse, addExchange, Inspector.AddExchange,
      Inspector.allocHeader, Inspector.allocRequest, Inspector.allocResponse.
    cbn [emit withInspector heap inspector Inspector.headerMaps Inspector.requests
         Inspector.responses Inspector.exchangeCells fst snd].
    destruct (requestBody io), (writeResponse io);
      cbn [emit withInspector heap inspector trace];
      rewrite ?app_assoc;
      match goal with
      | |- list.last (?l ++ [?a; ?b; ?c; RemoteClosed]) = _ =>
          change [a; b; c; RemoteClosed] with ([a; b; c] ++ [RemoteClosed]);
          rewrite app_assoc; apply last_snoc
      | |- list.last (?l ++ [?a; ?b; RemoteClosed]) = _ =>
          change [a; b; RemoteClosed] with ([a; b] ++ [RemoteClosed]);
          rewrite app_assoc; apply last_snoc
      end.
Qed.

Lemma C1_complete_exchange_recorded_witness :
  let w' := proxyStream Spec.localTunnel Spec.completeStream Spec.startedWorld in
  dial Spec.completeStream = None
  /\ writeRequest Spec.completeStream = None
  /\ stats w' = stats Spec.startedWorld
  /\ list.last (trace w') = Some RemoteClosed.
Proof.
  intros w'.
  destruct (C1_complete_exchange_recorded Spec.localTunnel Spec.completeStream
              Spec.startedWorld _ _ eq_refl eq_refl eq_refl eq_refl)
    as (_ & _ & _ & Hstats & _ & Hlast).
  split; [reflexivity|]. split; [reflexivity|]. split; [exact Hstats|exact Hlast].
Defined.

(** C1 as written fails: for a stream whose request and response both
    parse, the worker touches neither the statistics engine nor the event
    bus.  After the worker has run in a process that has just started, a
    snapshot still shows no connection, no request and no byte, the sample
    ring is empty, and the queue of the one subscriber is empty. *)
Lemma C1_counterexample :
  let w' := proxyStream Spec.localTunnel Spec.completeStream Spec.startedWorld in
  let snap := Stats.Snapshot (stats w') 2000 in
  dial Spec.completeStream = None
  /\ (exists r, readRequest Spec.completeStream = inr r)
  /\ (exists r, readResponse Spec.completeStream = inr r)
  /\ Stats.TotalConnections snap = 0
  /\ Stats.OpenConnections snap = 0
  /\ Stats.TotalRequests snap = 0
  /\ Stats.TotalBytes snap = 0
  /\ Stats.requestTimes (stats w') = []
  /\ Events.SubscriberCount (bus w') = 1%nat
  /\ (forall id queue, Events.subscribers (bus w') !! id = Some queue -> queue = []).
Proof.
  intros w' snap.
  pose proof (proxyStream_extends Spec.localTunnel Spec.completeStream Spec.startedWorld)
    as (Hs & Hb & _).
  fold w' in Hs, Hb. unfold snap. rewrite Hs, Hb.
  split; [reflexivity|]. split; [eexists; reflexivity|]. split; [eexists; reflexivity|].
  do 5 (split; [reflexivity|]).
  split.
  - unfold Events.SubscriberCount. cbn. rewrite map_size_insert_None by apply lookup_empty.
    rewrite map_size_empty. reflexivity.
  - cbn. intros id queue H. apply lookup_insert_Some in H.
    destruct H as [[_ E]|[_ E]]; [congruence|]. rewrite lookup_empty in E. discriminate.
Qed.

(** C7.  A worker contains its failures.  When the local dial fails it
    logs, closes the stream, and leaves the inspector as it was.  When the
    request does not parse it copies bytes in both directions, closes both
    ends, and leaves the inspector as it was.  When the response does not
    parse it records an exchange without response whose duration is the
    time elapsed so far, and closes the stream last.  Whatever a worker
    met, the accept loop goes on to the next stream, and it ends only with
    the error of [Accept]. *)
Theorem C7_failures_contained (t : Tunnel) (io : StreamIO) (w : World) :
  let w' := proxyStream t io w in
  (forall err, dial io = Some err ->
     inspector w' = inspector w /\ heap w' = heap w
     /\ trace w' = trace w ++ [LocalDialed ("localhost:" +:+ LocalPort t);
                               Logged ("Failed to dial local port " +:+ LocalPort t
                                       +:+ ": " +:+ err);
                               RemoteClosed])
  /\ (forall err, dial io = None -> readRequest io = inl err ->
        inspector w' = inspector w /\ heap w' = heap w
        /\ trace w' = trace w ++ [LocalDialed ("localhost:" +:+ LocalPort t);
                                  RawCopyStarted; RawCopied; LocalClosed; RemoteClosed])
  /\ (forall req err, dial io = None -> readRequest io = inr req ->
        writeRequest io = None -> readResponse io = inl err ->
        (exists ex rq,
            Inspector.exchanges (inspector w')
            = Inspector.prepend ex (Inspector.exchanges (inspector w))
            /\ Inspector.HTTPExchange.ID ex = Inspector.nextID (inspector w)
            /\ Inspector.HTTPExchange.Response ex = None
            /\ Inspector.HTTPExchange.Request ex = Some rq
            /\ Inspector.HTTPExchange.Duration ex
               = Inspector.Milliseconds (sinceAtReadFailure io))
        /\ list.last (trace w') = Some RemoteClosed)
  /\ (forall streams err, acceptLoop t (io :: streams) err w = acceptLoop t streams err w')
  /\ (forall streams err,
        acceptLoop t streams err w
        = ("session ended: " +:+ err, fold_left (fun w io => proxyStream t io w) streams w)).
Proof.
  intros w'. split; [|split; [|split; [|split]]].
  - intros err Hd. unfold w', proxyStream. rewrite Hd. cbn [emit inspector heap trace].
    rewrite <- app_assoc. repeat split.
  - intros err Hd Hq. unfold w', proxyStream. rewrite Hd, Hq. cbn [emit inspector heap trace].
    rewrite <- app_assoc. repeat split.
  - intros req err Hd Hq Hw Hr. unfold w', proxyStream. rewrite Hd, Hq, Hw, Hr.
    unfold materializeRequest, addExchange, Inspector.AddExchange,
      Inspector.allocHeader, Inspector.allocRequest.
    cbn [emit withInspector heap inspector Inspector.headerMaps Inspector.requests
         Inspector.responses Inspector.exchangeCells fst snd trace].
    destruct (requestBody io);
      cbn [emit withInspector heap inspector Inspector.exchanges trace].
    + split; [eexists _, _; repeat split|].
      rewrite ?app_assoc.
      match goal with
      | |- list.last (?l ++ [?a; RemoteClosed]) = _ =>
          change [a; RemoteClosed] with ([a] ++ [RemoteClosed]);
          rewrite app_assoc; apply last_snoc
      end.
    + split; [eexists _, _; repeat split|].
      rewrite ?app_assoc.
      match goal with
      | |- list.last (?l ++ [?a; RemoteClosed]) = _ =>
          change [a; RemoteClosed] with ([a] ++ [RemoteClosed]);
          rewrite app_assoc; apply last_snoc
      end.
  - intros streams err. reflexivity.
  - intros streams err. apply acceptLoop_fold.
Qed.

Lemma C7_failures_contained_witness :
  let w' := proxyStream Spec.localTunnel Spec.refusedStream Spec.startedWorld in
  dial Spec.refusedStream = Some "connection refused"%string
  /\ inspector w' = inspector Spec.startedWorld.
Proof.
  intros w'.
  destruct (C7_failures_contained Spec.localTunnel Spec.refusedStream Spec.startedWorld)
    as (Hdial & _).
  split; [reflexivity|].
  destruct (Hdial "connection refused"%string eq_refl) as (Hi & _). exact Hi.
Defined.

Lemma handleSession_messages t io w :
  exists es,
    trace (handleSession t io w).2 = trace w ++ es
    /\ (Spec.controlMessages es = []
        \/ exists rest,
             Spec.controlMessages es = Protocol.encodeAuthRequest (authReq t) :: rest)
    /\ (yamuxClient io = None -> sessionOpen io = None ->
        exists rest,
          Spec.controlMessages es = Protocol.encodeAuthRequest (authReq t) :: rest).
Proof.
  unfold handleSession.
  destruct (yamuxClient io) as [e|].
  { exists [ConnClosed]. split; [reflexivity|]. split; [left; reflexivity|discriminate]. }
  destruct (sessionOpen io) as [e|].
  { exists [ConnClosed]. split; [reflexivity|]. split; [left; reflexivity|discriminate]. }
  destruct (encodeAuth io) as [e|].
  { eexists. cbn [emit trace snd]. rewrite <- app_assoc. split; [reflexivity|].
    split; [right|intros _ _]; eexists; reflexivity. }
  destruct (encodeTunnel io) as [e|].
  { eexists. cbn [emit trace snd]. rewrite <- !app_assoc. split; [reflexivity|].
    split; [right|intros _ _]; eexists; reflexivity. }
  destruct (decodeResponse io) as [e|resp].
  { eexists. cbn [emit trace snd]. rewrite <- !app_assoc. split; [reflexivity|].
    split; [right|intros _ _]; eexists; reflexivity. }
  destruct (negb (Protocol.Success resp)).
  { eexists. cbn [emit trace snd]. rewrite <- !app_assoc. split; [reflexivity|].
    split; [right|intros _ _]; eexists; reflexivity. }
  match goal with
  | |- context [acceptLoop t ?s ?e ?w0] =>
      pose proof (acceptLoop_extends t s e w0) as (_ & _ & es & Ht & _);
      destruct (acceptLoop t s e w0) as [err w1]
  end.
  cbn [snd] in Ht. cbn [emit trace snd]. rewrite Ht. cbn [emit trace].
  eexists. rewrite <- !app_assoc. split; [reflexivity|].
  split; [right|intros _ _]; eexists; reflexivity.
Qed.

(** C10.  Whatever the tunnel is configured with and whatever the
    connection does, the authentication request of a handshake has force
    false: the first JSON value the session writes on the control stream,
    when it writes any, is the object with the single member "token", which
    a reader decodes as the tunnel's token with force false; and once the
    multiplexer and the control stream are open that value is written. *)
Theorem C10_auth_request_never_forces (t : Tunnel) (io : SessionIO) (w : World) :
  Protocol.Force (authReq t) = false
  /\ exists es,
       trace (handleSession t io w).2 = trace w ++ es
       /\ (forall j, head (Spec.controlMessages es) = Some j ->
             j = [("token"%string, Protocol.JString (Token t))]
             /\ Spec.member "force" j = None
             /\ Spec.decodeAuthRequest j
                = Some {| Protocol.Token := Token t; Protocol.Force := false |})
       /\ (yamuxClient io = None -> sessionOpen io = None ->
           head (Spec.controlMessages es)
           = Some [("token"%string, Protocol.JString (Token t))]).
Proof.
  split; [reflexivity|].
  destruct (handleSession_messages t io w) as (es & Ht & Hfirst & Hopen).
  exists es. split; [exact Ht|]. split.
  - intros j Hj. destruct Hfirst as [E|[rest E]]; rewrite E in Hj; [discriminate|].
    injection Hj as <-. repeat split.
  - intros Hy Ho. destruct (Hopen Hy Ho) as [rest E]. rewrite E. reflexivity.
Qed.

Lemma C10_auth_request_never_forces_witness :
  yamuxClient Spec.brokenSession = None
  /\ sessionOpen Spec.brokenSession = None
  /\ exists es,
       trace (handleSession Spec.localTunnel Spec.brokenSession Spec.startedWorld).2 = es
       /\ head (Spec.controlMessages es) = Some [("token"%string, Protocol.JString "secret")].
Proof.
  destruct (C10_auth_request_never_forces Spec.localTunnel Spec.brokenSession Spec.startedWorld)
    as (_ & es & Ht & _ & Hopen).
  split; [reflexivity|]. split; [reflexivity|].
  exists es. split; [exact Ht|]. exact (Hopen eq_refl eq_refl).
Defined.

End TunnelClaims.

(** ** Event bus *)

Section EventClaims.
Import Events.
Local Open Scope Z_scope.

(** C9.  Publish is a function of the bus, the event and the clock alone:
    it has no failure result and waits for no subscriber.  On a closed bus
    it changes nothing.  On an open bus every subscriber endpoint with a
    free slot gets the (time-stamped) event at the back of its queue, and
    every full endpoint is left as it was, whatever the state of the other
    endpoints; the set of subscribers, the closed endpoints and the buffer
    size are unchanged. *)
Theorem C9_publish_never_blocks (b : Bus) (ev : Event) (now : Z) :
  let b' := Publish b ev now in
  (closed b = true -> b' = b)
  /\ (closed b = false ->
      forall id queue, subscribers b !! id = Some queue ->
        ((length queue < bufferSize b)%nat ->
           subscribers b' !! id = Some (queue ++ [stamp ev now]))
        /\ ((bufferSize b <= length queue)%nat -> subscribers b' !! id = Some queue))
  /\ (forall id, subscribers b !! id = None -> subscribers b' !! id = None)
  /\ SubscriberCount b' = SubscriberCount b
  /\ retired b' = retired b
  /\ bufferSize b' = bufferSize b
  /\ closed b' = closed b.
Proof.
  intros b'. unfold b', Publish.
  destruct (closed b) eqn:Hc.
  - split; [reflexivity|]. split; [discriminate|]. split; [intros; assumption|].
    repeat split. exact Hc.
  - split; [discriminate|]. split; [|split; [|split; [|repeat split]]].
    + intros _ id queue Hq. cbn [subscribers]. rewrite lookup_fmap, Hq. cbn [fmap option_fmap option_map].
      unfold deliver. split; intros Hlen.
      * destruct (Nat.ltb_spec (length queue) (bufferSize b)); [reflexivity|lia].
      * destruct (Nat.ltb_spec (length queue) (bufferSize b)); [lia|reflexivity].
    + intros id Hq. cbn [subscribers]. rewrite lookup_fmap, Hq. reflexivity.
    + unfold SubscriberCount. cbn [subscribers]. apply map_size_fmap.
Qed.

(** A bus with one-slot endpoints and a subscriber whose slot is taken:
    a further event is dropped for it. *)
Lemma C9_publish_never_blocks_witness :
  let sub := Subscribe (NewBusWithBuffer 1) in
  let first := {| Type_ := EventConnecting; Data := NoData; Timestamp := None |} in
  let second := {| Type_ := EventConnected; Data := NoData; Timestamp := None |} in
  let b := Publish sub.2 first 10 in
  closed b = false
  /\ subscribers b !! sub.1 = Some [stamp first 10]
  /\ subscribers (Publish b second 20) !! sub.1 = Some [stamp first 10].
Proof.
  intros sub first second b.
  assert (Hq : subscribers b !! sub.1 = Some [stamp first 10]).
  { unfold b, Publish. cbn [sub Subscribe NewBusWithBuffer closed subscribers fst snd bufferSize].
    rewrite lookup_fmap, lookup_insert_eq. reflexivity. }
  split; [reflexivity|]. split; [exact Hq|].
  destruct (C9_publish_never_blocks b second 20) as (_ & Hopen & _).
  destruct (Hopen eq_refl sub.1 _ Hq) as (_ & Hfull).
  apply Hfull. cbn. lia.
Defined.

End EventClaims.

(* ===================================================================== *)
(** * Part III.  Further properties of the code                           *)
(* ===================================================================== *)

(** ** Statistics engine: the ring, the counters, reset *)

Section StatsMore.
Import Stats.
Local Open Scope Z_scope.

Lemma lastN_length k (l : list Z) : (k <= length l)%nat -> length (Spec.lastN k l) = k.
Proof. intros H. unfold Spec.lastN. rewrite length_skipn. lia. Qed.

Lemma lastN_all (l : list Z) : Spec.lastN (length l) l = l.
Proof. unfold Spec.lastN. rewrite Nat.sub_diag. reflexivity. Qed.

Lemma lastN_snoc k (l : list Z) d :
  (k <= length l)%nat -> Spec.lastN (S k) (l ++ [d]) = Spec.lastN k l ++ [d].
Proof.
  intros H. unfold Spec.lastN. rewrite length_app. cbn [length].
  replace (length l + 1 - S k)%nat with (length l - k)%nat by lia.
  rewrite skipn_app.
  replace (length l - k - length l)%nat with 0%nat by lia. reflexivity.
Qed.

Lemma tl_skipn (l : list Z) k : List.tl (skipn k l) = skipn (S k) l.
Proof.
  revert k. induction l as [|x l IH]; intros k.
  - destruct k; reflexivity.
  - destruct k as [|k]; [reflexivity|]. cbn [skipn]. rewrite IH. reflexivity.
Qed.

(** One recording on a ring that holds the last [min |acc| C] of [acc]. *)
Lemma ring_step (C : nat) (acc : list Z) d :
  (0 < C)%nat ->
  (if Z.of_nat C <=? len (Spec.lastN (Nat.min (length acc) C) acc)
   then List.tl (Spec.lastN (Nat.min (length acc) C) acc)
   else Spec.lastN (Nat.min (length acc) C) acc) ++ [d]
  = Spec.lastN (Nat.min (length (acc ++ [d])) C) (acc ++ [d]).
Proof.
  intros HC. unfold len. rewrite lastN_length by lia.
  rewrite length_app. cbn [length].
  destruct (Z.leb_spec (Z.of_nat C) (Z.of_nat (Nat.min (length acc) C))) as [Hfull|Hroom].
  - assert (Hle : (C <= length acc)%nat) by lia.
    rewrite !Nat.min_r by lia.
    destruct C as [|C']; [lia|].
    rewrite lastN_snoc by lia. f_equal.
    unfold Spec.lastN. rewrite tl_skipn. f_equal. lia.
  - assert (Hlt : (length acc < C)%nat) by lia.
    rewrite Nat.min_l by lia. rewrite Nat.min_l by lia.
    rewrite lastN_all.
    replace (length acc + 1)%nat with (length (acc ++ [d])) by (rewrite length_app; cbn; lia).
    rewrite lastN_all. reflexivity.
Qed.

Lemma ring_run ops : forall s acc,
  0 < maxSamples s ->
  requestTimes s
  = Spec.lastN (Nat.min (length acc) (Z.to_nat (maxSamples s))) acc ->
  requestTimes (run s ops)
  = Spec.lastN (Nat.min (length (Spec.samplesFrom acc ops)) (Z.to_nat (maxSamples s)))
      (Spec.samplesFrom acc ops).
Proof.
  induction ops as [|o ops IH]; intros s acc Hm Hring; [exact Hring|].
  destruct o; cbn [run Spec.samplesFrom step].
  - rewrite (IH (IncrementConnections s) acc); [reflexivity|exact Hm|exact Hring].
  - assert (E : requestTimes (DecrementOpenConnections s) = requestTimes s
                /\ maxSamples (DecrementOpenConnections s) = maxSamples s).
    { unfold DecrementOpenConnections. destruct (0 <? openConns s); split; reflexivity. }
    destruct E as [E1 E2].
    rewrite (IH (DecrementOpenConnections s) acc); rewrite ?E1, ?E2; auto.
  - rewrite (IH (RecordRequest s duration bytes) (acc ++ [duration])); [reflexivity|exact Hm|].
    cbn [RecordRequest requestTimes maxSamples]. rewrite Hring.
    replace (maxSamples s) with (Z.of_nat (Z.to_nat (maxSamples s))) at 1 by lia.
    apply ring_step. lia.
  - rewrite (IH (SetServerLatency s latency) acc); [reflexivity|exact Hm|exact Hring].
  - rewrite (IH (Reset s now) []); [reflexivity|exact Hm|reflexivity].
  - apply IH; assumption.
Qed.


Lemma ring_holds_latest_samples_aux (c now : Z) (ops : list Op) :
  len (requestTimes (run (NewWithOptions c now) ops))
  = Z.min (len (Spec.samples ops)) (Spec.capacity c)
  /\ maxSamples (run (NewWithOptions c now) ops) = Spec.capacity c.
Proof.
  assert (Hcap : 0 < Spec.capacity c)
    by (unfold Spec.capacity; destruct (Z.leb_spec c 0); lia).
  split; [|rewrite maxSamples_run; reflexivity].
  unfold Spec.samples.
  rewrite (ring_run ops (NewWithOptions c now) []); [|exact Hcap|reflexivity].
  unfold len. rewrite lastN_length by lia.
  change (maxSamples (NewWithOptions c now)) with (Spec.capacity c). lia.
Qed.

(** X1.  The ring of a new engine of capacity C holds, after any run, the
    last min(k, C) of the k durations recorded since the engine was made or
    last reset, oldest first; so it never holds more than C samples. *)
Theorem ring_holds_latest_samples (c now : Z) (ops : list Op) :
  let s := run (NewWithOptions c now) ops in
  let C := Z.to_nat (Spec.capacity c) in
  requestTimes s
  = Spec.lastN (Nat.min (length (Spec.samples ops)) C) (Spec.samples ops)
  /\ len (requestTimes s) = Z.min (len (Spec.samples ops)) (Spec.capacity c)
  /\ len (requestTimes s) <= maxSamples s.
Proof.
  intros s C.
  assert (Hcap : 0 < Spec.capacity c)
    by (unfold Spec.capacity; destruct (Z.leb_spec c 0); lia).
  assert (Hring : requestTimes s
    = Spec.lastN (Nat.min (length (Spec.samples ops)) C) (Spec.samples ops)).
  { unfold s, Spec.samples. apply (ring_run ops (NewWithOptions c now) []);
      [exact Hcap|reflexivity]. }
  assert (Hlen : len (requestTimes s) = Z.min (len (Spec.samples ops)) (Spec.capacity c)).
  { rewrite Hring. unfold len. rewrite lastN_length by lia. unfold C. lia. }
  split; [exact Hring|]. split; [exact Hlen|].
  unfold s. rewrite maxSamples_run. change (maxSamples (NewWithOptions c now)) with (Spec.capacity c).
  fold s. lia.
Qed.

(** X2.  A reset engine is a new engine: after any run, [Reset] gives the
    state [NewWithOptions] gives for the same capacity argument and clock,
    so it behaves as a new engine from then on. *)
Theorem reset_is_new (c t0 now : Z) (ops more : list Op) :
  Reset (run (NewWithOptions c t0) ops) now = NewWithOptions c now
  /\ run (run (NewWithOptions c t0) ops) (OpReset now :: more)
     = run (NewWithOptions c now) more.
Proof.
  assert (E : Reset (run (NewWithOptions c t0) ops) now = NewWithOptions c now).
  { unfold Reset. rewrite maxSamples_run. reflexivity. }
  split; [exact E|]. cbn [run step]. rewrite E. reflexivity.
Qed.

Lemma sorted_nth_le (l : list Z) : Sorted Z.le l ->
  forall i j, (i <= j < length l)%nat -> nth i l 0 <= nth j l 0.
Proof.
  intros Hs. apply Sorted_StronglySorted in Hs; [|intros x y z; lia].
  induction Hs as [|x l Hs IH Hall]; intros i j Hij; [cbn in Hij; lia|].
  destruct i as [|i], j as [|j]; cbn [nth length] in *; try lia.
  - rewrite List.Forall_forall in Hall. apply Hall, nth_In. lia.
  - apply IH. lia.
Qed.

(** X3.  For a ring of n samples, 0 < n < 2^50, the index the snapshot
    computes through float64 is floor(9n/10), it lies inside the sorted
    copy, and the clamp to n-1 never applies; P50 and P90 are samples of
    the ring, and P50 is at most P90. *)
Theorem percentiles_are_ordered_samples (s : Stats) (now : Z) :
  let n := len (requestTimes s) in
  0 < n < 2 ^ 50 ->
  Float64.to_int (Float64.mul (Float64.of_int n) Float64.nine_tenths) = 9 * n / 10
  /\ 0 <= p90Index n <= n - 1
  /\ In (P50 (Snapshot s now)) (requestTimes s)
  /\ In (P90 (Snapshot s now)) (requestTimes s)
  /\ P50 (Snapshot s now) <= P90 (Snapshot s now).
Proof.
  intros n Hn.
  assert (Hidx : p90Index n = 9 * n / 10) by (apply p90Index_floor; lia).
  assert (H90 : 0 <= 9 * n / 10 < n).
  { split; [apply Z.div_pos; lia|apply Z.div_lt_upper_bound; lia]. }
  assert (H50 : 0 <= n / 2 <= 9 * n / 10).
  { split; [apply Z.div_pos; lia|].
    apply Z.div_le_lower_bound; [lia|].
    pose proof (Z.mul_div_le n 2 ltac:(lia)). lia. }
  split; [apply mul_nine_tenths; lia|]. split; [lia|].
  unfold Snapshot. fold n.
  destruct (Z.eqb_spec n 0) as [E|_]; [lia|]. cbn [P50 P90].
  rewrite Hidx, Z.quot_div_nonneg by lia.
  pose proof (sortSlice_perm (requestTimes s)) as Hperm.
  assert (Hlen : length (sortSlice (requestTimes s)) = length (requestTimes s))
    by (apply Permutation_length, Hperm).
  assert (Hn' : n = Z.of_nat (length (requestTimes s))) by reflexivity.
  split; [|split].
  - apply (Permutation_in _ Hperm), nth_In. lia.
  - apply (Permutation_in _ Hperm), nth_In. lia.
  - apply sorted_nth_le; [apply sortSlice_sorted|]. lia.
Qed.

Lemma percentiles_are_ordered_samples_witness :
  let s := recordAll (NewWithOptions 3 0) [5; 1; 4; 2] in
  0 < len (requestTimes s) < 2 ^ 50
  /\ P50 (Snapshot s 0) <= P90 (Snapshot s 0).
Proof.
  intros s.
  assert (H : 0 < len (requestTimes s) < 2 ^ 50) by (split; reflexivity).
  split; [exact H|].
  destruct (percentiles_are_ordered_samples s 0 H) as (_ & _ & _ & _ & Hle). exact Hle.
Defined.

Lemma totalRequests_run ops : forall s j acc,
  0 <= totalRequests s <= j -> j + len ops <= Int64.MaxInt64 ->
  totalRequests s = len acc ->
  totalRequests (run s ops) = len (Spec.samplesFrom acc ops).
Proof.
  unfold len, Int64.MaxInt64.
  induction ops as [|o ops IH]; intros s j acc Hj Hbound Hacc; [exact Hacc|].
  cbn [length] in Hbound. rewrite Nat2Z.inj_succ in Hbound.
  destruct o; cbn [run Spec.samplesFrom step].
  - apply (IH _ (j + 1)); cbn [IncrementConnections totalRequests]; lia.
  - assert (E : totalRequests (DecrementOpenConnections s) = totalRequests s).
    { unfold DecrementOpenConnections. destruct (0 <? openConns s); reflexivity. }
    apply (IH _ (j + 1)); rewrite ?E; lia.
  - assert (E : totalRequests (RecordRequest s duration bytes) = totalRequests s + 1).
    { cbn [RecordRequest totalRequests]. apply add_in_range.
      unfold Int64.in_range, Int64.MinInt64, Int64.MaxInt64. lia. }
    apply (IH _ (j + 1)); rewrite ?E, ?length_app; cbn [length]; lia.
  - apply (IH _ (j + 1)); cbn [SetServerLatency totalRequests]; lia.
  - apply (IH _ (j + 1)); cbn [Reset totalRequests length]; lia.
  - apply (IH _ (j + 1)); lia.
Qed.

(** X4.  Along a run of fewer than 2^63 calls on a new engine, the request
    counter equals the number of durations recorded since the engine was
    made or last reset, and the ring holds min(TotalRequests, capacity)
    samples: the snapshot's timings are over that many requests. *)
Theorem ring_size_follows_request_count (c now : Z) (ops : list Op) :
  len ops < 2 ^ 63 ->
  let s := run (NewWithOptions c now) ops in
  totalRequests s = len (Spec.samples ops)
  /\ len (requestTimes s) = Z.min (totalRequests s) (maxSamples s).
Proof.
  intros Hlen s.
  assert (Hreq : totalRequests s = len (Spec.samples ops)).
  { unfold s, Spec.samples.
    apply (totalRequests_run ops (NewWithOptions c now) 0 []);
      [cbn; lia|unfold Int64.MaxInt64; lia|reflexivity]. }
  split; [exact Hreq|].
  destruct (ring_holds_latest_samples_aux c now ops) as [Hl Hm].
  fold s in Hl, Hm. rewrite Hl, Hreq, Hm. reflexivity.
Qed.

Lemma ring_size_follows_request_count_witness :
  let ops := [OpRecord 5 1; OpRecord 6 1; OpReset 3; OpRecord 7 1; OpSnapshot 4] in
  len ops < 2 ^ 63
  /\ totalRequests (run (NewWithOptions 1 0) ops) = 1.
Proof.
  intros ops.
  assert (H : len ops < 2 ^ 63) by reflexivity.
  split; [exact H|].
  destruct (ring_size_follows_request_count 1 0 ops H) as (Hreq & _).
  rewrite Hreq. reflexivity.
Defined.

End StatsMore.

(** ** Inspector store: round trips and contents *)

Section StoreMore.
Import Inspector.
Import InMemoryStore.
Local Open Scope Z_scope.

(** X5.  What [Add] stores, [Get] finds: on any store, a [Get] of the
    identifier [Add] has just returned succeeds and hands out a new cell
    holding the added exchange stamped with that identifier. *)
Theorem add_then_get (s : t) (h : Heap) (ex : HTTPExchange.t) :
  exists p h',
    Get (Add s ex).2 (Add s ex).1 h = (Some p, true, h')
    /\ (Add s ex).1 = nextID s
    /\ exchangeCells h !! p = None
    /\ exchangeCells h' !! p = Some (HTTPExchange.withID (nextID s) ex)
    /\ requests h' = requests h /\ responses h' = responses h.
Proof.
  set (stored := HTTPExchange.withID (nextID s) ex).
  assert (Hl : lookupID (exchanges (Add s ex).2) (Add s ex).1 = Some stored).
  { unfold Add. cbn [fst snd exchanges HTTPExchange.withID HTTPExchange.ID].
    destruct (maxSize s <=? len (exchanges s)); cbn [lookupID HTTPExchange.ID];
      rewrite Z.eqb_refl; reflexivity. }
  exists (allocExchange stored h).1, (allocExchange stored h).2.
  split; [unfold Get; rewrite Hl; reflexivity|].
  split; [reflexivity|].
  split; [apply allocExchange_fresh|].
  split; [apply allocExchange_lookup|]. split; reflexivity.
Qed.

Lemma firstn_app_firstn {A} (n : nat) (l1 l2 : list A) :
  firstn n (l1 ++ firstn n l2) = firstn n (l1 ++ l2).
Proof.
  rewrite !List.firstn_app, List.firstn_firstn. f_equal. f_equal. lia.
Qed.

Lemma stamped_length start exs : length (Spec.stamped start exs) = length exs.
Proof.
  revert start. induction exs as [|ex exs IH]; intros start; [reflexivity|].
  cbn [Spec.stamped length]. rewrite IH. reflexivity.
Qed.

Lemma adds_contents exs : forall j s h,
  Spec.wf j s -> j + len exs <= Int64.MaxInt64 ->
  List (run s h (map OpAdd exs)).1.2
  = firstn (Z.to_nat (maxSize s)) (rev (Spec.stamped (nextID s) exs) ++ List s)
  /\ nextID (run s h (map OpAdd exs)).1.2 = nextID s + len exs.
Proof.
  unfold len.
  induction exs as [|ex exs IH]; intros j s h Hwf Hj.
  - cbn. split; [|lia]. symmetry. apply firstn_all2.
    destruct Hwf as (Hm & Hlen & _). unfold List, len in *. lia.
  - cbn [length] in Hj. rewrite Nat2Z.inj_succ in Hj.
    destruct (wf_add j s ex Hwf ltac:(lia)) as (_ & Hwf1 & Hn1 & Hl1).
    cbn [map run step].
    destruct (Add s ex) as [id s1] eqn:Ea. cbn [fst snd] in *.
    specialize (IH (j + 1) s1 h Hwf1 ltac:(lia)).
    destruct (run s1 h (map OpAdd exs)) as [[rs s2] h2]. cbn [fst snd] in *.
    destruct IH as [IHl IHn].
    assert (Hm1 : maxSize s1 = maxSize s).
    { pose proof (f_equal (fun r => maxSize r.2) Ea) as E. cbn in E. symmetry. exact E. }
    split.
    + rewrite IHl, Hm1, Hl1, Hn1, firstn_app_firstn.
      cbn [Spec.stamped rev]. rewrite <- app_assoc. reflexivity.
    + rewrite IHn, Hn1. cbn [length]. lia.
Qed.

(** X6.  After k adds (k < 2^63) on a new store of capacity C and nothing
    else, the list is the last min(k, C) of the added exchanges, newest
    first, the i-th added one stamped with identifier i; the count is
    min(k, C). *)
Theorem adds_keep_newest (c : Z) (h : Heap) (exs : list HTTPExchange.t) :
  len exs < 2 ^ 63 ->
  let s := (run (New c) h (map OpAdd exs)).1.2 in
  List s = firstn (Z.to_nat (Spec.capacity c)) (rev (Spec.stamped 0 exs))
  /\ Count s = Z.min (len exs) (Spec.capacity c)
  /\ nextID s = len exs.
Proof.
  intros Hlen s.
  destruct (adds_contents exs 0 (New c) h (wf_new c)) as [Hl Hn].
  { unfold Int64.MaxInt64. lia. }
  fold s in Hl, Hn. cbn [New nextID List exchanges] in Hl, Hn.
  rewrite app_nil_r in Hl.
  assert (Hcap : 0 < Spec.capacity c)
    by (unfold Spec.capacity; destruct (Z.leb_spec c 0); lia).
  split; [exact Hl|]. split; [|exact Hn].
  unfold Count, len. change (exchanges s) with (List s). rewrite Hl.
  change (maxSize (New c)) with (Spec.capacity c).
  rewrite List.length_firstn, length_rev, stamped_length. lia.
Qed.

Lemma adds_keep_newest_witness :
  let exs := [Spec.blank; Spec.blank; Spec.blank; Spec.blank] in
  len exs < 2 ^ 63
  /\ Count (run (New 3) emptyHeap (map OpAdd exs)).1.2 = 3.
Proof.
  intros exs.
  assert (H : len exs < 2 ^ 63) by reflexivity.
  split; [exact H|].
  destruct (adds_keep_newest 3 emptyHeap exs H) as (_ & Hc & _).
  rewrite Hc. reflexivity.
Defined.

Lemma lookupID_found_iff exs id :
  (exists ex, lookupID exs id = Some ex) <-> In id (map HTTPExchange.ID exs).
Proof.
  induction exs as [|e exs IH]; cbn [lookupID map In].
  - split; [intros [ex H]; discriminate|contradiction].
  - destruct (Z.eqb_spec (HTTPExchange.ID e) id) as [E|N].
    + split; [intros _; left; exact E|intros _; eexists; reflexivity].
    + rewrite IH. split; [intros H; right; exact H|intros [H|H]; [contradiction|exact H]].
Qed.

Lemma lookupID_ID exs id ex : lookupID exs id = Some ex -> HTTPExchange.ID ex = id.
Proof.
  induction exs as [|e exs IH]; cbn [lookupID]; [discriminate|].
  destruct (Z.eqb_spec (HTTPExchange.ID e) id) as [E|N]; [intros [= <-]; exact E|exact IH].
Qed.


Lemma nonneg_step s h o :
  0 <= nextID s ->
  Forall (fun i => 0 <= i) (map HTTPExchange.ID (exchanges s)) ->
  Forall (fun i => 0 <= i) (map HTTPExchange.ID (exchanges (step s h o).1.2)).
Proof.
  intros Hn Hall. destruct o; cbn [step]; try exact Hall.
  - unfold Add. cbn [fst snd exchanges].
    destruct (maxSize s <=? len (exchanges s)); cbn [map HTTPExchange.withID HTTPExchange.ID];
      constructor; try exact Hn; try exact Hall.
    rewrite removelast_map. apply Forall_removelast. exact Hall.
  - unfold Get. destruct (lookupID (exchanges s) id); exact Hall.
  - constructor.
Qed.

Lemma ids_nonneg ops : forall j s h,
  Spec.wf j s -> j + len ops <= Int64.MaxInt64 ->
  Forall (fun i => 0 <= i) (map HTTPExchange.ID (exchanges s)) ->
  Forall (fun i => 0 <= i) (map HTTPExchange.ID (exchanges (run s h ops).1.2)).
Proof.
  unfold len.
  induction ops as [|o ops IH]; intros j s h Hwf Hj Hall; [exact Hall|].
  cbn [length] in Hj. rewrite Nat2Z.inj_succ in Hj.
  pose proof (wf_step j s h o Hwf ltac:(lia)) as Hwf1.
  pose proof (nonneg_step s h o ltac:(destruct Hwf as (_ & _ & Hn & _); lia) Hall) as Hall1.
  cbn [run]. destruct (step s h o) as [[r s1] h1]. cbn [fst snd] in *.
  specialize (IH (j + 1) s1 h1 Hwf1 ltac:(lia) Hall1).
  destruct (run s1 h1 ops) as [[rs s2] h2]. exact IH.
Qed.

(** X7.  In every state a new store reaches within 2^63 calls, [Get]
    succeeds exactly for the identifiers in the list, and the copy it
    hands out carries the identifier asked for; an identifier that was
    never handed out (negative, or not below the counter) is not found and
    the heap is left as it was; after [Clear] no identifier is found. *)
Theorem get_finds_listed_ids (c : Z) (h0 h : Heap) (ops : list Op) (id : Z) :
  len ops < 2 ^ 63 ->
  let s := (run (New c) h0 ops).1.2 in
  ((Get s id h).1.2 = true <-> In id (map HTTPExchange.ID (List s)))
  /\ (forall p h', Get s id h = (Some p, true, h') ->
        exists ex, exchangeCells h' !! p = Some ex /\ HTTPExchange.ID ex = id)
  /\ (id < 0 \/ nextID s <= id -> Get s id h = (None, false, h))
  /\ Get (Clear s) id h = (None, false, h).
Proof.
  intros Hlen s.
  destruct (run_ids ops 0 (New c) h0 (wf_new c)) as (Hwf & _ & Hn & _).
  { unfold Int64.MaxInt64. lia. }
  fold s in Hwf, Hn. destruct Hwf as (_ & _ & Hn0 & _ & Hbelow).
  split; [|split; [|split]].
  - rewrite <- lookupID_found_iff. unfold Get, List.
    destruct (lookupID (exchanges s) id) as [ex|]; cbn.
    + split; [intros _; eexists; reflexivity|reflexivity].
    + split; [discriminate|intros [ex H]; discriminate].
  - intros p h' Hg. destruct (Get_found _ _ _ _ _ Hg) as (ex & Hl & -> & ->).
    exists ex. split; [apply allocExchange_lookup|eapply lookupID_ID; exact Hl].
  - intros Hid. unfold Get.
    destruct (lookupID (exchanges s) id) as [ex|] eqn:Hl; [exfalso|reflexivity].
    assert (Hin : In id (map HTTPExchange.ID (exchanges s)))
      by (apply lookupID_found_iff; eexists; exact Hl).
    rewrite List.Forall_forall in Hbelow. specialize (Hbelow id Hin).
    assert (Hpos : Forall (fun i => 0 <= i) (map HTTPExchange.ID (exchanges s))).
    { apply (ids_nonneg ops 0 (New c) h0 (wf_new c)); [unfold Int64.MaxInt64; lia|constructor]. }
    rewrite List.Forall_forall in Hpos. specialize (Hpos id Hin). lia.
  - reflexivity.
Qed.

Lemma get_finds_listed_ids_witness :
  let ops := [OpAdd Spec.blank; OpAdd Spec.blank; OpClear; OpAdd Spec.blank] in
  len ops < 2 ^ 63
  /\ Get (run (New 5) emptyHeap ops).1.2 7 emptyHeap = (None, false, emptyHeap).
Proof.
  intros ops.
  assert (H : len ops < 2 ^ 63) by reflexivity.
  split; [exact H|].
  destruct (get_finds_listed_ids 5 emptyHeap emptyHeap ops 7 H) as (_ & _ & Hmiss & _).
  apply Hmiss. right. vm_compute. discriminate.
Defined.

End StoreMore.


(** ** Inspector package: truncation, capture and lookup *)

Section PackageMore.
Import Inspector.
Local Open Scope Z_scope.

Lemma append_length (a b : string) :
  String.length (a +:+ b) = (String.length a + String.length b)%nat.
Proof.
  induction a as [|c a IH]; [reflexivity|].
  change (String.length (String c a +:+ b)) with (S (String.length (a +:+ b))).
  rewrite IH. reflexivity.
Qed.

Lemma substring_prefix_length n : forall s,
  (n <= String.length s)%nat -> String.length (String.substring 0 n s) = n.
Proof.
  induction n as [|n IH]; intros s Hn; destruct s as [|c s]; cbn in *; try lia; try reflexivity.
  rewrite IH by lia. reflexivity.
Qed.

Lemma substring_is_prefix n : forall s, String.prefix (String.substring 0 n s) s = true.
Proof.
  induction n as [|n IH]; intros s; destruct s as [|c s]; cbn; try reflexivity.
  destruct (ascii_dec c c); [apply IH|congruence].
Qed.

(** X8.  [truncateBody] keeps a body of at most 1 MiB as it is; a longer
    body becomes its first 1 MiB followed by the 16-byte marker, so a
    stored body is never longer than 1 MiB plus 16 bytes and always begins
    with a prefix of the original. *)
Theorem truncateBody_bounds (body : string) :
  (slen body <= maxBodySize -> truncateBody body = body)
  /\ (maxBodySize < slen body ->
      truncateBody body
      = String.substring 0 (Z.to_nat maxBodySize) body +:+ truncationMarker
      /\ slen (truncateBody body) = maxBodySize + 16
      /\ String.prefix (String.substring 0 (Z.to_nat maxBodySize) body) body = true)
  /\ slen (truncateBody body) <= maxBodySize + 16
  /\ slen (truncateBody body) <= slen body + 16.
Proof.
  assert (Hmax : maxBodySize = 1048576) by reflexivity.
  assert (Hmark : String.length truncationMarker = 16%nat) by reflexivity.
  assert (Hlong : maxBodySize < slen body ->
            slen (String.substring 0 (Z.to_nat maxBodySize) body +:+ truncationMarker)
            = maxBodySize + 16).
  { intros H. unfold slen in *. rewrite append_length, Hmark.
    rewrite substring_prefix_length by lia. lia. }
  unfold truncateBody.
  destruct (Z.ltb_spec maxBodySize (slen body)) as [Hgt|Hle].
  - split; [lia|]. split; [|rewrite Hlong by lia; lia].
    intros _. split; [reflexivity|]. split; [apply Hlong; lia|apply substring_is_prefix].
  - split; [reflexivity|]. split; [lia|lia].
Qed.

Lemma truncateBody_bounds_witness :
  slen "hello" <= maxBodySize /\ truncateBody "hello" = "hello"%string.
Proof.
  assert (H : slen "hello" <= maxBodySize) by (vm_compute; discriminate).
  split; [exact H|].
  destruct (truncateBody_bounds "hello") as (Hsmall & _). exact (Hsmall H).
Defined.

Lemma prepend_head ex exs : exists rest, prepend ex exs = ex :: rest.
Proof.
  unfold prepend. destruct (100 <? len (ex :: exs)); [|eexists; reflexivity].
  cbn [firstn]. change 100%nat with (S 99). cbn [firstn]. eexists. reflexivity.
Qed.

Lemma prepend_firstn ex exs : prepend ex exs = firstn 100 (ex :: exs).
Proof.
  unfold prepend, len. destruct (Z.ltb_spec 100 (Z.of_nat (length (ex :: exs)))); [reflexivity|].
  symmetry. apply firstn_all2. lia.
Qed.

Lemma descending_firstn n l : Spec.descending l -> Spec.descending (firstn n l).
Proof.
  unfold Spec.descending. intros H. revert n.
  induction H as [|x l Hs IH Hall]; intros n; destruct n; cbn [firstn]; try constructor.
  - apply IH.
  - apply Forall_take. exact Hall.
Qed.

Lemma requestsPresent_grow g h ex rq h' n port :
  Spec.requestsPresent g h ->
  HTTPExchange.Request ex = Some rq -> is_Some (requests h' !! rq) ->
  (forall r, is_Some (requests h !! r) -> is_Some (requests h' !! r)) ->
  Spec.requestsPresent
    {| exchanges := prepend ex (exchanges g); nextID := n; localPort := port |} h'.
Proof.
  unfold Spec.requestsPresent. intros Hall Hr Hq Hmono. cbn [exchanges].
  rewrite prepend_firstn. apply Forall_take. constructor.
  - exists rq. split; assumption.
  - eapply List.Forall_impl; [|exact Hall]. cbn. intros e (r & E & S).
    exists r. split; [exact E|apply Hmono, S].
Qed.

Lemma order_prepend j g ex :
  0 <= nextID g <= j -> j + 1 <= Int64.MaxInt64 ->
  HTTPExchange.ID ex = nextID g ->
  len (exchanges g) <= 100 ->
  Spec.descending (map HTTPExchange.ID (exchanges g)) ->
  Forall (fun i => i < nextID g) (map HTTPExchange.ID (exchanges g)) ->
  len (prepend ex (exchanges g)) <= 100
  /\ 0 <= Int64.add (nextID g) 1 <= j + 1
  /\ Spec.descending (map HTTPExchange.ID (prepend ex (exchanges g)))
  /\ Forall (fun i => i < Int64.add (nextID g) 1)
            (map HTTPExchange.ID (prepend ex (exchanges g))).
Proof.
  unfold Int64.MaxInt64. intros Hn Hj Hid Hlen Hdesc Hbelow.
  rewrite add_in_range by (unfold Int64.in_range, Int64.MinInt64, Int64.MaxInt64; lia).
  rewrite prepend_firstn, <- List.firstn_map. cbn [map]. rewrite Hid.
  split; [|split; [lia|split]].
  - unfold len. rewrite List.length_firstn. lia.
  - apply descending_firstn, descending_cons_below; assumption.
  - apply Forall_take. constructor; [lia|].
    eapply List.Forall_impl; [|exact Hbelow]. cbn. intros. lia.
Qed.

Lemma insert_keeps_some {V} (m : gmap ptr V) p v r :
  is_Some (m !! r) -> is_Some (<[p := v]> m !! r).
Proof.
  intros H. destruct (decide (p = r)) as [->|N].
  - rewrite lookup_insert_eq. eexists. reflexivity.
  - rewrite lookup_insert_ne by exact N. exact H.
Qed.

Lemma packageOrder_step j gh o :
  Spec.packageOrder j gh.1 gh.2 -> j + 1 <= Int64.MaxInt64 ->
  Spec.packageOrder (j + 1) (Spec.packageStep gh o).1 (Spec.packageStep gh o).2.
Proof.
  destruct gh as [g h]. cbn [fst snd].
  intros (Hreq & Hlen & Hn & Hdesc & Hbelow) Hj.
  destruct o; cbn [Spec.packageStep fst snd].
  - unfold AddExchange, allocRequest.
    destruct resp as [resp|]; cbn [allocResponse fst snd].
    + destruct (order_prepend j g
                  {| HTTPExchange.ID := nextID g;
                     HTTPExchange.Request := Some (fresh (dom (requests h)));
                     HTTPExchange.Response := Some (fresh (dom (responses h)));
                     HTTPExchange.Duration := Milliseconds duration;
                     HTTPExchange.Timestamp := now |} Hn Hj eq_refl Hlen Hdesc Hbelow)
        as (H1 & H2 & H3 & H4).
      split; [|exact (conj H1 (conj H2 (conj H3 H4)))].
      eapply requestsPresent_grow; [exact Hreq|reflexivity| |];
        cbn [requests]; [rewrite lookup_insert_eq; eexists; reflexivity|].
      intros r. apply insert_keeps_some.
    + destruct (order_prepend j g
                  {| HTTPExchange.ID := nextID g;
                     HTTPExchange.Request := Some (fresh (dom (requests h)));
                     HTTPExchange.Response := None;
                     HTTPExchange.Duration := Milliseconds duration;
                     HTTPExchange.Timestamp := now |} Hn Hj eq_refl Hlen Hdesc Hbelow)
        as (H1 & H2 & H3 & H4).
      split; [|exact (conj H1 (conj H2 (conj H3 H4)))].
      eapply requestsPresent_grow; [exact Hreq|reflexivity| |];
        cbn [requests]; [rewrite lookup_insert_eq; eexists; reflexivity|].
      intros r. apply insert_keeps_some.
  - unfold AddRequest, allocHeader, allocRequest.
    destruct (0 <? status); cbn [allocResponse fst snd requests].
    + match goal with
      | |- Spec.packageOrder _ {| exchanges := prepend ?e _ |} _ =>
          destruct (order_prepend j g e Hn Hj eq_refl Hlen Hdesc Hbelow)
            as (H1 & H2 & H3 & H4)
      end.
      split; [|exact (conj H1 (conj H2 (conj H3 H4)))].
      eapply requestsPresent_grow; [exact Hreq|reflexivity| |];
        cbn [requests]; [rewrite lookup_insert_eq; eexists; reflexivity|].
      intros r. apply insert_keeps_some.
    + match goal with
      | |- Spec.packageOrder _ {| exchanges := prepend ?e _ |} _ =>
          destruct (order_prepend j g e Hn Hj eq_refl Hlen Hdesc Hbelow)
            as (H1 & H2 & H3 & H4)
      end.
      split; [|exact (conj H1 (conj H2 (conj H3 H4)))].
      eapply requestsPresent_grow; [exact Hreq|reflexivity| |];
        cbn [requests]; [rewrite lookup_insert_eq; eexists; reflexivity|].
      intros r. apply insert_keeps_some.
  - split; [exact Hreq|]. cbn [SetLocalPort exchanges nextID].
    repeat split; try assumption; lia.
  - unfold GetExchange. destruct (lookupID (exchanges g) id); cbn [allocExchange fst snd];
      (split; [exact Hreq|repeat split; try assumption; lia]).
Qed.

Lemma packageOrder_run ops : forall j gh,
  Spec.packageOrder j gh.1 gh.2 -> j + Z.of_nat (length ops) <= Int64.MaxInt64 ->
  Spec.packageOrder (j + Z.of_nat (length ops))
    (fold_left Spec.packageStep ops gh).1 (fold_left Spec.packageStep ops gh).2.
Proof.
  induction ops as [|o ops IH]; intros j gh Hord Hj.
  - cbn. rewrite Z.add_0_r. exact Hord.
  - cbn [length fold_left] in *. rewrite Nat2Z.inj_succ in *.
    replace (j + Z.succ (Z.of_nat (length ops))) with (j + 1 + Z.of_nat (length ops)) by lia.
    apply IH; [apply packageOrder_step; [exact Hord|lia]|lia].
Qed.

Lemma handleReplay_no_panic env g h method idStr :
  Spec.requestsPresent g h -> (handleReplay env g h method idStr).1 <> Panic.
Proof.
  intros Hreq. unfold handleReplay.
  destruct (negb (String.eqb method "POST")); [discriminate|].
  destruct (Strconv.ParseInt idStr) as [id|]; [|discriminate].
  destruct (lookupID (exchanges g) id) as [ex|] eqn:Hl.
  - rewrite (GetExchange_found _ _ h _ Hl).
    destruct (String.eqb (localPort g) ""); [discriminate|].
    destruct (storedRequest_copy g h id ex Hreq Hl) as (r & request & _ & _ & Hs).
    rewrite Hs.
    destruct (Http.NewRequest _ _ _ _); [discriminate|].
    destruct (Do env _ _); discriminate.
  - rewrite (GetExchange_missing _ _ _ Hl). discriminate.
Qed.

(** X9.  Whatever fewer than 2^63 calls of [AddExchange], [AddRequest],
    [SetLocalPort] and [GetExchange] have done to the package variables,
    the capture list holds at most 100 exchanges, newest first with
    strictly falling identifiers, each pointing to a request record; so a
    replay never meets a nil request: [handleReplay] always answers. *)
Theorem package_list_in_order (ops : list Spec.PackageOp)
    (env : Env) (method idStr : string) :
  len ops < 2 ^ 63 ->
  let g := (Spec.packageRun ops).1 in
  let h := (Spec.packageRun ops).2 in
  len (exchanges g) <= 100
  /\ Spec.descending (map HTTPExchange.ID (exchanges g))
  /\ Spec.requestsPresent g h
  /\ (handleReplay env g h method idStr).1 <> Panic
  /\ exists code, replyStatus (handleReplay env g h method idStr).1 = Some code.
Proof.
  intros Hlen g h.
  destruct (packageOrder_run ops 0 (initial, emptyHeap)) as (Hreq & Hl & _ & Hdesc & _).
  { unfold Spec.packageOrder, Spec.requestsPresent, Spec.descending, len. cbn.
    split; [apply List.Forall_nil|]. split; [lia|]. split; [lia|].
    split; [apply SSorted_nil|apply List.Forall_nil]. }
  { unfold len, Int64.MaxInt64 in *. lia. }
  fold (Spec.packageRun ops) in Hreq, Hl, Hdesc. fold g in Hreq, Hl, Hdesc. fold h in Hreq.
  pose proof (handleReplay_no_panic env g h method idStr Hreq) as Hnp.
  repeat split; try assumption.
  destruct (handleReplay env g h method idStr).1; try (eexists; reflexivity). congruence.
Qed.

Lemma package_list_in_order_witness :
  let ops := [Spec.PAddRequest "GET" "example.com" "/" 200 0;
              Spec.PSetLocalPort "3000"; Spec.PGetExchange 0;
              Spec.PAddRequest "POST" "example.com" "/x" 0 1] in
  len ops < 2 ^ 63
  /\ len (exchanges (Spec.packageRun ops).1) <= 100.
Proof.
  intros ops.
  assert (H : len ops < 2 ^ 63) by reflexivity.
  split; [exact H|].
  destruct (package_list_in_order ops Spec.obligingEnv "POST" "0" H) as (Hl & _). exact Hl.
Defined.

(** X10.  What [AddExchange] captures, [GetExchange] finds: the identifier
    returned is found at once, and through the copy one reads the request
    with the method, URL, protocol and header reference of the forwarded
    request, the truncated body and the original size, and a response
    part exactly when a response was given. *)
Theorem capture_then_lookup (g : Package) (h : Heap) (req : Http.Request.t)
    (reqBody : string) (resp : option Http.Response.t) (respBody : string)
    (duration now : Z) :
  let added := AddExchange g h req reqBody resp respBody duration now in
  exists p h' ex,
    GetExchange added.1.2 added.1.1 added.2 = (Some p, true, h')
    /\ added.1.1 = nextID g
    /\ HTTPExchange.ID ex = nextID g
    /\ HTTPExchange.Duration ex = Milliseconds duration
    /\ Spec.view h' p
       = Some (ex,
               Some {| HTTPRequest.Method := Http.Request.Method req;
                       HTTPRequest.URL := Http.Request.URL req;
                       HTTPRequest.Proto := Http.Request.Proto req;
                       HTTPRequest.Headers := Http.Request.Header req;
                       HTTPRequest.Body := truncateBody reqBody;
                       HTTPRequest.Size := slen reqBody |},
               match resp with
               | Some r =>
                   Some {| HTTPResponse.Status := Http.Response.StatusCode r;
                           HTTPResponse.Proto := Http.Response.Proto r;
                           HTTPResponse.Headers := Http.Response.Header r;
                           HTTPResponse.Body := truncateBody respBody;
                           HTTPResponse.Size := slen respBody |}
               | None => None
               end).
Proof.
  intros added. unfold added, AddExchange, allocRequest.
  destruct resp as [r|]; cbn [allocResponse fst snd requests responses];
    match goal with
    | |- context [prepend ?e (exchanges g)] =>
        destruct (prepend_head e (exchanges g)) as [rest Hp]; rewrite Hp;
        eexists _, _, e
    end;
    (split; [unfold GetExchange; cbn [exchanges lookupID HTTPExchange.ID];
             rewrite Z.eqb_refl; reflexivity|]);
    (split; [reflexivity|]); (split; [reflexivity|]); (split; [reflexivity|]);
    unfold Spec.view;
    cbn [allocExchange fst snd exchangeCells requests responses
         HTTPExchange.Request HTTPExchange.Response];
    rewrite lookup_insert_eq;
    cbn [HTTPExchange.Request HTTPExchange.Response];
    rewrite ?lookup_insert_eq; reflexivity.
Qed.

(** X11.  The handler of ["/api/exchanges/{id}"], whatever the method:
    400 when the segment does not parse as a decimal int64, 404 when no
    captured exchange has the id, otherwise 200 with that exchange (the
    first in the list with the id); it never fails. *)
Theorem exchange_route_statuses (env : Env) (g : Package) (h : Heap) (method path : string) :
  let idStr := GoStrings.TrimPrefix path "/api/exchanges/" in
  let reply := (exchangesRoute env g h method path).1 in
  GoStrings.HasPrefix idStr "replay/" = false ->
  (Strconv.ParseInt idStr = None -> reply = Error "Invalid ID" None 400)
  /\ (forall id, Strconv.ParseInt idStr = Some id ->
        (lookupID (exchanges g) id = None -> reply = Error "Not found" None 404)
        /\ (forall ex, lookupID (exchanges g) id = Some ex ->
              reply = ExchangeJSON ex /\ replyStatus reply = Some 200
              /\ HTTPExchange.ID ex = id))
  /\ reply <> Panic.
Proof.
  intros idStr reply Hpre. unfold reply, exchangesRoute. fold idStr. rewrite Hpre.
  destruct (Strconv.ParseInt idStr) as [id|].
  - destruct (lookupID (exchanges g) id) as [ex|] eqn:Hl.
    + rewrite (GetExchange_found _ _ h _ Hl), allocExchange_lookup.
      split; [discriminate|]. split; [|discriminate].
      intros id' [= <-]. split; [congruence|].
      intros ex' Hex. assert (E : ex' = ex) by congruence. subst ex'.
      repeat split. eapply lookupID_ID; exact Hl.
    + rewrite (GetExchange_missing _ _ _ Hl).
      split; [discriminate|]. split; [|discriminate].
      intros id' [= <-]. split; [reflexivity|]. intros ex' Hex. congruence.
  - split; [reflexivity|]. split; [discriminate|discriminate].
Qed.

Lemma exchange_route_statuses_witness :
  GoStrings.HasPrefix (GoStrings.TrimPrefix "/api/exchanges/abc" "/api/exchanges/") "replay/"
  = false
  /\ (exchangesRoute Spec.obligingEnv initial emptyHeap "GET" "/api/exchanges/abc").1
     = Error "Invalid ID" None 400.
Proof.
  assert (H : GoStrings.HasPrefix (GoStrings.TrimPrefix "/api/exchanges/abc" "/api/exchanges/")
                "replay/" = false) by reflexivity.
  split; [exact H|].
  destruct (exchange_route_statuses Spec.obligingEnv initial emptyHeap "GET"
              "/api/exchanges/abc" H) as (H400 & _).
  apply H400. reflexivity.
Defined.

End PackageMore.

(** ** Tunnel: what a worker and a session always do *)

Section TunnelMore.
Import Tunnel.
Local Open Scope Z_scope.

Lemma last_snoc_list {A} (l : list A) x : list.last (l ++ [x]) = Some x.
Proof. apply last_snoc. Qed.

(** The effects of one worker, whatever it meets. *)
Ltac world_norm :=
  cbn [emit withInspector heap inspector trace Inspector.headerMaps Inspector.requests
       Inspector.responses Inspector.exchangeCells fst snd].

Ltac effects_done :=
  world_norm; rewrite <- ?app_assoc; eexists; (split; [reflexivity|]); repeat split.

Lemma proxyStream_effects t io w :
  exists es,
    trace (proxyStream t io w) = trace w ++ es
    /\ head es = Some (LocalDialed ("localhost:" +:+ LocalPort t))
    /\ list.last es = Some RemoteClosed
    /\ Spec.occurrences Spec.isRemoteClosed es = 1%nat
    /\ Spec.occurrences Spec.isLocalClosed es
       = match dial io with Some _ => 0%nat | None => 1%nat end
    /\ Spec.occurrences Spec.isLocalDialed es = 1%nat
    /\ Spec.occurrences Spec.isConnClosed es = 0%nat.
Proof.
  unfold proxyStream.
  destruct (dial io) as [e|]; [effects_done|].
  destruct (readRequest io) as [e|parsed]; [effects_done|].
  unfold materializeRequest, materializeResponse, addExchange, Inspector.AddExchange,
    Inspector.allocHeader, Inspector.allocRequest, Inspector.allocResponse.
  world_norm.
  destruct (requestBody io) as [rb|]; world_norm;
    (destruct (writeRequest io) as [e|]; [effects_done|]);
    (destruct (readResponse io) as [e|parsedResp]; [effects_done|]);
    world_norm; destruct (writeResponse io) as [e|]; effects_done.
Qed.

(** X12.  A worker closes its stream exactly once, as the last thing it
    does, whatever the dial, the parses and the writes come to; it closes
    the local socket exactly once when the dial succeeded and never when it
    failed; it starts with the dial of localhost:<port>. *)
Theorem worker_closes_stream_once (t : Tunnel) (io : StreamIO) (w : World) :
  exists es,
    trace (proxyStream t io w) = trace w ++ es
    /\ head es = Some (LocalDialed ("localhost:" +:+ LocalPort t))
    /\ list.last es = Some RemoteClosed
    /\ Spec.occurrences Spec.isRemoteClosed es = 1%nat
    /\ Spec.occurrences Spec.isLocalClosed es
       = match dial io with Some _ => 0%nat | None => 1%nat end.
Proof.
  destruct (proxyStream_effects t io w) as (es & H1 & H2 & H3 & H4 & H5 & _).
  exists es. repeat split; assumption.
Qed.

(** X13.  A worker records an exchange exactly when the request reached
    the local service (dial, parse and forwarding write succeeded): then
    the package list gets one new exchange in front with the next
    identifier, with a response part exactly when the response parsed, and
    a failure to write the response back does not undo it; otherwise the
    inspector's variables are as before. *)
Theorem worker_records_iff_forwarded (t : Tunnel) (io : StreamIO) (w : World) :
  let w' := proxyStream t io w in
  (Spec.forwarded io = false -> inspector w' = inspector w)
  /\ (Spec.forwarded io = true ->
      Inspector.nextID (inspector w') = Int64.add (Inspector.nextID (inspector w)) 1
      /\ Inspector.nextID (inspector w') <> Inspector.nextID (inspector w)
      /\ exists ex,
           Inspector.exchanges (inspector w')
           = Inspector.prepend ex (Inspector.exchanges (inspector w))
           /\ Inspector.HTTPExchange.ID ex = Inspector.nextID (inspector w)
           /\ (Inspector.HTTPExchange.Response ex = None
               <-> exists err, readResponse io = inl err)).
Proof.
  intros w'. unfold w', Spec.forwarded, proxyStream.
  destruct (dial io) as [e|]; [split; [reflexivity|discriminate]|].
  destruct (readRequest io) as [e|parsed]; [split; [reflexivity|discriminate]|].
  unfold materializeRequest, materializeResponse, addExchange, Inspector.AddExchange,
    Inspector.allocHeader, Inspector.allocRequest, Inspector.allocResponse.
  cbn [emit withInspector heap inspector trace Inspector.headerMaps Inspector.requests
       Inspector.responses Inspector.exchangeCells fst snd].
  assert (Hne : forall n, Int64.add n 1 <> n).
  { intros n. unfold Int64.add, Int64.wrap, Int64.modulus.
    pose proof (Z.mod_pos_bound (n + 1 + 2 ^ 63) (2 ^ 64) ltac:(lia)) as B.
    intros E.
    assert (Hm : (n + 1 + 2 ^ 63) mod 2 ^ 64 = n + 2 ^ 63) by lia.
    pose proof (Z.div_mod (n + 1 + 2 ^ 63) (2 ^ 64) ltac:(lia)) as D.
    rewrite Hm in D. lia. }
  destruct (requestBody io) as [rb|];
    cbn [emit withInspector heap inspector trace];
    (destruct (writeRequest io) as [e|]; [split; [reflexivity|discriminate]|]);
    (split; [discriminate|]; intros _);
    destruct (readResponse io) as [e|parsedResp];
    cbn [emit withInspector heap inspector trace Inspector.headerMaps Inspector.requests
         Inspector.responses Inspector.exchangeCells fst snd];
    try (destruct (writeResponse io) as [e'|]);
    cbn [emit withInspector heap inspector Inspector.nextID Inspector.exchanges];
    (split; [reflexivity|]); (split; [apply Hne|]);
    eexists; (split; [reflexivity|]); (split; [reflexivity|]);
    cbn [Inspector.HTTPExchange.Response];
    (split; [intros H; try discriminate; eexists; reflexivity
            |intros [err H]; try discriminate; reflexivity]).
Qed.

Lemma worker_records_iff_forwarded_witness :
  Spec.forwarded Spec.refusedStream = false
  /\ inspector (proxyStream Spec.localTunnel Spec.refusedStream Spec.startedWorld)
     = inspector Spec.startedWorld.
Proof.
  destruct (worker_records_iff_forwarded Spec.localTunnel Spec.refusedStream Spec.startedWorld)
    as (Hno & _).
  split; [reflexivity|]. exact (Hno eq_refl).
Defined.

Lemma occurrences_app kind es1 es2 :
  Spec.occurrences kind (es1 ++ es2)
  = (Spec.occurrences kind es1 + Spec.occurrences kind es2)%nat.
Proof. unfold Spec.occurrences. rewrite List.filter_app, length_app. reflexivity. Qed.

(** The effects of an accept loop: one dial per stream, no close of the
    connection. *)
Lemma acceptLoop_effects t streams : forall err w,
  exists es,
    trace (acceptLoop t streams err w).2 = trace w ++ es
    /\ Spec.occurrences Spec.isLocalDialed es = length streams
    /\ Spec.occurrences Spec.isRemoteClosed es = length streams
    /\ Spec.occurrences Spec.isConnClosed es = 0%nat.
Proof.
  induction streams as [|io streams IH]; intros err w; cbn [acceptLoop].
  - exists []. split; [symmetry; apply app_nil_r|]. repeat split.
  - destruct (proxyStream_effects t io w) as (es1 & T1 & _ & _ & R1 & _ & D1 & C1).
    destruct (IH err (proxyStream t io w)) as (es2 & T2 & D2 & R2 & C2).
    exists (es1 ++ es2). rewrite T2, T1, app_assoc. split; [reflexivity|].
    rewrite !occurrences_app, D1, D2, R1, R2, C1, C2. cbn [length]. repeat split.
Qed.

Lemma printed_lines (f : string -> string) (ds : list string) :
  Spec.controlMessages (map (fun d => Printed (f d)) ds) = []
  /\ Spec.occurrences Spec.isConnClosed (map (fun d => Printed (f d)) ds) = 0%nat.
Proof.
  induction ds as [|d ds [I1 I2]]; [split; reflexivity|].
  cbn [map Spec.controlMessages]. split; [exact I1|].
  unfold Spec.occurrences in *. cbn [List.filter Spec.isConnClosed]. exact I2.
Qed.

(** X14.  A session always closes the connection, exactly once and as its
    last effect.  What it writes on the control stream is a prefix of the
    authentication request followed by the tunnel request, both when the
    first write succeeds; the tunnel request carries null when no
    subdomain is configured and the one subdomain otherwise. *)
Theorem session_closes_connection (t : Tunnel) (io : SessionIO) (w : World) :
  exists es,
    trace (handleSession t io w).2 = trace w ++ es
    /\ list.last es = Some ConnClosed
    /\ Spec.occurrences Spec.isConnClosed es = 1%nat
    /\ (exists k, Spec.controlMessages es
                  = firstn k [Protocol.encodeAuthRequest (authReq t);
                              Protocol.encodeTunnelRequest (tunnelReq t)])
    /\ (yamuxClient io = None -> sessionOpen io = None -> encodeAuth io = None ->
        Spec.controlMessages es
        = [Protocol.encodeAuthRequest (authReq t);
           Protocol.encodeTunnelRequest (tunnelReq t)])
    /\ Spec.member "requested_domains" (Protocol.encodeTunnelRequest (tunnelReq t))
       = Some (if String.eqb (Subdomain t) ""
               then Protocol.JNull else Protocol.JStrings [Subdomain t]).
Proof.
  assert (Hmember : Spec.member "requested_domains" (Protocol.encodeTunnelRequest (tunnelReq t))
       = Some (if String.eqb (Subdomain t) ""
               then Protocol.JNull else Protocol.JStrings [Subdomain t])).
  { unfold tunnelReq. destruct (String.eqb (Subdomain t) ""); reflexivity. }
  unfold handleSession.
  destruct (yamuxClient io) as [e|].
  { exists [ConnClosed]. split; [reflexivity|]. split; [reflexivity|]. split; [reflexivity|].
    split; [exists 0%nat; reflexivity|]. split; [discriminate|exact Hmember]. }
  destruct (sessionOpen io) as [e|].
  { exists [ConnClosed]. split; [reflexivity|]. split; [reflexivity|]. split; [reflexivity|].
    split; [exists 0%nat; reflexivity|]. split; [discriminate|exact Hmember]. }
  destruct (encodeAuth io) as [e|].
  { eexists. cbn [emit trace snd]. rewrite <- app_assoc. split; [reflexivity|].
    split; [reflexivity|]. split; [reflexivity|].
    split; [exists 1%nat; reflexivity|]. split; [discriminate|exact Hmember]. }
  destruct (encodeTunnel io) as [e|].
  { eexists. cbn [emit trace snd]. rewrite <- !app_assoc. split; [reflexivity|].
    split; [reflexivity|]. split; [reflexivity|].
    split; [exists 2%nat; reflexivity|]. split; [reflexivity|exact Hmember]. }
  destruct (decodeResponse io) as [e|resp].
  { eexists. cbn [emit trace snd]. rewrite <- !app_assoc. split; [reflexivity|].
    split; [reflexivity|]. split; [reflexivity|].
    split; [exists 2%nat; reflexivity|]. split; [reflexivity|exact Hmember]. }
  destruct (negb (Protocol.Success resp)).
  { eexists. cbn [emit trace snd]. rewrite <- !app_assoc. split; [reflexivity|].
    split; [reflexivity|]. split; [reflexivity|].
    split; [exists 2%nat; reflexivity|]. split; [reflexivity|exact Hmember]. }
  match goal with
  | |- context [acceptLoop t ?s ?e ?w0] =>
      pose proof (acceptLoop_extends t s e w0) as (_ & _ & es' & Ht' & Hq);
      destruct (acceptLoop_effects t s e w0) as (es & Ht & _ & _ & Hc);
      destruct (acceptLoop t s e w0) as [err w1]
  end.
  cbn [snd] in Ht, Ht'. rewrite Ht in Ht'. apply app_inv_head in Ht'. subst es'.
  cbn [emit trace snd]. rewrite Ht. cbn [emit trace].
  set (domains := map _ (Protocol.BoundDomains resp)).
  assert (Hdq : Spec.controlMessages domains = [] /\ Spec.occurrences Spec.isConnClosed domains = 0%nat).
  { unfold domains. apply printed_lines. }
  destruct Hdq as [Hd1 Hd2].
  eexists. rewrite <- !app_assoc. split; [reflexivity|].
  split.
  { rewrite !app_assoc. apply last_snoc_list. }
  split.
  { rewrite !occurrences_app, Hd2, Hc. reflexivity. }
  assert (Hmsgs : Spec.controlMessages
            ([ControlEncoded (Protocol.encodeAuthRequest (authReq t))] ++
             [ControlEncoded (Protocol.encodeTunnelRequest (tunnelReq t))] ++
             [Printed ("Tunnel Established! Incoming traffic on:" +:+ newline)] ++
             domains ++ [ControlClosed] ++ es ++ [ConnClosed])
          = [Protocol.encodeAuthRequest (authReq t);
             Protocol.encodeTunnelRequest (tunnelReq t)]).
  { cbn [app Spec.controlMessages]. rewrite controlMessages_app, Hd1.
    cbn [app Spec.controlMessages]. rewrite controlMessages_app.
    unfold Spec.quiet in Hq. rewrite Hq. reflexivity. }
  split; [exists 2%nat; exact Hmsgs|]. split; [intros _ _ _; exact Hmsgs|exact Hmember].
Qed.

Lemma session_closes_connection_witness :
  yamuxClient Spec.brokenSession = None
  /\ sessionOpen Spec.brokenSession = None
  /\ encodeAuth Spec.brokenSession = None
  /\ exists es,
       trace (handleSession Spec.localTunnel Spec.brokenSession Spec.startedWorld).2 = es
       /\ Spec.controlMessages es
          = [[("token"%string, Protocol.JString "secret")];
             [("requested_domains"%string, Protocol.JNull)]].
Proof.
  destruct (session_closes_connection Spec.localTunnel Spec.brokenSession Spec.startedWorld)
    as (es & Ht & _ & _ & _ & Hboth & _).
  split; [reflexivity|]. split; [reflexivity|]. split; [reflexivity|].
  exists es. split; [exact Ht|]. exact (Hboth eq_refl eq_refl eq_refl).
Defined.

Lemma printed_no_dial (f : string -> string) (ds : list string) :
  Spec.occurrences Spec.isLocalDialed (map (fun d => Printed (f d)) ds) = 0%nat
  /\ Spec.occurrences Spec.isRemoteClosed (map (fun d => Printed (f d)) ds) = 0%nat.
Proof.
  induction ds as [|d ds [I1 I2]]; [split; reflexivity|].
  unfold Spec.occurrences in *. cbn [map List.filter Spec.isLocalDialed Spec.isRemoteClosed].
  split; assumption.
Qed.

(** X15.  Workers follow the handshake.  A session whose handshake does
    not go through (the multiplexer or the control stream does not open, a
    request cannot be written, the response cannot be read or reports
    failure) starts no worker and leaves the inspector as it was.  A
    session whose handshake succeeds starts one worker for each stream the
    session yields, each of which closes its stream, and ends with the
    error of [Accept].  In neither case does the session touch the
    statistics engine or the event bus. *)
Theorem session_workers_follow_handshake (t : Tunnel) (io : SessionIO) (w : World) :
  let r := handleSession t io w in
  stats r.2 = stats w /\ bus r.2 = bus w
  /\ exists es,
       trace r.2 = trace w ++ es
       /\ (Spec.handshakeOk io = false ->
           inspector r.2 = inspector w /\ heap r.2 = heap w
           /\ Spec.occurrences Spec.isLocalDialed es = 0%nat)
       /\ (Spec.handshakeOk io = true ->
           r.1 = ("session ended: " +:+ acceptError io)%string
           /\ Spec.occurrences Spec.isLocalDialed es = length (accepted io)
           /\ Spec.occurrences Spec.isRemoteClosed es = length (accepted io)).
Proof.
  intros r. unfold r, handleSession, Spec.handshakeOk.
  destruct (yamuxClient io) as [e|].
  { repeat split. exists [ConnClosed]. split; [reflexivity|]. split; [repeat split|discriminate]. }
  destruct (sessionOpen io) as [e|].
  { repeat split. exists [ConnClosed]. split; [reflexivity|]. split; [repeat split|discriminate]. }
  destruct (encodeAuth io) as [e|].
  { repeat split. eexists. cbn [emit trace snd]. rewrite <- app_assoc.
    split; [reflexivity|]. split; [repeat split|discriminate]. }
  destruct (encodeTunnel io) as [e|].
  { repeat split. eexists. cbn [emit trace snd]. rewrite <- !app_assoc.
    split; [reflexivity|]. split; [repeat split|discriminate]. }
  destruct (decodeResponse io) as [e|resp].
  { repeat split. eexists. cbn [emit trace snd]. rewrite <- !app_assoc.
    split; [reflexivity|]. split; [repeat split|discriminate]. }
  destruct (Protocol.Success resp); cbn [negb].
  2:{ repeat split. eexists. cbn [emit trace snd]. rewrite <- !app_assoc.
      split; [reflexivity|]. split; [repeat split|discriminate]. }
  match goal with
  | |- context [acceptLoop t ?s ?e ?w0] =>
      pose proof (acceptLoop_extends t s e w0) as (Hs & Hb & _);
      pose proof (acceptLoop_fold t s e w0) as Hf;
      destruct (acceptLoop_effects t s e w0) as (es & Ht & Hd & Hr & _);
      destruct (acceptLoop t s e w0) as [err w1]
  end.
  cbn [fst snd] in *. injection Hf as Herr _.
  cbn [emit stats bus trace] in *.
  split; [exact Hs|]. split; [exact Hb|].
  rewrite Ht.
  destruct (printed_no_dial
              (fun d => " - " +:+ scheme t +:+ "://" +:+ d +:+ " -> localhost:"
                        +:+ LocalPort t +:+ newline)
              (Protocol.BoundDomains resp)) as [Hp1 Hp2].
  eexists. rewrite <- !app_assoc. split; [reflexivity|].
  split; [discriminate|]. intros _.
  split; [exact Herr|].
  rewrite !occurrences_app, Hp1, Hp2, Hd, Hr. split; cbn; lia.
Qed.

Lemma session_workers_follow_handshake_witness :
  Spec.handshakeOk Spec.brokenSession = false
  /\ inspector (handleSession Spec.localTunnel Spec.brokenSession Spec.startedWorld).2
     = inspector Spec.startedWorld.
Proof.
  destruct (session_workers_follow_handshake Spec.localTunnel Spec.brokenSession
              Spec.startedWorld) as (_ & _ & es & _ & Hfail & _).
  split; [reflexivity|]. destruct (Hfail eq_refl) as (Hi & _). exact Hi.
Defined.


End TunnelMore.

(** ** Dashboard model *)

Section TuiMore.
Import Tui.
Local Open Scope Z_scope.

Lemma handleEvent_maxRequests m ev now : maxRequests (handleEvent m ev now) = maxRequests m.
Proof.
  unfold handleEvent.
  destruct (Events.Type_ ev); destruct (Events.Data ev) as [|? ? ?|? ? ? ? ?|name port domains scheme|? ?];
    try reflexivity.
  - cbn [withRequests]. destruct (maxRequests m <? _); reflexivity.
  - destruct (addDomains (tunnels m) port domains); reflexivity.
Qed.

Lemma handleEvent_requests_bound m ev now :
  0 <= maxRequests m ->
  Z.of_nat (length (requests m)) <= maxRequests m ->
  Z.of_nat (length (requests (handleEvent m ev now))) <= maxRequests m.
Proof.
  intros Hm Hlen. unfold handleEvent.
  destruct (Events.Type_ ev);
    destruct (Events.Data ev) as [|? ? ?|method path code duration bytes|name port domains scheme|? ?];
    try exact Hlen.
  - destruct (Z.ltb_spec (maxRequests m) (Z.of_nat (length
        ({| Method := method; Path := path; Status := code; Duration := duration;
            At := now |} :: requests m)))) as [Hgt|Hle];
      cbn [withRequests requests].
    + rewrite List.length_firstn. lia.
    + exact Hle.
  - destruct (addDomains (tunnels m) port domains); exact Hlen.
Qed.

Lemma Update_bound m msg now :
  0 <= maxRequests m ->
  Z.of_nat (length (requests m)) <= maxRequests m ->
  maxRequests (Update m msg now).1 = maxRequests m
  /\ Z.of_nat (length (requests (Update m msg now).1)) <= maxRequests m.
Proof.
  intros Hm Hlen. destruct msg; cbn [Update fst withSize requests maxRequests];
    try (split; [reflexivity|exact Hlen]).
  - destruct (String.eqb key "q" || String.eqb key "ctrl+c"); split; [reflexivity|exact Hlen| |];
      [reflexivity|exact Hlen].
  - split; [apply handleEvent_maxRequests|apply handleEvent_requests_bound; assumption].
Qed.

Lemma updates_bound msgs : forall m,
  0 <= maxRequests m ->
  Z.of_nat (length (requests m)) <= maxRequests m ->
  maxRequests (Spec.updates m msgs) = maxRequests m
  /\ Z.of_nat (length (requests (Spec.updates m msgs))) <= maxRequests m.
Proof.
  induction msgs as [|[msg now] msgs IH]; intros m Hm Hlen; [split; [reflexivity|exact Hlen]|].
  unfold Spec.updates. cbn [fold_left fst snd].
  destruct (Update_bound m msg now Hm Hlen) as [E B].
  destruct (IH (Update m msg now).1) as [E' B']; [lia|lia|].
  unfold Spec.updates in E', B'. split; [congruence|lia].
Qed.

(** X17.  The dashboard keeps the ten most recent requests.  Whatever
    messages a new model has handled, it holds at most ten request entries
    and its bound is still ten; a request_complete event puts the new entry
    in front and keeps the first ten, so the oldest entry goes when ten
    were held. *)
Theorem dashboard_keeps_ten_requests (sub : option nat) (t0 : Z) (msgs : list (Msg * Z))
    (method path : string) (code duration bytes now : Z) :
  let m := Spec.updates (NewModel sub t0) msgs in
  let entry := {| Method := method; Path := path; Status := code;
                  Duration := duration; At := now |} in
  let m' := (Update m (eventMsg (Spec.requestComplete method path code duration bytes)) now).1 in
  maxRequests m = 10
  /\ (length (requests m) <= 10)%nat
  /\ requests m' = firstn 10 (entry :: requests m)
  /\ head (requests m') = Some entry
  /\ status m' = status m /\ tunnels m' = tunnels m.
Proof.
  intros m entry m'.
  destruct (updates_bound msgs (NewModel sub t0)) as [Hmax Hlen]; [cbn; lia|cbn; lia|].
  fold m in Hmax, Hlen. change (maxRequests (NewModel sub t0)) with 10 in Hmax, Hlen.
  split; [exact Hmax|]. split; [lia|].
  assert (Hreq : requests m' = firstn 10 (entry :: requests m)).
  { unfold m'. cbn [Update fst handleEvent Spec.requestComplete Events.Type_ Events.Data].
    fold entry. rewrite Hmax.
    destruct (Z.ltb_spec 10 (Z.of_nat (length (entry :: requests m)))) as [Hgt|Hle];
      cbn [withRequests requests].
    - reflexivity.
    - symmetry. apply firstn_all2. lia. }
  split; [exact Hreq|]. split; [rewrite Hreq; reflexivity|].
  unfold m'. cbn [Update fst handleEvent Spec.requestComplete Events.Type_ Events.Data].
  destruct (maxRequests m <? _); split; reflexivity.
Qed.








(** X19.  [truncatePath] with a bound of at least 3 never fails and never
    returns more than the bound: a path within the bound comes back as it
    is, a longer one as its first bound-3 bytes followed by three dots,
    exactly the bound long.  With a smaller bound it fails on every path
    longer than the bound. *)
Theorem truncatePath_bounds (path : string) (maxLen : Z) :
  let n := Z.of_nat (String.length path) in
  (n <= maxLen -> truncatePath path maxLen = Some path)
  /\ (3 <= maxLen -> maxLen < n ->
      truncatePath path maxLen
      = Some (String.substring 0 (Z.to_nat (maxLen - 3)) path +:+ "...")
      /\ String.prefix (String.substring 0 (Z.to_nat (maxLen - 3)) path) path = true)
  /\ (3 <= maxLen ->
      exists r, truncatePath path maxLen = Some r
                /\ Z.of_nat (String.length r) <= maxLen
                /\ (maxLen < n -> Z.of_nat (String.length r) = maxLen))
  /\ (maxLen < 3 -> maxLen < n -> truncatePath path maxLen = None).
Proof.
  intros n. unfold truncatePath. fold n.
  destruct (Z.leb_spec n maxLen) as [Hle|Hgt].
  - split; [reflexivity|]. split; [lia|]. split; [|lia].
    intros _. exists path. split; [reflexivity|]. fold n. split; lia.
  - split; [lia|].
    destruct (Z.ltb_spec (maxLen - 3) 0) as [Hneg|Hpos].
    + split; [lia|]. split; [lia|reflexivity].
    + split; [intros _ _; split; [reflexivity|apply substring_is_prefix]|].
      split; [|lia].
      intros _. eexists. split; [reflexivity|].
      rewrite append_length, substring_prefix_length by (unfold n in *; lia).
      cbn [String.length]. split; lia.
Qed.

Lemma truncatePath_bounds_witness :
  3 <= 8 /\ 8 < Z.of_nat (String.length "/api/users/42")
  /\ truncatePath "/api/users/42" 8 = Some "/api/..."%string.
Proof.
  destruct (truncatePath_bounds "/api/users/42" 8) as (_ & Hlong & _).
  assert (H1 : 3 <= 8) by lia.
  assert (H2 : 8 < Z.of_nat (String.length "/api/users/42")) by reflexivity.
  split; [exact H1|]. split; [exact H2|].
  destruct (Hlong H1 H2) as [E _]. rewrite E. reflexivity.
Defined.

End TuiMore.
